(** * Prague-Rent-Predictor: the scraper's extraction, filtering and merge logic

    A shallow embedding of [src/scraper/scrape.py].  Python values are an
    inductive type, Python text is a list of Unicode code points, the
    exceptions the code can raise are an error monad, and the network and
    the [data/] directory are explicit arguments and results. *)

From Stdlib Require Import ZArith NArith String Ascii List Lia DecimalString.
From stdpp Require Import base decidable option list gmap.
Import ListNotations.

Local Open Scope N_scope.

(** ** Text *)

(** A Python [str] is a sequence of code points. *)
Definition pystr := list N.

(** String literals of this file are UTF-8; [txt] decodes them into code
    points (1 to 4 byte sequences of well-formed UTF-8). *)
Fixpoint utf8_codepoints (bs : list N) (pending : nat) (acc : N) : pystr :=
  match bs with
  | [] => []
  | b :: rest =>
      match pending with
      | S O => (acc * 64 + b mod 64) :: utf8_codepoints rest O 0
      | S n => utf8_codepoints rest n (acc * 64 + b mod 64)
      | O =>
          if b <? 128 then b :: utf8_codepoints rest O 0
          else if b <? 224 then utf8_codepoints rest 1%nat (b mod 32)
          else if b <? 240 then utf8_codepoints rest 2%nat (b mod 16)
          else utf8_codepoints rest 3%nat (b mod 8)
      end
  end.

Definition txt (s : string) : pystr :=
  utf8_codepoints (map N_of_ascii (list_ascii_of_string s)) O 0.

Arguments txt : simpl never.

(** [sep.join(parts)] *)
Fixpoint join (sep : pystr) (parts : list pystr) : pystr :=
  match parts with
  | [] => []
  | [p] => p
  | p :: rest => p ++ sep ++ join sep rest
  end.

(** [needle in haystack] for two strings. *)
Fixpoint starts_with (p s : pystr) : bool :=
  match p, s with
  | [], _ => true
  | _ :: _, [] => false
  | a :: p', b :: s' => (a =? b) && starts_with p' s'
  end.

Fixpoint contains (needle haystack : pystr) : bool :=
  starts_with needle haystack ||
  match haystack with
  | [] => false
  | _ :: rest => contains needle rest
  end.

(** ** The Unicode tables of the interpreter

    [\d], [str.lower] and [repr] consult the Unicode database of the running
    interpreter, which differs between Python versions.  Below U+0100 the
    tables are written out; above, they are a parameter of the model. *)
Record unicode_db := {
  (** general category Nd, for code points from U+0100 up *)
  decimal_wide : N -> bool;
  (** full lower-case mapping, for code points from U+0100 up *)
  lower_wide : N -> pystr;
  (** the final-sigma test of [str.lower], given the text before and after *)
  final_sigma : pystr -> pystr -> bool;
  (** simple (one to one) lower-case mapping, for code points from U+0100
      up: what the regex engine compares under [re.IGNORECASE] *)
  simple_lower_wide : N -> N;
  (** [str.isprintable] of one code point, from U+0100 up *)
  printable_wide : N -> bool
}.

(** A database that knows nothing above Latin-1: no further digits, no case
    pairs, everything printable. *)
Definition latin1_db : unicode_db :=
  {| decimal_wide := fun _ => false;
     lower_wide := fun c => [c];
     final_sigma := fun _ _ => false;
     simple_lower_wide := fun c => c;
     printable_wide := fun _ => true |}.

(** [Py_UNICODE_ISSPACE]: what [\s] and [str.strip] call whitespace. *)
Definition is_space (c : N) : bool :=
  ((9 <=? c) && (c <=? 13)) || ((28 <=? c) && (c <=? 32)) ||
  (c =? 0x85) || (c =? 0xA0) || (c =? 0x1680) ||
  ((0x2000 <=? c) && (c <=? 0x200A)) ||
  (c =? 0x2028) || (c =? 0x2029) || (c =? 0x202F) || (c =? 0x205F) ||
  (c =? 0x3000).

(** Lower case of a code point below U+0100: A-Z and the Latin-1 capitals
    (U+00C0..U+00DE without the multiplication sign) move up by 32. *)
Definition lower_latin1 (c : N) : N :=
  if ((0x41 <=? c) && (c <=? 0x5A)) ||
     ((0xC0 <=? c) && (c <=? 0xDE) && negb (c =? 0xD7))
  then c + 32 else c.

Section Unicode.
Variable db : unicode_db.

(** [\d] in a [str] pattern. *)
Definition is_digit (c : N) : bool :=
  if c <? 256 then (0x30 <=? c) && (c <=? 0x39) else decimal_wide db c.

(** [s.lower()], written as the loop over the characters of [s] with the
    text already seen. *)
Fixpoint lower_from (before s : pystr) : pystr :=
  match s with
  | [] => []
  | c :: rest =>
      (if c <? 256 then [lower_latin1 c]
       else if c =? 0x3A3
            then [if final_sigma db before rest then 0x3C2 else 0x3C3]
            else lower_wide db c)
      ++ lower_from (before ++ [c]) rest
  end.

Definition py_lower (s : pystr) : pystr := lower_from [] s.

(** [Py_UNICODE_TOLOWER], the lower-casing of the regex engine. *)
Definition sre_lower (c : N) : N :=
  if c <? 256 then lower_latin1 c else simple_lower_wide db c.

End Unicode.

(** ** Python values *)

(** A float is known to the program by two observations only: whether it is
    zero (truth value) and the text [repr] gives for it. *)
Record pyfloat := { float_is_zero : bool; float_repr : pystr }.

(** What [response.json()] can return.  A dict is the list of its bindings
    in insertion order; a lookup takes the first binding of a key. *)
#[warnings="-register-all"]
Inductive pyval :=
| PNone
| PBool (b : bool)
| PInt (z : Z)
| PFloat (f : pyfloat)
| PStr (s : pystr)
| PList (l : list pyval)
| PDict (d : list (pystr * pyval)).

Definition pydict := list (pystr * pyval).

Fixpoint dict_find {V} (d : list (pystr * V)) (k : pystr) : option V :=
  match d with
  | [] => None
  | (k', v) :: rest => if decide (k' = k) then Some v else dict_find rest k
  end.

(** [d.get(k, default)] *)
Definition dict_get {V} (d : list (pystr * V)) (k : pystr) (default : V) : V :=
  match dict_find d k with Some v => v | None => default end.

(** [d[k] = v]: an existing key keeps its place. *)
Fixpoint dict_set {V} (d : list (pystr * V)) (k : pystr) (v : V)
    : list (pystr * V) :=
  match d with
  | [] => [(k, v)]
  | (k', v') :: rest =>
      if decide (k' = k) then (k', v) :: rest else (k', v') :: dict_set rest k v
  end.

(** [k in d] *)
Definition dict_has {V} (d : list (pystr * V)) (k : pystr) : bool :=
  match dict_find d k with Some _ => true | None => false end.

(** [bool(v)] *)
Definition truthy (v : pyval) : bool :=
  match v with
  | PNone => false
  | PBool b => b
  | PInt z => negb (z =? 0)%Z
  | PFloat f => negb (float_is_zero f)
  | PStr s => match s with [] => false | _ => true end
  | PList l => match l with [] => false | _ => true end
  | PDict d => match d with [] => false | _ => true end
  end.

(** [a or b] *)
Definition py_or (a b : pyval) : pyval := if truthy a then a else b.

Definition decimal (z : Z) : pystr :=
  map N_of_ascii (list_ascii_of_string (NilEmpty.string_of_int (Z.to_int z))).

Definition hex_digit (n : N) : N := if n <? 10 then 0x30 + n else 0x61 + (n - 10).

Fixpoint hex (width : nat) (n : N) : pystr :=
  match width with
  | O => []
  | S w => hex w (n / 16) ++ [hex_digit (n mod 16)]
  end.

Section Repr.
Variable db : unicode_db.

(** Below U+0100 the controls U+0000..U+001F and U+007F..U+009F, the
    no-break space and the soft hyphen are not printable. *)
Definition is_printable (c : N) : bool :=
  if c <? 256
  then (32 <=? c) && negb ((127 <=? c) && (c <=? 160)) && negb (c =? 173)
  else printable_wide db c.

(** One character of [repr(s)], inside the chosen quote. *)
Definition repr_char (quote c : N) : pystr :=
  if (c =? quote) || (c =? 0x5C) then [0x5C; c]
  else if c =? 9 then txt "\t"
  else if c =? 10 then txt "\n"
  else if c =? 13 then txt "\r"
  else if is_printable c then [c]
  else if c <=? 0xFF then txt "\x" ++ hex 2 c
  else if c <=? 0xFFFF then txt "\u" ++ hex 4 c
  else txt "\U" ++ hex 8 c.

Definition repr_str (s : pystr) : pystr :=
  let quote := if existsb (N.eqb 0x27) s && negb (existsb (N.eqb 0x22) s)
               then 0x22 else 0x27 in
  [quote] ++ flat_map (repr_char quote) s ++ [quote].

Fixpoint py_repr (v : pyval) : pystr :=
  match v with
  | PNone => txt "None"
  | PBool true => txt "True"
  | PBool false => txt "False"
  | PInt z => decimal z
  | PFloat f => float_repr f
  | PStr s => repr_str s
  | PList l => txt "[" ++ join (txt ", ") (map py_repr l) ++ txt "]"
  | PDict d =>
      txt "{" ++
      join (txt ", ")
        (map (fun kv => repr_str (fst kv) ++ txt ": " ++ py_repr (snd kv)) d)
      ++ txt "}"
  end.

(** [str(v)] *)
Definition py_str (v : pyval) : pystr :=
  match v with
  | PStr s => s
  | _ => py_repr v
  end.

End Repr.

(** ** Regular expressions

    The patterns of the source use character classes, concatenation,
    alternation, greedy repetition of a class and one capturing group.  The
    matcher is the backtracking one of [re]: alternatives in order, the
    longest repetition first, the leftmost start position wins. *)
Inductive regex :=
| Eps
| Cls (p : N -> bool)
| Cat (r1 r2 : regex)
| Alt (r1 r2 : regex)
| Many (p : N -> bool)
| Grp (r : regex).

(** [match_here r s g k]: match [r] at the front of [s], then continue with
    [k] on the rest; [g] is the text of group 1 so far. *)
Fixpoint match_here {A} (r : regex) (s : pystr) (g : option pystr)
    (k : pystr -> option pystr -> option A) : option A :=
  match r with
  | Eps => k s g
  | Cls p =>
      match s with
      | c :: s' => if p c then k s' g else None
      | [] => None
      end
  | Cat r1 r2 => match_here r1 s g (fun s' g' => match_here r2 s' g' k)
  | Alt r1 r2 =>
      match match_here r1 s g k with
      | Some m => Some m
      | None => match_here r2 s g k
      end
  | Many p =>
      (fix many (s : pystr) : option A :=
         match s with
         | c :: s' =>
             if p c
             then match many s' with Some m => Some m | None => k s g end
             else k s g
         | [] => k [] g
         end) s
  | Grp r1 =>
      match_here r1 s g
        (fun s' _ => k s' (Some (take (length s - length s') s)))
  end.

(** [re.search(r, s)], reduced to what the callers read: [match.group(1)]. *)
Fixpoint re_search (r : regex) (s : pystr) : option (option pystr) :=
  match match_here r s None (fun _ g => Some g) with
  | Some g => Some g
  | None =>
      match s with
      | [] => None
      | _ :: s' => re_search r s'
      end
  end.

Definition chr (c : N) : regex := Cls (N.eqb c).
Definition one_or_more (p : N -> bool) : regex := Cat (Cls p) (Many p).

Fixpoint lit (s : pystr) : regex :=
  match s with
  | [] => Eps
  | c :: s' => Cat (chr c) (lit s')
  end.

Fixpoint lstrip (s : pystr) : pystr :=
  match s with
  | c :: s' => if is_space c then lstrip s' else s
  | [] => []
  end.

Definition ends_with (p s : pystr) : bool := starts_with (rev p) (rev s).

(** [s.strip()] *)
Definition strip (s : pystr) : pystr := rev (lstrip (rev (lstrip s))).

(** The text of group 1 of a match.  In each pattern below every match
    passes through the group. *)
Definition group1 (g : option pystr) : pystr := default [] g.

(** Every match of the pattern passes through its group. *)
Fixpoint sets_group (r : regex) : bool :=
  match r with
  | Grp _ => true
  | Cat r1 r2 => sets_group r1 || sets_group r2
  | Alt r1 r2 => sets_group r1 && sets_group r2
  | _ => false
  end.

(** ** Exceptions *)

Inductive exn :=
| AttributeError
| TypeError
| ValueError
| FileNotFoundError
| UnicodeEncodeError
| CsvError.

Inductive res (A : Type) :=
| Ok (a : A)
| Raise (e : exn).
Arguments Ok {A} a.
Arguments Raise {A} e.

Definition bind {A B} (m : res A) (f : A -> res B) : res B :=
  match m with
  | Ok a => f a
  | Raise e => Raise e
  end.

Notation "'do' x <- m ; f" := (bind m (fun x => f))
  (at level 10, x name, m at level 100, f at level 200,
   format "'[v' 'do'  x  <-  m ; '/' f ']'").

(** [v.get(k, default)]: only a dict has the method. *)
Definition py_get (v : pyval) (k : pystr) (default : pyval) : res pyval :=
  match v with
  | PDict d => Ok (dict_get d k default)
  | _ => Raise AttributeError
  end.

(** The elements a [for] loop over [v] visits. *)
Definition py_iter (v : pyval) : res (list pyval) :=
  match v with
  | PList l => Ok l
  | PDict d => Ok (map (fun kv => PStr (fst kv)) d)
  | PStr s => Ok (map (fun c => PStr [c]) s)
  | _ => Raise TypeError
  end.

(** [v == name] for a string [name]. *)
Definition eq_str (v : pyval) (name : pystr) : bool :=
  match v with
  | PStr s => bool_decide (s = name)
  | _ => false
  end.

Section Extractors.
Variable db : unicode_db.

(** *** Attribute normalizer ([extract_attribute]) *)

(** [str(v.get("value", v) if isinstance(v, dict) else v)] *)
Definition element_str (v : pyval) : pystr :=
  match v with
  | PDict d => py_str db (dict_get d (txt "value") v)
  | _ => py_str db v
  end.

(** The [return] of a matched item, from its [value]. *)
Definition normalize (value : pyval) : pystr :=
  match value with
  | PList l => join (txt ", ") (map element_str l)
  | PNone => []
  | _ => py_str db value
  end.

(** The inner loop: [Some] is a [return], [None] falls out of the loop. *)
Fixpoint scan_items (items : list pyval) (name : pystr) : res (option pystr) :=
  match items with
  | [] => Ok None
  | item :: rest =>
      do label <- py_get item (txt "name") PNone;
      if eq_str label name
      then do value <- py_get item (txt "value") PNone;
           Ok (Some (normalize value))
      else scan_items rest name
  end.

Fixpoint extract_attribute (items : pyval) (possible_names : list pystr)
    : res pystr :=
  match possible_names with
  | [] => Ok []
  | name :: more =>
      do its <- py_iter items;
      do found <- scan_items its name;
      match found with
      | Some s => Ok s
      | None => extract_attribute items more
      end
  end.

(** *** Text extractors *)

(** [(\d\+(?:kk|1|2|3))] under [re.IGNORECASE]: the letter matches whatever
    lower-cases to it, the digits and the plus sign have no case. *)
Definition ichr (c : N) : regex :=
  Cls (fun x => sre_lower db x =? sre_lower db c).

Definition rooms_re : regex :=
  Grp (Cat (Cls (is_digit db))
        (Cat (chr 0x2B)
           (Alt (Cat (ichr 0x6B) (ichr 0x6B))
              (Alt (chr 0x31) (Alt (chr 0x32) (chr 0x33)))))).

Definition extract_rooms_from_name (name : pyval) : pystr :=
  match re_search rooms_re (py_str db name) with
  | Some g => group1 g
  | None =>
      if contains (txt "atypick") (py_lower db (py_str db name))
      then txt "atypicky"
      else []
  end.

(** [(\d+)\s*m[²2]] *)
Definition size_re : regex :=
  Cat (Grp (one_or_more (is_digit db)))
    (Cat (Many is_space)
       (Cat (chr 0x6D) (Cls (fun c => (c =? 0xB2) || (c =? 0x32))))).

Definition extract_size_from_name (name : pyval) : pystr :=
  match re_search size_re (py_str db name) with
  | Some g => group1 g
  | None => []
  end.

(** [Praha\s+(\d+)] *)
Definition district_re : regex :=
  Cat (lit (txt "Praha"))
    (Cat (one_or_more is_space) (Grp (one_or_more (is_digit db)))).

Definition parse_district (locality_text : pyval) : pystr :=
  match re_search district_re (py_str db locality_text) with
  | Some g => txt "Praha " ++ group1 g
  | None => []
  end.

(** [Praha\s+\d+\s*-\s*(.+)]; the dot is any character but a line feed. *)
Definition neighborhood_re : regex :=
  Cat (lit (txt "Praha"))
    (Cat (one_or_more is_space)
       (Cat (one_or_more (is_digit db))
          (Cat (Many is_space)
             (Cat (chr 0x2D)
                (Cat (Many is_space)
                   (Grp (one_or_more (fun c => negb (c =? 10))))))))).

Definition parse_neighborhood (locality_text : pyval) : pystr :=
  match re_search neighborhood_re (py_str db locality_text) with
  | Some g => strip (group1 g)
  | None => []
  end.

End Extractors.


(** ** The module's constants *)

Definition ATTRIBUTE_MAP : list (pystr * list pystr) :=
  [ (txt "size_m2", [txt "Užitná ploch"; txt "Užitná plocha";
                     txt "Celková plocha"; txt "Plocha"; txt "Obytná plocha"]);
    (txt "floor", [txt "Podlaží"]);
    (txt "building_type", [txt "Stavba"; txt "Typ budovy"]);
    (txt "condition", [txt "Stav objektu"; txt "Stav"]);
    (txt "furnished", [txt "Vybavení"; txt "Vybaveno"]);
    (txt "elevator", [txt "Výtah"]);
    (txt "balcony", [txt "Balkón"; txt "Balkon"]);
    (txt "terrace", [txt "Terasa"]);
    (txt "energy_rating", [txt "Energetická náročnost budovy"; txt "PENB"]);
    (txt "ownership", [txt "Vlastnictví"]);
    (txt "parking", [txt "Parkování"]);
    (txt "cellar", [txt "Sklep"]);
    (txt "loggia", [txt "Lodžie"; txt "Lodžia"]);
    (txt "heating", [txt "Topení"]);
    (txt "apartment_type", [txt "Typ bytu"]);
    (txt "note_about_price", [txt "Poznámka k ceně"]) ].

Definition CSV_COLUMNS : list pystr :=
  map txt
    [ "scrape_date"; "hash_id"; "name"; "locality"; "district"; "neighborhood";
      "price_czk"; "size_m2"; "rooms"; "floor"; "building_type"; "condition";
      "furnished"; "elevator"; "balcony"; "terrace"; "energy_rating";
      "ownership"; "parking"; "cellar"; "loggia"; "heating"; "apartment_type";
      "note_about_price" ]%string.

Definition COMBINED : pystr := txt "sreality_combined.csv".

(** ** Delimited files

    A file is the list of its records, each the list of its fields: for a
    file the program finds, as [csv.reader] yields them; for a file it
    writes, as [csv.writer] takes them (what a later reader gets of those is
    [as_read] below).  Quoting, line terminators and the byte order mark
    are below this level. *)
Definition csv_file := list (list pystr).

(** A row of [csv.DictReader]: a column holds text, or [None] when the
    record ended before it; fields beyond the header are collected under the
    key [None]. *)
Record row := {
  named : list (pystr * option pystr);
  extras : option (list pystr)
}.

Fixpoint zip_fields (fieldnames fields : list pystr)
    (d : list (pystr * option pystr)) : list (pystr * option pystr) :=
  match fieldnames, fields with
  | k :: ks, v :: vs => zip_fields ks vs (dict_set d k (Some v))
  | _, _ => d
  end.

Fixpoint fill_missing (keys : list pystr) (d : list (pystr * option pystr))
    : list (pystr * option pystr) :=
  match keys with
  | [] => d
  | k :: ks => fill_missing ks (dict_set d k None)
  end.

Definition dict_reader_row (fieldnames fields : list pystr) : row :=
  let d := zip_fields fieldnames fields [] in
  let lf := length fieldnames in
  let lr := length fields in
  if (lf <? lr)%nat then {| named := d; extras := Some (drop lf fields) |}
  else {| named := fill_missing (drop lr fieldnames) d; extras := None |}.

(** The rows of [csv.DictReader(f)]: the first record names the columns, and
    empty records are passed over. *)
Definition dict_reader (f : csv_file) : list row :=
  match f with
  | [] => []
  | fieldnames :: records =>
      map (dict_reader_row fieldnames)
        (filter (fun r => r <> []) records)
  end.

(** [row.get(k, default)]: the text, or [None] for a cut-off record. *)
Definition row_get (r : row) (k default : pystr) : option pystr :=
  dict_get (named r) k (Some default).

(** The text layer of a file opened with [encoding="utf-8-sig"]: a line
    that holds a lone surrogate (U+D800..U+DFFF, which [response.json()] can
    deliver from an escape) cannot be encoded; the write of that line raises
    [UnicodeEncodeError] and nothing of the line reaches the file. *)
Definition is_surrogate (c : N) : bool := (0xD800 <=? c) && (c <=? 0xDFFF).

Definition encodable (s : pystr) : bool :=
  forallb (fun c => negb (is_surrogate c)) s.

Definition encode_fields (fields : list pystr) : res (list pystr) :=
  if forallb encodable fields then Ok fields else Raise UnicodeEncodeError.

(** What [csv.DictWriter(f, fieldnames=CSV_COLUMNS).writerow] hands to the
    writer: [ValueError] for a key that is no column, else one field per
    column, [''] for an absent key.  The rows of a merge were decoded from
    files, so their text holds no lone surrogate and the encoding of the
    line cannot fail. *)
Definition row_fields (r : row) : res (list pystr) :=
  if bool_decide (extras r = None)
     && forallb (fun k => bool_decide (k ∈ CSV_COLUMNS)) (map fst (named r))
  then Ok (map (fun c => default [] (row_get r c [])) CSV_COLUMNS)
  else Raise ValueError.

Fixpoint write_rows {R} (fields_of : R -> res (list pystr)) (listings : list R)
    (out : csv_file) : csv_file * res unit :=
  match listings with
  | [] => (out, Ok tt)
  | l :: rest =>
      match fields_of l with
      | Ok fs => write_rows fields_of rest (out ++ [fs])
      | Raise e => (out, Raise e)
      end
  end.

(** The [data/] directory: its entries in [os.listdir] order. *)
Abbreviation directory := (list (pystr * csv_file)).

Definition OUTPUT_DIR : pystr := txt "data".

(** [os.path.join(dir, f)] with the separator [/]: an absolute [f] stands
    alone. *)
Definition path_join (dir f : pystr) : pystr :=
  if starts_with (txt "/") f then f else dir ++ txt "/" ++ f.

(** A character a file name can hold: not NUL (on which [open] raises
    [ValueError]), not the separator and no surrogate that the file system
    encoding refuses (it takes U+DC80..U+DCFF, the escapes of undecodable
    bytes). *)
Definition name_char (c : N) : bool :=
  negb (c =? 0) && negb (c =? 0x2F)
  && (negb (is_surrogate c) || ((0xDC80 <=? c) && (c <=? 0xDCFF))).

(** The bytes of a character in a file name (UTF-8; an escape of an
    undecodable byte is that one byte). *)
Definition name_bytes (c : N) : N :=
  if c <? 0x80 then 1
  else if c <? 0x800 then 2
  else if is_surrogate c then 1
  else if c <? 0x10000 then 3
  else 4.

(** A name that, joined to [OUTPUT_DIR], is the path of an entry of the
    directory: not empty, not [.] or [..], made of [name_char]s and at most
    255 bytes long, the limit of the usual file systems.  Any other name
    leads out of the entries of [data/]: into a sub-directory, to a path
    outside, or to an exception of [open].  The file system is taken to
    accept every entry name. *)
Definition entry_name (f : pystr) : bool :=
  match f with
  | [] => false
  | _ :: _ =>
      forallb name_char f
      && (fold_right (fun c n => name_bytes c + n) 0 f <=? 255)
      && negb (bool_decide (f = txt ".")) && negb (bool_decide (f = txt ".."))
  end.

Fixpoint dir_put (d : directory) (name : pystr) (f : csv_file) : directory :=
  match d with
  | [] => [(name, f)]
  | (n, g) :: rest =>
      if decide (n = name) then (n, f) :: rest else (n, g) :: dir_put rest name f
  end.

(** ** Deduplication *)

(** The inner loop of [load_existing_ids]. *)
Fixpoint collect_ids (rows : list row) (existing_ids : gset pystr) : gset pystr :=
  match rows with
  | [] => existing_ids
  | r :: rest =>
      match row_get r (txt "hash_id") [] with
      | Some (c :: s) => collect_ids rest ({[ c :: s ]} ∪ existing_ids)
      | _ => collect_ids rest existing_ids
      end
  end.

Definition is_data_file (filename : pystr) : bool :=
  starts_with (txt "sreality_") filename && ends_with (txt ".csv") filename.

Fixpoint scan_directory (d : directory) (existing_ids : gset pystr) : gset pystr :=
  match d with
  | [] => existing_ids
  | (filename, f) :: rest =>
      if is_data_file filename
      then scan_directory rest (collect_ids (dict_reader f) existing_ids)
      else scan_directory rest existing_ids
  end.

(** [None] is a missing [data/] directory. *)
Definition load_existing_ids (d : option directory) : gset pystr :=
  match d with
  | None => ∅
  | Some entries => scan_directory entries ∅
  end.

(** The inner loop of [merge_data_files] over the rows of one file. *)
Fixpoint merge_rows (rows all_rows : list row) (seen_ids : gset (option pystr))
    : list row * gset (option pystr) :=
  match rows with
  | [] => (all_rows, seen_ids)
  | r :: rest =>
      let hash_id := row_get r (txt "hash_id") [] in
      if decide (hash_id ∈ seen_ids)
      then merge_rows rest all_rows seen_ids
      else merge_rows rest (all_rows ++ [r]) ({[ hash_id ]} ∪ seen_ids)
  end.

(** The outer loop; [counts] is what it prints per file. *)
Fixpoint merge_files (files : list (pystr * csv_file)) (all_rows : list row)
    (seen_ids : gset (option pystr)) (counts : list (pystr * nat))
    : list row * gset (option pystr) * list (pystr * nat) :=
  match files with
  | [] => (all_rows, seen_ids, counts)
  | (filename, f) :: rest =>
      let rows := dict_reader f in
      let '(all_rows', seen_ids') := merge_rows rows all_rows seen_ids in
      merge_files rest all_rows' seen_ids' (counts ++ [(filename, length rows)])
  end.

(** ** The outside world *)

(** The two kinds of GET the program issues: a result page, and the detail
    of one listing (the URL carries [str(hash_id)]). *)
Inductive request :=
| ListPage (page : nat)
| Detail (hash_id : pystr).

(** [RequestFailed] is any [requests.exceptions.RequestException]: no
    connection, a timeout, an error status, a body that is not JSON. *)
Inductive http_result :=
| RequestFailed
| Body (data : pyval).

(** The environment of one run: the answer to the n-th request, the date
    [datetime.now()] shows once n requests were made, and the time stamp at
    the start. *)
Record world := {
  respond : nat -> request -> http_result;
  date_at : nat -> pystr;
  stamp : pystr
}.

(** What a run changes: the requests sent so far and the [data/] directory
    ([None] while it does not exist). *)
Record state := {
  sent : list request;
  disk : option directory
}.

(** Programs with effects: a state that survives an exception. *)
Definition io (A : Type) := state -> state * res A.

Definition io_ret {A} (a : A) : io A := fun st => (st, Ok a).

Definition io_bind {A B} (m : io A) (f : A -> io B) : io B :=
  fun st =>
    match m st with
    | (st', Ok a) => f a st'
    | (st', Raise e) => (st', Raise e)
    end.

Definition lift {A} (r : res A) : io A := fun st => (st, r).

Notation "'run' x <- m ; f" := (io_bind m (fun x => f))
  (at level 10, x name, m at level 100, f at level 200,
   format "'[v' 'run'  x  <-  m ; '/' f ']'").

(** [open(filepath, mode)] and the writes of [save_to_csv]; the rows written
    before an exception stay in the file.  [fields_of l] is
    [writer.writerow(l)] as the file sees it: the fields of the line
    written, or the exception that [DictWriter] raises for a key outside the
    columns or the text layer for text it cannot encode. *)
Definition save_to_csv {R} (fields_of : R -> res (list pystr))
    (listings : list R) (filename : pystr) (append : bool) : io unit :=
  fun st =>
    match disk st with
    | None => (st, Raise FileNotFoundError)
    | Some d =>
        let old := dict_find d filename in
        let write_header :=
          negb append || match old with Some _ => false | None => true end in
        let start := if append then default [] old else [] in
        let '(out, r) :=
          write_rows fields_of listings
            (if write_header then start ++ [CSV_COLUMNS] else start) in
        ({| sent := sent st; disk := Some (dir_put d filename out) |}, r)
    end.

(** What [merge_data_files] prints: nothing to merge, or the record count of
    each file and the number of unique listings. *)
Inductive merge_report :=
| NoDataFiles
| Merged (counts : list (pystr * nat)) (unique : nat).

Definition merge_inputs (d : directory) : list (pystr * csv_file) :=
  filter (fun e => is_data_file (fst e) = true /\ fst e <> COMBINED) d.

Definition merge_data_files : io merge_report :=
  fun st =>
    match disk st with
    | None => (st, Raise FileNotFoundError)
    | Some d =>
        match merge_inputs d with
        | [] => (st, Ok NoDataFiles)
        | csv_files =>
            let '(all_rows, _, counts) := merge_files csv_files [] ∅ [] in
            (run _ <- save_to_csv row_fields all_rows COMBINED false;
             io_ret (Merged counts (length all_rows))) st
        end
    end.

Section Scraper.
Variable db : unicode_db.
Variable w : world.

(** *** Listing fetcher *)

Definition http_get (req : request) : io http_result :=
  fun st =>
    ({| sent := sent st ++ [req]; disk := disk st |},
     Ok (respond w (length (sent st)) req)).

Definition today : io pystr :=
  fun st => (st, Ok (date_at w (length (sent st)))).

(** The loop of [get_listing_ids] over the estates of a page. *)
Fixpoint collect_listings (estates : list pyval)
    (listings : list (pyval * pydict)) : res (list (pyval * pydict)) :=
  match estates with
  | [] => Ok listings
  | estate :: rest =>
      do hash_id <- py_get estate (txt "hash_id") PNone;
      if truthy hash_id
      then
        do name <- py_get estate (txt "name") (PStr []);
        do locality <- py_get estate (txt "locality") (PStr []);
        do price <- py_get estate (txt "price") PNone;
        do price_czk <- py_get estate (txt "price_czk") (PDict []);
        do value_raw <- py_get price_czk (txt "value_raw") PNone;
        let basic_info :=
          [ (txt "name", name); (txt "locality", locality);
            (txt "price", price); (txt "price_czk", value_raw) ] in
        collect_listings rest (listings ++ [(hash_id, basic_info)])
      else collect_listings rest listings
  end.

Definition parse_listings (data : pyval) : res (list (pyval * pydict)) :=
  do embedded <- py_get data (txt "_embedded") (PDict []);
  do estates <- py_get embedded (txt "estates") (PList []);
  do its <- py_iter estates;
  collect_listings its [].

Definition get_listing_ids (page : nat) : io (list (pyval * pydict)) :=
  run response <- http_get (ListPage page);
  match response with
  | RequestFailed => io_ret []
  | Body data => lift (parse_listings data)
  end.

(** The loop of [get_listing_detail] over [ATTRIBUTE_MAP]. *)
Fixpoint fill_detail (items : pyval) (columns : list (pystr * list pystr))
    (detail : list (pystr * pystr)) : res (list (pystr * pystr)) :=
  match columns with
  | [] => Ok detail
  | (csv_col, possible_names) :: rest =>
      do s <- extract_attribute db items possible_names;
      fill_detail items rest (dict_set detail csv_col s)
  end.

Definition parse_detail (data : pyval) : res (list (pystr * pystr)) :=
  do items <- py_get data (txt "items") (PList []);
  fill_detail items ATTRIBUTE_MAP [].

Definition get_listing_detail (hash_id : pyval) : io (list (pystr * pystr)) :=
  run response <- http_get (Detail (py_str db hash_id));
  match response with
  | RequestFailed => io_ret []
  | Body data => lift (parse_detail data)
  end.

(** *** One record *)

(** The loop that copies the remaining columns of [detail]. *)
Fixpoint copy_detail (columns : list (pystr * list pystr))
    (detail : list (pystr * pystr)) (listing : pydict) : pydict :=
  match columns with
  | [] => listing
  | (csv_col, _) :: rest =>
      copy_detail rest detail
        (if dict_has listing csv_col then listing
         else dict_set listing csv_col (PStr (dict_get detail csv_col [])))
  end.

(** The body of the detail loop after a successful fetch. *)
Definition make_listing (date : pystr) (hash_id : pyval) (basic_info : pydict)
    (detail : list (pystr * pystr)) : pydict :=
  let name := dict_get basic_info (txt "name") (PStr []) in
  let locality := dict_get basic_info (txt "locality") (PStr []) in
  let listing :=
    [ (txt "scrape_date", PStr date);
      (txt "hash_id", hash_id);
      (txt "name", name);
      (txt "locality", locality);
      (txt "district", PStr (parse_district db locality));
      (txt "neighborhood", PStr (parse_neighborhood db locality));
      (txt "price_czk",
       py_or (dict_get basic_info (txt "price") PNone)
             (dict_get basic_info (txt "price_czk") PNone));
      (txt "rooms", PStr (extract_rooms_from_name db name)) ] in
  let api_size := dict_get detail (txt "size_m2") [] in
  let listing :=
    dict_set listing (txt "size_m2")
      (PStr (match api_size with
             | _ :: _ => api_size
             | [] => extract_size_from_name db name
             end)) in
  copy_detail ATTRIBUTE_MAP detail listing.

(** [DictWriter.writerow] on a record: the writer leaves [None] empty and
    takes [str] of anything else. *)
Definition cell_text (v : pyval) : pystr :=
  match v with
  | PNone => []
  | _ => py_str db v
  end.

(** [writer.writerow(listing)]: the check of the keys, the fields, then the
    encoding of the line. *)
Definition listing_fields (listing : pydict) : res (list pystr) :=
  if forallb (fun k => bool_decide (k ∈ CSV_COLUMNS)) (map fst listing)
  then encode_fields
         (map (fun c => cell_text (dict_get listing c (PStr []))) CSV_COLUMNS)
  else Raise ValueError.

(** *** The run *)

(** The paging loop; [count] pages are left, [page] is the next one. *)
Fixpoint page_loop (count page : nat) (all_ids : list (pyval * pydict))
    : io (list (pyval * pydict)) :=
  match count with
  | O => io_ret all_ids
  | S n =>
      run listings <- get_listing_ids page;
      match listings with
      | [] => io_ret all_ids
      | _ :: _ => page_loop n (S page) (all_ids ++ listings)
      end
  end.

(** [[(h, b) for h, b in all_ids if str(h) not in existing_ids]] *)
Fixpoint keep_new (existing_ids : gset pystr) (all_ids : list (pyval * pydict))
    : list (pyval * pydict) :=
  match all_ids with
  | [] => []
  | (h, b) :: rest =>
      if decide (py_str db h ∈ existing_ids)
      then keep_new existing_ids rest
      else (h, b) :: keep_new existing_ids rest
  end.

(** The filter step, with its guard on an empty set. *)
Definition filter_known (existing_ids : gset pystr)
    (all_ids : list (pyval * pydict)) : list (pyval * pydict) :=
  if decide (existing_ids = ∅) then all_ids else keep_new existing_ids all_ids.

(** The detail loop. *)
Fixpoint detail_loop (todo : list (pyval * pydict)) (all_listings : list pydict)
    : io (list pydict) :=
  match todo with
  | [] => io_ret all_listings
  | (hash_id, basic_info) :: rest =>
      run detail <- get_listing_detail hash_id;
      match detail with
      | [] => detail_loop rest all_listings
      | _ :: _ =>
          run date <- today;
          detail_loop rest
            (all_listings ++ [make_listing date hash_id basic_info detail])
      end
  end.

Definition makedirs : io unit :=
  fun st =>
    ({| sent := sent st;
        disk := Some (default [] (disk st)) |}, Ok tt).

Definition read_existing_ids : io (gset pystr) :=
  fun st => (st, Ok (load_existing_ids (disk st))).

(** How a run ends, by the message it prints last.  [SaveOutside] is a run
    that reached [save_to_csv] with a path that names no entry of [data/]:
    how the open and the writes end there is up to the file system outside
    the directory, and the model follows the run no further. *)
Inductive scrape_report :=
| NoListingsFound
| NoNewListings
| Saved (filename : pystr) (records : nat)
| SaveOutside (path : pystr) (records : nat).

(** [output_file] is joined to [OUTPUT_DIR] as a path; the file is an entry
    of [data/] exactly when the name is an [entry_name]. *)
Definition scrape_sreality (max_pages : Z) (output_file : option pystr)
    : io scrape_report :=
  run _ <- makedirs;
  let output_file :=
    match output_file with
    | None => txt "sreality_prague_rent_" ++ stamp w ++ txt ".csv"
    | Some f => f
    end in
  run all_ids <- page_loop (Z.to_nat max_pages) 1 [];
  match all_ids with
  | [] => io_ret NoListingsFound
  | _ :: _ =>
      run existing_ids <- read_existing_ids;
      match filter_known existing_ids all_ids with
      | [] => io_ret NoNewListings
      | todo =>
          run all_listings <- detail_loop todo [];
          if entry_name output_file
          then
            run _ <- save_to_csv listing_fields all_listings output_file false;
            io_ret (Saved output_file (length all_listings))
          else
            io_ret (SaveOutside (path_join OUTPUT_DIR output_file)
                      (length all_listings))
      end
  end.

End Scraper.

(** ** Notions of the specification *)

(** The label of an attribute item is exactly the candidate [name]. *)
Definition has_label (name : pystr) (item : pydict) : Prop :=
  dict_find item (txt "name") = Some (PStr name).

(** The raw value of an attribute item ([None] when it has none). *)
Definition value_of (item : pydict) : pyval := dict_get item (txt "value") PNone.

(** [item] is the first match: some candidate [c] labels it, no earlier
    candidate labels any item, and no earlier item carries [c]. *)
Definition first_match (items : list pydict) (names : list pystr)
    (item : pydict) : Prop :=
  exists n1 c n2 i1 i2,
    names = n1 ++ c :: n2 /\ items = i1 ++ item :: i2 /\ has_label c item /\
    (forall c' it, c' ∈ n1 -> it ∈ items -> ~ has_label c' it) /\
    (forall it, it ∈ i1 -> ~ has_label c it).

Definition no_match (items : list pydict) (names : list pystr) : Prop :=
  forall c it, c ∈ names -> it ∈ items -> ~ has_label c it.

(** The string form of one element of a list value, in the words of the
    specification: an object gives its ["value"] sub-field, anything else
    itself.  An object without the sub-field falls back on itself, as
    [v.get("value", v)] does. *)
Inductive coerces (db : unicode_db) : pyval -> pystr -> Prop :=
| coerce_object d x :
    dict_find d (txt "value") = Some x -> coerces db (PDict d) (py_str db x)
| coerce_bare_object d :
    dict_find d (txt "value") = None ->
    coerces db (PDict d) (py_str db (PDict d))
| coerce_plain v :
    (forall d, v <> PDict d) -> coerces db v (py_str db v).

(** The normalized string value of an attribute value, in the words of the
    contract: nothing for a missing value, the [", "]-join of the coerced
    elements for a sequence, and the string form of a scalar, which is a
    text as it stands, a whole number in decimal digits, a truth value as
    [True] or [False] and any other number as [repr] prints it.  An object
    (which the data model does not foresee as a value) gives its [repr]. *)
Inductive normalized (db : unicode_db) : pyval -> pystr -> Prop :=
| normalized_null : normalized db PNone (txt "")
| normalized_sequence vs strs :
    Forall2 (coerces db) vs strs ->
    normalized db (PList vs) (join (txt ", ") strs)
| normalized_text s : normalized db (PStr s) s
| normalized_int z : normalized db (PInt z) (decimal z)
| normalized_bool b :
    normalized db (PBool b) (if b then txt "True" else txt "False")
| normalized_float f : normalized db (PFloat f) (float_repr f)
| normalized_object d : normalized db (PDict d) (py_repr db (PDict d)).

(** The identifier [merge_data_files] reads off a row: the text of the
    [hash_id] column, [''] when the file has no such column, [None] when the
    record ended before it. *)
Definition row_id (r : row) : option pystr := row_get r (txt "hash_id") [].

(** All rows of the source files, in file order and then in row order. *)
Definition rows_in_order (files : list (pystr * csv_file)) : list row :=
  concat (map (fun e => dict_reader e.2) files).

(** Keep a row exactly when no earlier row has its identifier; [earlier]
    are the rows already passed. *)
Fixpoint first_per_id (earlier rows : list row) : list row :=
  match rows with
  | [] => []
  | r :: rest =>
      if decide (row_id r ∈ row_id <$> earlier)
      then first_per_id (earlier ++ [r]) rest
      else r :: first_per_id (earlier ++ [r]) rest
  end.

(** A row without an identifier: an empty or absent [hash_id]. *)
Definition identifier_less (r : row) : bool :=
  match row_id r with
  | Some (_ :: _) => false
  | _ => true
  end.

(** The pair [get_listing_ids] builds from an estate: the identifier and the
    four basic fields. *)
Definition from_estate (estate : pydict) (entry : pyval * pydict) : Prop :=
  exists p,
    dict_get estate (txt "price_czk") (PDict []) = PDict p /\
    truthy (dict_get estate (txt "hash_id") PNone) = true /\
    entry =
      (dict_get estate (txt "hash_id") PNone,
       [ (txt "name", dict_get estate (txt "name") (PStr []));
         (txt "locality", dict_get estate (txt "locality") (PStr []));
         (txt "price", dict_get estate (txt "price") PNone);
         (txt "price_czk", dict_get p (txt "value_raw") PNone) ]).

(** The fallback price of an estate: [price_czk.value_raw]. *)
Definition value_raw_of (estate : pydict) : pyval :=
  match dict_get estate (txt "price_czk") (PDict []) with
  | PDict p => dict_get p (txt "value_raw") PNone
  | _ => PNone
  end.


(** The fields [DictWriter] writes for a record. *)
Definition written_fields (db : unicode_db) (listing : pydict) : list pystr :=
  map (fun c => cell_text db (dict_get listing c (PStr []))) CSV_COLUMNS.

(** A record whose fields the file can take: none holds a lone surrogate. *)
Definition storable (db : unicode_db) (listing : pydict) : Prop :=
  forallb encodable (written_fields db listing) = true.

(** A record the detail loop builds. *)
Definition made_record (db : unicode_db) (listing : pydict) : Prop :=
  exists date hash_id basic_info detail,
    detail <> [] /\ listing = make_listing db date hash_id basic_info detail.

(** The state after one more request. *)
Definition after_request (st : state) (req : request) : state :=
  {| sent := sent st ++ [req]; disk := disk st |}.

(** ** Sample data *)

Definition lift_item : pydict :=
  [ (txt "name", PStr (txt "Výtah")); (txt "value", PBool true) ].

Definition furnishing_item : pydict :=
  [ (txt "name", PStr (txt "Vybavení"));
    (txt "value",
     PList [ PDict [ (txt "name", PStr (txt "Lednice"));
                     (txt "value", PStr (txt "Lednice")) ];
             PStr (txt "Pračka");
             PInt 3 ]) ].

(** The detail answer for a listing with a lift and furnishing. *)
Definition sample_detail_body : pyval :=
  PDict [ (txt "items", PList [PDict lift_item; PDict furnishing_item]) ].

(** An estate with a zero price and a raw price beside it. *)
Definition estate_zero_price : pydict :=
  [ (txt "hash_id", PInt 3141592);
    (txt "name", PStr (txt "Pronájem bytu 1+1 38 m²"));
    (txt "locality", PStr (txt "Praha 10 - Vršovice"));
    (txt "price", PInt 0);
    (txt "price_czk", PDict [ (txt "value_raw", PInt 18500) ]) ].

Definition estate_known : pydict :=
  [ (txt "hash_id", PInt 777);
    (txt "name", PStr (txt "Pronájem bytu 3+1 80 m²"));
    (txt "locality", PStr (txt "Praha 2 - Vinohrady"));
    (txt "price", PInt 32000) ].

(** An estate of a result page that carries no price at all. *)
Definition estate_without_price : pydict :=
  [ (txt "hash_id", PInt 2847161);
    (txt "name", PStr (txt "Pronájem bytu 2+kk 55 m²"));
    (txt "locality", PStr (txt "Praha 5 - Smíchov")) ].

Definition basic_info_without_price : pydict :=
  [ (txt "name", PStr (txt "Pronájem bytu 2+kk 55 m²"));
    (txt "locality", PStr (txt "Praha 5 - Smíchov"));
    (txt "price", PNone);
    (txt "price_czk", PNone) ].


Definition sample_page : pyval :=
  PDict [ (txt "_embedded",
           PDict [ (txt "estates",
                    PList [ PDict estate_zero_price;
                            PDict estate_known;
                            PDict estate_without_price ]) ]) ].

Definition empty_page : pyval :=
  PDict [ (txt "_embedded", PDict [ (txt "estates", PList []) ]) ].

(** A world with one page of three estates, of which one detail request
    succeeds and the other fails. *)
Definition sample_world : world :=
  {| respond := fun _ req =>
       match req with
       | ListPage 1 => Body sample_page
       | ListPage _ => Body empty_page
       | Detail id =>
           if decide (id = txt "3141592") then Body sample_detail_body
           else RequestFailed
       end;
     date_at := fun _ => txt "2024-05-01";
     stamp := txt "20240501_120000" |}.

(** A directory with one earlier scrape that knows listing 777. *)
Definition sample_state : state :=
  {| sent := [];
     disk := Some [ (txt "sreality_prague_rent_20240430_120000.csv",
                     [ [txt "hash_id"; txt "name"];
                       [txt "777"; txt "Pronájem bytu 3+1 80 m²"] ]) ] |}.

(** A world whose page holds a listing with a lone surrogate in its name,
    after one that can be written. *)
Definition surrogate_world : world :=
  {| respond := fun _ req =>
       match req with
       | ListPage 1 =>
           Body (PDict
                   [ (txt "_embedded",
                      PDict
                        [ (txt "estates",
                           PList
                             [ PDict [ (txt "hash_id", PInt 6);
                                       (txt "name", PStr (txt "good")) ];
                               PDict [ (txt "hash_id", PInt 5);
                                       (txt "name",
                                        PStr (txt "bad " ++ [0xD800])) ] ]) ]) ])
       | ListPage _ => Body empty_page
       | Detail _ => Body sample_detail_body
       end;
     date_at := fun _ => txt "2024-05-01";
     stamp := txt "20240501_120000" |}.

(** A world without network: every request fails. *)
Definition offline : world :=
  {| respond := fun _ _ => RequestFailed;
     date_at := fun _ => txt "2024-05-01";
     stamp := txt "20240501_120000" |}.

Definition fresh_state : state := {| sent := []; disk := None |}.

Definition file_ab : csv_file :=
  [ [txt "hash_id"; txt "name"];
    [txt "A"; txt "Byt A"];
    [txt "B"; txt "Byt B, first file"] ].

Definition file_bc : csv_file :=
  [ [txt "hash_id"; txt "name"];
    [txt "B"; txt "Byt B, second file"];
    [txt "C"; txt "Byt C"] ].

Definition two_file_state : state :=
  {| sent := [];
     disk := Some [ (txt "sreality_1.csv", file_ab);
                    (txt "sreality_2.csv", file_bc) ] |}.

(** A file whose last record was cut off before the [hash_id] column. *)
Definition cut_off_file : csv_file :=
  [ [txt "scrape_date"; txt "hash_id"; txt "name"];
    [txt "2024-05-01"; txt ""; txt "Byt 2+kk"];
    [txt "2024-05-02"] ].

(** ** Proof automation *)

(** Go through the members of a list that is written out. *)
Ltac each_member H tac :=
  vm_compute in H;
  repeat (apply elem_of_cons in H as [-> | H]; [tac |]);
  by apply elem_of_nil in H.

(** ** What a pattern matches

    [matches r s g g']: the text [s] is in the language of [r]; [g] is the
    text of group 1 before the match and [g'] after it. *)
Inductive matches : regex -> pystr -> option pystr -> option pystr -> Prop :=
| matches_eps g : matches Eps [] g g
| matches_cls (p : N -> bool) c g : p c = true -> matches (Cls p) [c] g g
| matches_cat r1 r2 s1 s2 g g1 g2 :
    matches r1 s1 g g1 -> matches r2 s2 g1 g2 ->
    matches (Cat r1 r2) (s1 ++ s2) g g2
| matches_alt_l r1 r2 s g g' :
    matches r1 s g g' -> matches (Alt r1 r2) s g g'
| matches_alt_r r1 r2 s g g' :
    matches r2 s g g' -> matches (Alt r1 r2) s g g'
| matches_many (p : N -> bool) s g :
    Forall (fun c => p c = true) s -> matches (Many p) s g g
| matches_grp r s g g' :
    matches r s g g' -> matches (Grp r) s g (Some s).

(** Some part of [text] matches [r]. *)
Definition occurs (r : regex) (text : pystr) : Prop :=
  exists pre mid post g, text = pre ++ mid ++ post /\ matches r mid None g.

(** *** What the text extractors look for *)

(** A room count as [extract_rooms_from_name] accepts it: a digit, a plus
    sign, then [kk] in either case or one of 1, 2, 3. *)
Definition room_token (db : unicode_db) (t : pystr) : Prop :=
  exists d tail,
    t = d :: 0x2B :: tail /\ is_digit db d = true /\
    ((exists a b, tail = [a; b] /\ sre_lower db a = 0x6B /\ sre_lower db b = 0x6B)
     \/ tail = [0x31] \/ tail = [0x32] \/ tail = [0x33]).

Definition has_room_token (db : unicode_db) (text : pystr) : Prop :=
  exists pre t post, text = pre ++ t ++ post /\ room_token db t.

(** [ds] is a run of digits in [text] that is followed, after optional
    whitespace, by [m²] or [m2]. *)
Definition size_mark (db : unicode_db) (text ds : pystr) : Prop :=
  exists pre ws u post,
    text = pre ++ ds ++ ws ++ [0x6D; u] ++ post /\
    ds <> [] /\ Forall (fun c => is_digit db c = true) ds /\
    Forall (fun c => is_space c = true) ws /\ (u = 0xB2 \/ u = 0x32).

(** [text] names a district: [Praha], whitespace, the digits [ds]; [rest]
    is what follows the digits. *)
Definition district_mark (db : unicode_db) (text ds rest : pystr) : Prop :=
  exists pre ws,
    text = pre ++ txt "Praha" ++ ws ++ ds ++ rest /\
    ws <> [] /\ Forall (fun c => is_space c = true) ws /\
    ds <> [] /\ Forall (fun c => is_digit db c = true) ds.

(** The text does not go on with a digit. *)
Definition no_digit_ahead (db : unicode_db) (rest : pystr) : Prop :=
  match rest with
  | c :: _ => is_digit db c = false
  | [] => True
  end.

(** The text neither starts nor ends with whitespace. *)
Definition trimmed (s : pystr) : Prop :=
  (forall c, head s = Some c -> is_space c = false) /\
  (forall c, last s = Some c -> is_space c = false).

(** *** Sample data for the further properties *)

(** An item whose value is [null], before an item with a real value. *)
Definition condition_null_item : pydict :=
  [ (txt "name", PStr (txt "Stav objektu")); (txt "value", PNone) ].

Definition condition_item : pydict :=
  [ (txt "name", PStr (txt "Stav")); (txt "value", PStr (txt "Dobrý")) ].

(** *** Estates of a result page *)

(** The estate carries an identifier that counts as true. *)
Definition has_id (estate : pydict) : bool :=
  truthy (dict_get estate (txt "hash_id") PNone).

(** An estate [get_listing_ids] can read: when it has an identifier, its
    [price_czk] is absent or an object. *)
Definition readable (estate : pydict) : Prop :=
  has_id estate = true ->
  exists p, dict_get estate (txt "price_czk") (PDict []) = PDict p.

(** A value among the estates that makes the read fail: no object at all,
    or an identified estate whose [price_czk] is no object. *)
Definition unreadable (v : pyval) : Prop :=
  match v with
  | PDict estate =>
      has_id estate = true /\
      forall p, dict_get estate (txt "price_czk") (PDict []) <> PDict p
  | _ => True
  end.

(** The pair appended for a readable estate. *)
Definition entry_of (estate : pydict) : pyval * pydict :=
  (dict_get estate (txt "hash_id") PNone,
   [ (txt "name", dict_get estate (txt "name") (PStr []));
     (txt "locality", dict_get estate (txt "locality") (PStr []));
     (txt "price", dict_get estate (txt "price") PNone);
     (txt "price_czk", value_raw_of estate) ]).

(** An estate without identifier, and one whose [price_czk] is [null]. *)
Definition estate_without_id : pydict :=
  [ (txt "name", PStr (txt "Pronájem bytu 4+kk 101 m²"));
    (txt "price_czk", PNone) ].

Definition estate_null_price : pydict :=
  [ (txt "hash_id", PInt 999); (txt "price_czk", PNone) ].

Definition page_of (estates : list pyval) : pyval :=
  PDict [ (txt "_embedded", PDict [ (txt "estates", PList estates) ]) ].

(** The text [get_listing_detail] stores for a column: what
    [extract_attribute] returns for its candidate labels. *)
Definition attribute_text (db : unicode_db) (items : pyval)
    (possible_names : list pystr) : pystr :=
  match extract_attribute db items possible_names with
  | Ok s => s
  | Raise _ => []
  end.

(** *** Files *)

(** What [save_to_csv] finds or puts in the file before the rows: the old
    content when it appends to an existing file, the header otherwise. *)
Definition file_start (append : bool) (old : option csv_file) : csv_file :=
  match append, old with
  | true, Some f => f
  | _, _ => [CSV_COLUMNS]
  end.

(** The file of that name, if the directory and the file exist. *)
Definition file_at (disk : option directory) (filename : pystr)
    : option csv_file :=
  match disk with
  | Some d => dict_find d filename
  | None => None
  end.

(** A row that [DictWriter] refuses: a record of an older layout. *)
Definition old_layout_file : csv_file :=
  [ [txt "hash_id"; txt "rent"];
    [txt "Z"; txt "21000"] ].

Definition old_layout_state : state :=
  {| sent := [];
     disk := Some [ (txt "sreality_1.csv", file_ab);
                    (txt "sreality_0.csv", old_layout_file) ] |}.

(** A row [DictWriter] accepts: every key is a column and no field lies
    beyond the header. *)
Definition writable (r : row) : Prop :=
  extras r = None /\ forall k, k ∈ map fst (named r) -> k ∈ CSV_COLUMNS.

(** The fields written for a row. *)
Definition row_text (r : row) : list pystr :=
  map (fun c => default [] (row_get r c [])) CSV_COLUMNS.

(** The rows a merge of the directory keeps. *)
Definition kept_rows (d : directory) : list row :=
  (merge_files (merge_inputs d) [] ∅ []).1.1.

(** The identifier text a record is written with. *)
Definition id_text (db : unicode_db) (listing : pydict) : pystr :=
  cell_text db (dict_get listing (txt "hash_id") (PStr [])).

(** The name [scrape_sreality] writes to. *)
Definition output_name (w : world) (output_file : option pystr) : pystr :=
  match output_file with
  | None => txt "sreality_prague_rent_" ++ stamp w ++ txt ".csv"
  | Some f => f
  end.

(** The record the detail loop makes of an enumerated pair. *)
Definition made_of (db : unicode_db) (p : pyval * pydict) (listing : pydict)
    : Prop :=
  exists date detail,
    detail <> [] /\ listing = make_listing db date p.1 p.2 detail.

(** ** Reading what was written

    [save_to_csv] opens its file with [newline=""], so the fields reach the
    file as the writer quotes them; [load_existing_ids] and
    [merge_data_files] open theirs in plain text mode, where a carriage
    return, alone or before a line feed, is read as one line feed, inside a
    quoted field too. *)
Fixpoint universal_newlines (s : pystr) : pystr :=
  match s with
  | [] => []
  | c :: rest =>
      if c =? 13 then
        10 :: match rest with
              | c' :: rest' =>
                  if c' =? 10 then universal_newlines rest'
                  else universal_newlines rest
              | [] => []
              end
      else c :: universal_newlines rest
  end.

(** [csv.field_size_limit()]: the reader refuses a field with more
    characters and raises [_csv.Error]. *)
Definition field_size_limit : N := 131072.

Definition within_limit (s : pystr) : bool :=
  N.of_nat (length s) <=? field_size_limit.

(** The records a reader gets from a file written with these records: the
    fields with their line ends as the text layer reads them, or the
    reader's exception when one of them is longer than it accepts.  (The
    reader of CPython 3.11 and later; an earlier one also refuses a NUL
    character.) *)
Definition as_read (f : csv_file) : res csv_file :=
  let records := map (map universal_newlines) f in
  if forallb (forallb within_limit) records then Ok records
  else Raise CsvError.

(** Text that can be written and read back: no lone surrogate, and within
    the reader's limit once its line ends are read. *)
Definition storable_text (s : pystr) : Prop :=
  encodable s = true /\ within_limit (universal_newlines s) = true.

(** Text without carriage return. *)
Definition cr_free (s : pystr) : Prop := 13 ∉ s.

(** ** The answers of the network *)

(** What [get_listing_ids] returns for a page asked as the [n]-th request:
    the pairs of the page, nothing for a failed request, or the exception
    of a page that cannot be read. *)
Definition page_answer (w : world) (n page : nat)
    : res (list (pyval * pydict)) :=
  match respond w n (ListPage page) with
  | RequestFailed => Ok []
  | Body data => parse_listings data
  end.

(** What [get_listing_detail] returns for a listing asked as the [n]-th
    request. *)
Definition detail_answer (db : unicode_db) (w : world) (n : nat)
    (hash_id : pyval) : res (list (pystr * pystr)) :=
  match respond w n (Detail (py_str db hash_id)) with
  | RequestFailed => Ok []
  | Body data => parse_detail db data
  end.

(** The pages [page], [page + 1], ... asked from the [n]-th request on
    bring the non-empty lists [good], one after the other. *)
Fixpoint pages_read (w : world) (n page : nat)
    (good : list (list (pyval * pydict))) : Prop :=
  match good with
  | [] => True
  | l :: rest =>
      l <> [] /\ page_answer w n page = Ok l /\
      pages_read w (S n) (S page) rest
  end.

(** The records of a work list whose details are asked from the [n]-th
    request on: none for a pair whose detail comes back empty, else the
    record made of the pair, the detail and the date after the request. *)
Inductive details_read (db : unicode_db) (w : world)
    : nat -> list (pyval * pydict) -> list pydict -> Prop :=
| details_done n : details_read db w n [] []
| details_skip n h b rest records :
    detail_answer db w n h = Ok [] ->
    details_read db w (S n) rest records ->
    details_read db w n ((h, b) :: rest) records
| details_keep n h b rest records detail :
    detail_answer db w n h = Ok detail -> detail <> [] ->
    details_read db w (S n) rest records ->
    details_read db w n ((h, b) :: rest)
      (make_listing db (date_at w (S n)) h b detail :: records).

(** How the paging ended after [good] pages with listings: at the page
    limit, or one request later on a page that brought nothing. *)
Definition paging_ended (w : world) (n count : nat)
    (good : list (list (pyval * pydict))) (asked : nat) : Prop :=
  (asked = length good /\ asked = count)
  \/ (asked = S (length good) /\ (asked <= count)%nat /\
      page_answer w (n + length good) (1 + length good) = Ok []).

(** A world whose second page holds an estate that cannot be read. *)
Definition late_broken_world : world :=
  {| respond := fun _ req =>
       match req with
       | ListPage 1 => Body sample_page
       | ListPage 2 => Body (page_of [PDict estate_null_price])
       | _ => RequestFailed
       end;
     date_at := fun _ => txt "2024-05-01";
     stamp := txt "20240501_120000" |}.

(** The directory after a run that started in [st] has written the rows of
    [records] under [name]. *)
Definition directory_after (db : unicode_db) (st : state) (name : pystr)
    (records : list pydict) : option directory :=
  Some (dir_put (default [] (disk st)) name
          (CSV_COLUMNS :: map (written_fields db) records)).

(** * Properties *)

Example txt_ascii : txt "2+kk byt" = [50; 43; 107; 107; 32; 98; 121; 116].
Proof. reflexivity. Qed.

Example txt_czech : txt "Atypický" = [65; 116; 121; 112; 105; 99; 107; 0xFD].
Proof. reflexivity. Qed.

Example str_int : py_str latin1_db (PInt (-25000)) = txt "-25000".
Proof. reflexivity. Qed.

Example str_nested :
  py_str latin1_db (PList [PStr (txt "byt"); PNone; PDict [(txt "a", PInt 1)]])
  = txt "['byt', None, {'a': 1}]".
Proof. reflexivity. Qed.

Example rooms_upper :
  extract_rooms_from_name latin1_db (PStr (txt "Byt 3+KK, 70 m²")) = txt "3+KK".
Proof. reflexivity. Qed.

Example size_sample :
  extract_size_from_name latin1_db (PStr (txt "Pronájem bytu 55 m²")) = txt "55".
Proof. reflexivity. Qed.

Example district_sample :
  parse_district latin1_db (PStr (txt "Praha 5 - Smíchov")) = txt "Praha 5"
  /\ parse_neighborhood latin1_db (PStr (txt "Praha 5 - Smíchov")) = txt "Smíchov"
  /\ parse_district latin1_db (PStr (txt "Brno")) = []
  /\ parse_neighborhood latin1_db (PStr (txt "Brno")) = [].
Proof. repeat split; reflexivity. Qed.

(** ** The regex matcher *)

(** A match ends in a call of the continuation, with the group set when the
    pattern sets it or when it was set before. *)
Lemma match_here_group {A} (r : regex) (s : pystr) (g : option pystr)
    (k : pystr -> option pystr -> option A) (m : A) :
  match_here r s g k = Some m ->
  exists s' g',
    k s' g' = Some m /\
    (sets_group r = true -> g' <> None) /\ (g <> None -> g' <> None).
Proof.
  revert s g k m. induction r as [|p|r1 IH1 r2 IH2|r1 IH1 r2 IH2|p|r1 IH1];
    intros s g k m; simpl.
  - intros H. exists s, g. split_and!; [done | discriminate | done].
  - destruct s as [|c s']; [discriminate|].
    destruct (p c); [| discriminate].
    intros H. exists s', g. split_and!; [done | discriminate | done].
  - intros (s1 & g1 & H1 & Hs1 & Hg1)%IH1.
    apply IH2 in H1 as (s2 & g2 & H2 & Hs2 & Hg2).
    exists s2, g2. split_and!; [done | | by auto].
    intros [H | H]%orb_true_iff; auto.
  - destruct (match_here r1 s g k) as [m1|] eqn:E1.
    + intros [= <-]. apply IH1 in E1 as (s1 & g1 & H1 & Hs1 & Hg1).
      exists s1, g1. split_and!; [done | | done].
      intros [H _]%andb_true_iff. auto.
    + intros (s2 & g2 & H2 & Hs2 & Hg2)%IH2.
      exists s2, g2. split_and!; [done | | done].
      intros [_ H]%andb_true_iff. auto.
  - induction s as [|c s' IHs].
    + intros H. exists [], g. split_and!; [done | discriminate | done].
    + destruct (p c).
      * destruct ((fix many (s : pystr) : option A := _) s') as [m1|] eqn:E.
        -- intros [= <-]. by apply IHs.
        -- intros H. exists (c :: s'), g.
           split_and!; [done | discriminate | done].
      * intros H. exists (c :: s'), g.
        split_and!; [done | discriminate | done].
  - intros (s1 & g1 & H1 & _)%IH1.
    eexists _, _. split_and!; [exact H1 | done | done].
Qed.

Lemma re_search_group (r : regex) (s : pystr) (g : option pystr) :
  sets_group r = true -> re_search r s = Some g -> g <> None.
Proof.
  intros Hr. induction s as [|c s IH]; simpl.
  - destruct (match_here r [] None _) as [g0|] eqn:E; [| discriminate].
    intros [= <-]. apply match_here_group in E as (s' & g' & [= <-] & H & _).
    auto.
  - destruct (match_here r (c :: s) None _) as [g0|] eqn:E; [| exact IH].
    intros [= <-]. apply match_here_group in E as (s' & g' & [= <-] & H & _).
    auto.
Qed.

(** The four patterns of the source set their group in every match, so
    [group1] never falls back on its default. *)
Lemma patterns_set_group (db : unicode_db) :
  sets_group (rooms_re db) = true /\ sets_group (size_re db) = true /\
  sets_group (district_re db) = true /\ sets_group (neighborhood_re db) = true.
Proof. repeat split. Qed.

(** ** Room-count extractor *)

(** C7: the room-count extractor returns "2+kk" for "2+kk byt", the fixed
    token "atypicky" for "Atypický mezonet" (no pattern, but the atypical
    layout substring), and the empty string for "garsoniéra", whatever the
    Unicode tables of the interpreter hold above Latin-1. *)
Theorem rooms_samples (db : unicode_db) :
  extract_rooms_from_name db (PStr (txt "2+kk byt")) = txt "2+kk"
  /\ extract_rooms_from_name db (PStr (txt "Atypický mezonet")) = txt "atypicky"
  /\ extract_rooms_from_name db (PStr (txt "garsoniéra")) = txt "".
Proof. repeat split; vm_compute; reflexivity. Qed.

(** ** Attribute normalizer *)

Lemma eq_str_label (item : pydict) (name : pystr) :
  eq_str (dict_get item (txt "name") PNone) name = true <-> has_label name item.
Proof.
  unfold has_label, dict_get.
  destruct (dict_find item (txt "name")) as [v|]; simpl.
  - destruct v; simpl; try (split; [discriminate | intros [=]]).
    rewrite bool_decide_eq_true. split; [congruence | intros [=]; done].
  - split; discriminate.
Qed.

Lemma scan_items_dict (db : unicode_db) (it : pydict) (rest : list pyval)
    (name : pystr) :
  scan_items db (PDict it :: rest) name
  = if eq_str (dict_get it (txt "name") PNone) name
    then Ok (Some (normalize db (value_of it)))
    else scan_items db rest name.
Proof. reflexivity. Qed.

(** The inner loop over well-formed items: it returns at the first item
    labelled [name], or runs to the end. *)
Lemma scan_items_spec (db : unicode_db) (items : list pydict) (name : pystr) :
  (exists i1 it i2,
      items = i1 ++ it :: i2 /\ has_label name it /\
      (forall x, x ∈ i1 -> ~ has_label name x) /\
      scan_items db (map PDict items) name
        = Ok (Some (normalize db (value_of it))))
  \/ ((forall x, x ∈ items -> ~ has_label name x) /\
      scan_items db (map PDict items) name = Ok None).
Proof.
  induction items as [|it items IH].
  - right. split; [intros x Hx; inversion Hx | reflexivity].
  - rewrite map_cons, scan_items_dict.
    destruct (eq_str (dict_get it (txt "name") PNone) name) eqn:E.
    + left. exists [], it, items. apply eq_str_label in E.
      split_and!; [done | done | | done].
      intros x Hx; inversion Hx.
    + assert (Hno : ~ has_label name it).
      { intros H. apply eq_str_label in H. congruence. }
      destruct IH as [(i1 & x & i2 & -> & Hl & Hpre & Hr) | [Hall Hr]].
      * left. exists (it :: i1), x, i2. split_and!; [done | done | | done].
        intros y Hy. apply elem_of_cons in Hy as [-> | Hy]; auto.
      * right. split; [| done].
        intros y Hy. apply elem_of_cons in Hy as [-> | Hy]; auto.
Qed.

Lemma element_str_coerces (db : unicode_db) (v : pyval) :
  coerces db v (element_str db v).
Proof.
  destruct v; try (apply coerce_plain; discriminate).
  unfold element_str, dict_get.
  destruct (dict_find d (txt "value")) eqn:E.
  - by apply coerce_object.
  - by apply coerce_bare_object.
Qed.

(** The relation of the specification leaves no choice of the text. *)
Lemma coerces_fun (db : unicode_db) (v : pyval) (s1 s2 : pystr) :
  coerces db v s1 -> coerces db v s2 -> s1 = s2.
Proof.
  intros H1 H2. destruct H1; inversion H2; subst; try congruence.
  all: match goal with H : forall _, PDict _ <> PDict _ |- _ =>
         by destruct (H _) end.
Qed.

(** What [normalize] returns is the normalized string value. *)
Lemma normalize_normalized (db : unicode_db) (v : pyval) :
  normalized db v (normalize db v).
Proof.
  destruct v as [|b|z|f|t|l|d].
  - constructor.
  - destruct b; [apply (normalized_bool db true) | apply (normalized_bool db false)].
  - apply normalized_int.
  - apply normalized_float.
  - apply normalized_text.
  - apply normalized_sequence.
    apply Forall2_fmap_r, Forall_Forall2_diag, Forall_forall.
    intros; apply element_str_coerces.
  - apply normalized_object.
Qed.

Lemma Forall2_coerces_fun (db : unicode_db) (vs : list pyval)
    (s1 s2 : list pystr) :
  Forall2 (coerces db) vs s1 -> Forall2 (coerces db) vs s2 -> s1 = s2.
Proof.
  intros H1. revert s2. induction H1 as [|v t vs ts Hv _ IH]; intros s2 H2.
  - by inversion H2.
  - inversion H2 as [|? t' ? ts' Hv' Hrest]; subst.
    f_equal; [by eapply coerces_fun | by apply IH].
Qed.

(** The normalized string value is determined by the value. *)
Lemma normalized_fun (db : unicode_db) (v : pyval) (s1 s2 : pystr) :
  normalized db v s1 -> normalized db v s2 -> s1 = s2.
Proof.
  intros H1 H2. destruct H1; inversion H2; subst; try done.
  f_equal. by eapply Forall2_coerces_fun.
Qed.

(** C1: on any list of attribute items and any ordered list of candidate
    labels, [extract_attribute] returns without an exception; its result is
    the normalized string value of the first match (candidates in order,
    items in order for each candidate, labels compared for equality), or
    the empty string when no candidate labels any item.  The normalized
    string value is fixed by the value: nothing for [None], the joined
    elements for a sequence, the text itself, the decimal digits of a whole
    number, [True] or [False], the [repr] of a float. *)
Theorem extract_attribute_first_match (db : unicode_db)
    (items : list pydict) (names : list pystr) :
  ((exists item s,
       first_match items names item /\
       extract_attribute db (PList (map PDict items)) names = Ok s /\
       normalized db (value_of item) s)
   \/ (no_match items names /\
       extract_attribute db (PList (map PDict items)) names = Ok (txt "")))
  /\ (forall v s s', normalized db v s -> normalized db v s' -> s = s')
  /\ normalized db (PInt 65) (txt "65")
  /\ normalized db (PBool true) (txt "True")
  /\ normalized db (PStr (txt "Cihlová")) (txt "Cihlová")
  /\ normalized db (PList [PInt 1; PDict [(txt "value", PStr (txt "a"))]])
       (txt "1, a").
Proof.
  split_and!.
  - induction names as [|name names IH]; simpl.
    + right. split; [intros c it Hc; inversion Hc | reflexivity].
    + destruct (scan_items_spec db items name)
        as [(i1 & it & i2 & Hi & Hl & Hpre & Hr) | [Hall Hr]]; rewrite Hr; simpl.
      * left. exists it, (normalize db (value_of it)).
        split_and!; [| done | apply normalize_normalized].
        exists [], name, names, i1, i2.
        split_and!; [done | done | done | | done].
        intros c' x Hc'; inversion Hc'.
      * destruct IH as [(it & s & Hfm & He & Hs) | [Hnm He]].
        -- left. exists it, s. split_and!; [| done | done].
           destruct Hfm as (n1 & c & n2 & i1 & i2 & -> & Hi & Hl & Hn & Hpre).
           exists (name :: n1), c, n2, i1, i2.
           split_and!; [done | done | done | | done].
           intros c' x Hc' Hx. apply elem_of_cons in Hc' as [-> | Hc']; eauto.
        -- right. split; [| done].
           intros c x Hc Hx. apply elem_of_cons in Hc as [-> | Hc]; eauto.
  - apply normalized_fun.
  - apply (normalized_int db 65).
  - apply (normalized_bool db true).
  - constructor.
  - apply (normalized_sequence db _ [txt "1"; txt "a"]).
    constructor; [apply (coerce_plain db (PInt 1)); discriminate|].
    constructor; [| constructor].
    by apply (coerce_object db _ (PStr (txt "a"))).
Qed.

Lemma scan_items_none (db : unicode_db) (items : list pydict) (name : pystr) :
  (forall x, x ∈ items -> ~ has_label name x) ->
  scan_items db (map PDict items) name = Ok None.
Proof.
  induction items as [|it items IH]; intros Hno; [reflexivity|].
  rewrite map_cons, scan_items_dict.
  destruct (eq_str _ name) eqn:E.
  - apply eq_str_label in E. destruct (Hno it); [left | done].
  - apply IH. intros x Hx. apply Hno. by right.
Qed.

Lemma scan_items_found (db : unicode_db) (i1 i2 : list pydict) (it : pydict)
    (name : pystr) :
  (forall x, x ∈ i1 -> ~ has_label name x) -> has_label name it ->
  scan_items db (map PDict (i1 ++ it :: i2)) name
  = Ok (Some (normalize db (value_of it))).
Proof.
  intros Hpre Hl. induction i1 as [|a i1 IH]; simpl app;
    rewrite map_cons, scan_items_dict.
  - apply eq_str_label in Hl. by rewrite Hl.
  - destruct (eq_str _ name) eqn:E.
    + apply eq_str_label in E. destruct (Hpre a); [left | done].
    + apply IH. intros x Hx. apply Hpre. by right.
Qed.

(** The first match decides the result. *)
Lemma extract_attribute_at_first_match (db : unicode_db)
    (items : list pydict) (names : list pystr) (item : pydict) :
  first_match items names item ->
  extract_attribute db (PList (map PDict items)) names
  = Ok (normalize db (value_of item)).
Proof.
  intros (n1 & c & n2 & i1 & i2 & -> & Hi & Hl & Hn & Hpre).
  induction n1 as [|c' n1 IH]; simpl.
  - subst items. by rewrite (scan_items_found db i1 i2 item c).
  - rewrite (scan_items_none db items c'); simpl.
    + apply IH. intros c0 x Hc0. apply Hn. by right.
    + intros x Hx. apply (Hn c' x); [left | done].
Qed.

(** C2: when the value of the first match is a sequence, the result is the
    join with ", " of the string forms of its elements in their order, an
    object being read through its "value" sub-field and any other element
    taken as it is. *)
Theorem extract_attribute_list_value (db : unicode_db)
    (items : list pydict) (names : list pystr) (item : pydict)
    (elements : list pyval) :
  first_match items names item ->
  value_of item = PList elements ->
  exists strs,
    Forall2 (coerces db) elements strs /\
    extract_attribute db (PList (map PDict items)) names
    = Ok (join (txt ", ") strs).
Proof.
  intros Hfm Hv. exists (map (element_str db) elements). split.
  - apply Forall2_fmap_r, Forall_Forall2_diag, Forall_forall.
    intros; apply element_str_coerces.
  - rewrite (extract_attribute_at_first_match db items names item Hfm), Hv.
    reflexivity.
Qed.

Lemma extract_attribute_list_value_witness :
  first_match [lift_item; furnishing_item]
    [txt "Vybaveno"; txt "Vybavení"] furnishing_item
  /\ value_of furnishing_item
     = PList [ PDict [ (txt "name", PStr (txt "Lednice"));
                       (txt "value", PStr (txt "Lednice")) ];
               PStr (txt "Pračka"); PInt 3 ]
  /\ exists strs,
       Forall2 (coerces latin1_db)
         [ PDict [ (txt "name", PStr (txt "Lednice"));
                   (txt "value", PStr (txt "Lednice")) ];
           PStr (txt "Pračka"); PInt 3 ] strs /\
       extract_attribute latin1_db
         (PList (map PDict [lift_item; furnishing_item]))
         [txt "Vybaveno"; txt "Vybavení"]
       = Ok (join (txt ", ") strs).
Proof.
  assert (Hfm : first_match [lift_item; furnishing_item]
                  [txt "Vybaveno"; txt "Vybavení"] furnishing_item).
  { exists [txt "Vybaveno"], (txt "Vybavení"), [], [lift_item], [].
    split_and!; try reflexivity.
    - intros c' it Hc Hit.
      apply list_elem_of_singleton in Hc as ->.
      apply elem_of_cons in Hit as [-> | Hit];
        [| apply list_elem_of_singleton in Hit as ->]; vm_compute; discriminate.
    - intros it Hit. apply list_elem_of_singleton in Hit as ->.
      vm_compute; discriminate. }
  split; [exact Hfm |]. split; [reflexivity |].
  apply (extract_attribute_list_value latin1_db _ _ furnishing_item);
    [exact Hfm | reflexivity].
Defined.

Example furnishing_joined :
  extract_attribute latin1_db (PList (map PDict [lift_item; furnishing_item]))
    [txt "Vybaveno"; txt "Vybavení"]
  = Ok (txt "Lednice, Pračka, 3").
Proof. reflexivity. Qed.

(** ** Filtering against the known identifiers *)

Lemma keep_new_filter (db : unicode_db) (E : gset pystr)
    (C : list (pyval * pydict)) :
  keep_new db E C = filter (fun p => py_str db p.1 ∉ E) C.
Proof.
  induction C as [|[h b] C IH]; [reflexivity|].
  simpl. rewrite filter_cons. simpl.
  destruct (decide (py_str db h ∈ E)) as [Hin | Hout].
  - rewrite decide_False by (intros Hn; by apply Hn). exact IH.
  - rewrite decide_True by done. by rewrite IH.
Qed.

Lemma filter_known_filter (db : unicode_db) (E : gset pystr)
    (C : list (pyval * pydict)) :
  filter_known db E C = filter (fun p => py_str db p.1 ∉ E) C.
Proof.
  unfold filter_known. destruct (decide (E = ∅)) as [-> | Hne].
  - induction C as [|p C IH]; [reflexivity|].
    rewrite filter_cons, decide_True by apply not_elem_of_empty.
    by rewrite <- IH.
  - apply keep_new_filter.
Qed.

(** C4: for every set [E] of known identifiers and every candidate list [C],
    the filter phase returns exactly the pairs of [C] whose identifier (as
    text) is not in [E], in the order they have in [C]. *)
Theorem filter_known_spec (db : unicode_db) (E : gset pystr)
    (C : list (pyval * pydict)) :
  filter_known db E C = filter (fun p => py_str db p.1 ∉ E) C
  /\ sublist (filter_known db E C) C
  /\ forall p, p ∈ filter_known db E C <-> p ∈ C /\ py_str db p.1 ∉ E.
Proof.
  rewrite filter_known_filter. split_and!; [done | apply sublist_filter |].
  intros p. rewrite list_elem_of_filter. tauto.
Qed.

(** ** Merging by first-seen identifier *)

Lemma first_per_id_app (e xs ys : list row) :
  first_per_id e (xs ++ ys) = first_per_id e xs ++ first_per_id (e ++ xs) ys.
Proof.
  revert e. induction xs as [|x xs IH]; intros e; simpl.
  - by rewrite app_nil_r.
  - rewrite IH, <- app_assoc. simpl. by destruct (decide _).
Qed.

Lemma first_per_id_sublist (e rows : list row) :
  sublist (first_per_id e rows) rows.
Proof.
  revert e. induction rows as [|r rows IH]; intros e; simpl; [constructor|].
  destruct (decide _); [apply sublist_cons | apply sublist_skip]; apply IH.
Qed.

Lemma first_per_id_fresh (e rows : list row) (r : row) :
  r ∈ first_per_id e rows -> row_id r ∉ row_id <$> e.
Proof.
  revert e. induction rows as [|x rows IH]; intros e; simpl.
  - intros H; inversion H.
  - assert (Hrest : r ∈ first_per_id (e ++ [x]) rows -> row_id r ∉ row_id <$> e).
    { intros H%IH. rewrite fmap_app, elem_of_app in H. tauto. }
    destruct (decide _) as [Hin | Hout]; [done|].
    intros [-> | H]%elem_of_cons; auto.
Qed.

Lemma first_per_id_NoDup (e rows : list row) :
  NoDup (row_id <$> first_per_id e rows).
Proof.
  revert e. induction rows as [|x rows IH]; intros e; simpl; [constructor|].
  destruct (decide _); [apply IH|].
  rewrite fmap_cons. constructor; [| apply IH].
  intros (r & Hid & Hr)%list_elem_of_fmap.
  apply first_per_id_fresh in Hr. apply Hr.
  rewrite fmap_app, elem_of_app. right. rewrite <- Hid. by left.
Qed.

Lemma first_per_id_keeps (e pre post : list row) (r : row) :
  row_id r ∉ row_id <$> e -> row_id r ∉ row_id <$> pre ->
  r ∈ first_per_id e (pre ++ r :: post).
Proof.
  intros He Hpre. rewrite first_per_id_app, elem_of_app. right. simpl.
  rewrite decide_False; [by left|].
  rewrite fmap_app, elem_of_app. tauto.
Qed.

Lemma NoDup_fmap_same {A B} (f : A -> B) (l : list A) (x y : A) :
  NoDup (f <$> l) -> x ∈ l -> y ∈ l -> f x = f y -> x = y.
Proof.
  induction l as [|a l IH]; [intros _ H; inversion H|].
  rewrite fmap_cons, NoDup_cons.
  intros [Ha Hnd] [-> | Hx]%elem_of_cons [-> | Hy]%elem_of_cons Hf; auto.
  - destruct Ha. rewrite Hf. by apply list_elem_of_fmap_2.
  - destruct Ha. rewrite <- Hf. by apply list_elem_of_fmap_2.
Qed.

Lemma filter_none {A} (P : A -> Prop) `{!forall x, Decision (P x)} (l : list A) :
  (forall x, x ∈ l -> ~ P x) -> filter P l = [].
Proof.
  induction l as [|a l IH]; intros Hall; [reflexivity|].
  rewrite filter_cons_False by (apply Hall; left).
  apply IH. intros x Hx. apply Hall. by right.
Qed.

Lemma NoDup_fmap_count {A B} (f : A -> B) (l : list A) (k : B)
    `{!forall x, Decision (f x = k)} :
  NoDup (f <$> l) -> (length (filter (fun x => f x = k) l) <= 1)%nat.
Proof.
  induction l as [|a l IH]; [simpl; lia|].
  rewrite fmap_cons, NoDup_cons. intros [Ha Hnd].
  rewrite filter_cons. destruct (decide (f a = k)) as [Hk | Hk]; [| auto].
  rewrite filter_none; [simpl; lia|].
  intros x Hx Hfx. apply Ha. rewrite Hk, <- Hfx.
  by apply list_elem_of_fmap_2.
Qed.

(** The inner loop, for a set [seen_ids] that holds the identifiers of the
    rows read before. *)
Lemma merge_rows_spec (rows earlier all_rows : list row)
    (seen_ids : gset (option pystr)) :
  seen_ids = list_to_set (row_id <$> earlier) ->
  merge_rows rows all_rows seen_ids
  = (all_rows ++ first_per_id earlier rows,
     list_to_set (row_id <$> (earlier ++ rows))).
Proof.
  revert earlier all_rows seen_ids.
  induction rows as [|r rows IH]; intros earlier all_rows seen_ids Hs; simpl.
  - by rewrite !app_nil_r, Hs.
  - fold (row_id r).
    assert (Hnext : {[row_id r]} ∪ seen_ids
                    = list_to_set (row_id <$> (earlier ++ [r]))).
    { rewrite Hs, fmap_app, list_to_set_app_L. simpl.
      rewrite (right_id_L ∅ (∪)). apply (comm_L (∪)). }
    destruct (decide (row_id r ∈ seen_ids)) as [Hin | Hout].
    + rewrite decide_True by (by rewrite Hs, elem_of_list_to_set in Hin).
      rewrite (IH (earlier ++ [r])), <- app_assoc; [done|].
      rewrite <- Hnext. symmetry.
      apply subseteq_union_1_L. by apply singleton_subseteq_l.
    + rewrite decide_False by (by rewrite Hs, elem_of_list_to_set in Hout).
      rewrite (IH (earlier ++ [r])), <- !app_assoc; done.
Qed.

Lemma merge_files_spec (files : list (pystr * csv_file))
    (earlier all_rows : list row) (seen_ids : gset (option pystr))
    (counts : list (pystr * nat)) :
  seen_ids = list_to_set (row_id <$> earlier) ->
  merge_files files all_rows seen_ids counts
  = (all_rows ++ first_per_id earlier (rows_in_order files),
     list_to_set (row_id <$> (earlier ++ rows_in_order files)),
     counts ++ map (fun e => (e.1, length (dict_reader e.2))) files).
Proof.
  revert earlier all_rows seen_ids counts.
  induction files as [|[name f] files IH];
    intros earlier all_rows seen_ids counts Hs; simpl.
  - unfold rows_in_order. simpl. by rewrite !app_nil_r, Hs.
  - rewrite (merge_rows_spec _ earlier) by done.
    rewrite (IH (earlier ++ dict_reader f)) by done.
    unfold rows_in_order. simpl.
    by rewrite first_per_id_app, <- !app_assoc.
Qed.

Lemma merge_files_kept (files : list (pystr * csv_file)) :
  (merge_files files [] ∅ []).1.1 = first_per_id [] (rows_in_order files).
Proof. by rewrite (merge_files_spec files []). Qed.

(** The first row with an identifier is kept and is the only kept row with
    that identifier. *)
Lemma first_row_kept (pre post : list row) (r : row) :
  row_id r ∉ row_id <$> pre ->
  r ∈ first_per_id [] (pre ++ r :: post)
  /\ forall r', r' ∈ first_per_id [] (pre ++ r :: post) ->
                row_id r' = row_id r -> r' = r.
Proof.
  intros Hfirst.
  assert (Hr : r ∈ first_per_id [] (pre ++ r :: post)).
  { apply first_per_id_keeps; [| done].
    rewrite fmap_nil. apply not_elem_of_nil. }
  split; [done|]. intros r' Hr' Hid.
  apply (NoDup_fmap_same row_id (first_per_id [] (pre ++ r :: post)));
    [apply first_per_id_NoDup | done | done | done].
Qed.

(** C3: for every list of source files, the merge keeps exactly the first
    row read for each identifier, in reading order, and drops every later
    row with that identifier, in the same file or a later one.  On one file
    with A and B and a second with B and C it keeps three rows, B's from the
    first file. *)
Theorem merge_keeps_first_row (files : list (pystr * csv_file)) :
  let all := rows_in_order files in
  let kept := (merge_files files [] ∅ []).1.1 in
  kept = first_per_id [] all
  /\ sublist kept all
  /\ NoDup (row_id <$> kept)
  /\ (forall pre r post,
        all = pre ++ r :: post -> row_id r ∉ row_id <$> pre ->
        r ∈ kept /\ forall r', r' ∈ kept -> row_id r' = row_id r -> r' = r)
  /\ (let kept2 :=
        (merge_files [ (txt "sreality_1.csv", file_ab);
                       (txt "sreality_2.csv", file_bc) ] [] ∅ []).1.1 in
      map (fun r => (row_id r, row_get r (txt "name") [])) kept2
        = [ (Some (txt "A"), Some (txt "Byt A"));
            (Some (txt "B"), Some (txt "Byt B, first file"));
            (Some (txt "C"), Some (txt "Byt C")) ]
      /\ (merge_data_files two_file_state).2
         = Ok (Merged [ (txt "sreality_1.csv", 2%nat);
                        (txt "sreality_2.csv", 2%nat) ] 3)).
Proof.
  intros all kept. unfold kept. rewrite merge_files_kept. fold all.
  split_and!.
  - reflexivity.
  - apply first_per_id_sublist.
  - apply first_per_id_NoDup.
  - intros pre r post -> Hfirst. by apply first_row_kept.
  - vm_compute; reflexivity.
  - vm_compute; reflexivity.
Qed.

(** ** Merging twice *)

Lemma merge_inputs_put (d : directory) (f : csv_file) :
  merge_inputs (dir_put d COMBINED f) = merge_inputs d.
Proof.
  unfold merge_inputs. induction d as [|[n g] d IH]; cbn [dir_put].
  - rewrite filter_cons_False; [done|]. cbn [fst]. tauto.
  - destruct (decide (n = COMBINED)) as [-> | Hn].
    + rewrite !filter_cons_False; [done | cbn [fst]; tauto | cbn [fst]; tauto].
    + rewrite !filter_cons, IH. reflexivity.
Qed.

Lemma dir_put_twice (d : directory) (name : pystr) (f g : csv_file) :
  dir_put (dir_put d name f) name g = dir_put d name g.
Proof.
  induction d as [|[n h] d IH]; simpl.
  - by rewrite decide_True.
  - destruct (decide (n = name)) as [-> | Hn]; simpl.
    + by rewrite decide_True.
    + by rewrite decide_False, IH.
Qed.

Lemma dir_put_find (d : directory) (name : pystr) (f : csv_file) :
  dict_find (dir_put d name f) name = Some f.
Proof.
  induction d as [|[n h] d IH]; simpl.
  - by rewrite decide_True.
  - destruct (decide (n = name)) as [-> | Hn]; simpl.
    + by rewrite decide_True.
    + by rewrite decide_False.
Qed.

(** The run of [merge_data_files] on an existing directory, in one piece. *)
Lemma merge_data_files_run (st : state) (d : directory) :
  disk st = Some d ->
  merge_data_files st =
    match merge_inputs d with
    | [] => (st, Ok NoDataFiles)
    | csv_files =>
        let kept := (merge_files csv_files [] ∅ []).1.1 in
        let counts := (merge_files csv_files [] ∅ []).2 in
        let out := write_rows row_fields kept [CSV_COLUMNS] in
        ({| sent := sent st; disk := Some (dir_put d COMBINED out.1) |},
         match out.2 with
         | Ok _ => Ok (Merged counts (length kept))
         | Raise e => Raise e
         end)
    end.
Proof.
  intros Hd. unfold merge_data_files. rewrite Hd.
  destruct (merge_inputs d) as [|e files]; [reflexivity|].
  destruct (merge_files (e :: files) [] ∅ []) as [[kept seen] counts]. simpl.
  unfold io_bind, save_to_csv. rewrite Hd. simpl.
  destruct (write_rows row_fields kept [CSV_COLUMNS]) as [out [[]|err]];
    reflexivity.
Qed.

(** *** The unique count *)

Lemma first_occurrence {A B} `{EqDecision B} (f : A -> B) (l : list A) (x : B) :
  x ∈ f <$> l ->
  exists l1 a l2, l = l1 ++ a :: l2 /\ f a = x /\ x ∉ f <$> l1.
Proof.
  induction l as [|a l IH]; [intros H; inversion H|].
  rewrite fmap_cons. intros Hx. destruct (decide (f a = x)) as [Ha | Ha].
  - exists [], a, l. split_and!; [done | done | apply not_elem_of_nil].
  - apply elem_of_cons in Hx as [Hx | Hx]; [congruence|].
    destruct (IH Hx) as (l1 & b & l2 & -> & Hb & Hl1).
    exists (a :: l1), b, l2. split_and!; [done | done |].
    rewrite fmap_cons, elem_of_cons. intros [H | H]; [congruence | done].
Qed.

Lemma first_per_id_same_ids (all : list row) (k : option pystr) :
  k ∈ row_id <$> first_per_id [] all <-> k ∈ row_id <$> all.
Proof.
  split.
  - intros (r & -> & Hr)%list_elem_of_fmap. apply list_elem_of_fmap_2.
    eapply elem_of_sublist; [exact Hr | apply first_per_id_sublist].
  - intros (pre & r & post & -> & <- & Hfirst)%first_occurrence.
    apply list_elem_of_fmap_2. by apply first_row_kept.
Qed.

(** The number the merge reports is the number of distinct identifiers among
    the rows it read. *)
Lemma merged_count_distinct (files : list (pystr * csv_file)) :
  length (merge_files files [] ∅ []).1.1
  = size (list_to_set (row_id <$> rows_in_order files) : gset (option pystr)).
Proof.
  rewrite merge_files_kept.
  rewrite <- (length_fmap row_id).
  rewrite <- (size_list_to_set (C := gset (option pystr)))
    by apply first_per_id_NoDup.
  f_equal. apply set_eq. intros k.
  rewrite !elem_of_list_to_set. apply first_per_id_same_ids.
Qed.

(** It does not depend on the order in which the directory lists the
    files. *)
Lemma merged_count_any_order (files files' : list (pystr * csv_file)) :
  files ≡ₚ files' ->
  length (merge_files files [] ∅ []).1.1
  = length (merge_files files' [] ∅ []).1.1.
Proof.
  intros Hp. rewrite !merged_count_distinct. f_equal.
  apply list_to_set_perm_L. unfold rows_in_order.
  apply fmap_Permutation. induction Hp; simpl.
  - done.
  - by apply Permutation_app_head.
  - rewrite !app_assoc. apply Permutation_app_tail, Permutation_app_comm.
  - by etransitivity.
Qed.

(** C5: merging again over the directory the first merge left behind, its
    combined output included, reports what the first merge reported, the
    same number of unique listings in particular, and leaves the directory
    as it was; the number reported is the number of distinct identifiers in
    the source files. *)
Theorem merge_twice_same_count (st : state) :
  let first := merge_data_files st in
  let second := merge_data_files first.1 in
  second.2 = first.2 /\ second.1 = first.1
  /\ (forall d counts n,
        disk st = Some d -> first.2 = Ok (Merged counts n) ->
        n = size (list_to_set (row_id <$> rows_in_order (merge_inputs d))
                  : gset (option pystr))).
Proof.
  simpl. destruct (disk st) as [d|] eqn:Hd.
  - rewrite (merge_data_files_run st d Hd).
    destruct (merge_inputs d) as [|e files] eqn:Hin.
    + simpl. rewrite (merge_data_files_run st d Hd), Hin.
      split_and!; [done | done | discriminate].
    + cbv zeta.
      set (kept := (merge_files (e :: files) [] ∅ []).1.1).
      set (counts := (merge_files (e :: files) [] ∅ []).2).
      set (out := write_rows row_fields kept [CSV_COLUMNS]).
      simpl.
      rewrite (merge_data_files_run _ (dir_put d COMBINED out.1)) by done.
      rewrite merge_inputs_put, Hin. cbv zeta.
      fold kept counts out. simpl. rewrite dir_put_twice.
      split_and!; [done | done |].
      intros d' counts' n [= <-]. rewrite Hin.
      destruct out.2; [| discriminate].
      intros [= _ <-]. apply merged_count_distinct.
  - assert (Hrun : merge_data_files st = (st, Raise FileNotFoundError)).
    { unfold merge_data_files. by rewrite Hd. }
    rewrite Hrun. simpl. rewrite Hrun. split_and!; [done | done | discriminate].
Qed.

(** ** Rows without an identifier *)

Lemma row_id_cases (r : row) :
  (row_id r = Some [] <->
     dict_find (named r) (txt "hash_id") = None \/
     dict_find (named r) (txt "hash_id") = Some (Some []))
  /\ (row_id r = None <-> dict_find (named r) (txt "hash_id") = Some None).
Proof.
  unfold row_id, row_get, dict_get.
  destruct (dict_find (named r) (txt "hash_id")) as [[s|]|]; split; split;
    try (intros [H | H]); try intros H; try discriminate; auto.
  - right. by inversion H.
  - by inversion H.
Qed.

Lemma collect_ids_spec (rows : list row) (acc : gset pystr) (s : pystr) :
  s ∈ collect_ids rows acc <->
  s ∈ acc \/ (s <> [] /\ exists r, r ∈ rows /\ row_id r = Some s).
Proof.
  revert acc. induction rows as [|r rows IH]; intros acc; simpl.
  - split; [auto | intros [H | (_ & r & Hr & _)]; [done | inversion Hr]].
  - fold (row_id r).
    assert (Hskip :
      (s ∈ acc \/ (s <> [] /\ exists r0, r0 ∈ rows /\ row_id r0 = Some s)) ->
      s ∈ acc \/ (s <> [] /\ exists r0, r0 ∈ r :: rows /\ row_id r0 = Some s)).
    { intros [H | (Hs & r0 & Hr0 & Hid)]; [by left | right].
      split; [done|]. exists r0. split; [by right | done]. }
    destruct (row_id r) as [[|c t]|] eqn:Hid; rewrite IH.
    + split; [exact Hskip|].
      intros [H | (Hs & r0 & [-> | Hr0]%elem_of_cons & Hid0)]; [by left | |].
      * congruence.
      * right. eauto.
    + rewrite elem_of_union, elem_of_singleton. split.
      * intros [[-> | H] | (Hs & r0 & Hr0 & Hid0)].
        -- right. split; [done|]. exists r. split; [by left | done].
        -- by left.
        -- apply Hskip. right. eauto.
      * intros [H | (Hs & r0 & [-> | Hr0]%elem_of_cons & Hid0)].
        -- left. by right.
        -- left. left. congruence.
        -- right. eauto.
    + split; [exact Hskip|].
      intros [H | (Hs & r0 & [-> | Hr0]%elem_of_cons & Hid0)]; [by left | |].
      * congruence.
      * right. eauto.
Qed.

Lemma scan_directory_spec (d : directory) (acc : gset pystr) (s : pystr) :
  s ∈ scan_directory d acc <->
  s ∈ acc \/
  (s <> [] /\
   exists name f r,
     (name, f) ∈ d /\ is_data_file name = true /\
     r ∈ dict_reader f /\ row_id r = Some s).
Proof.
  revert acc. induction d as [|[n g] d IH]; intros acc; simpl.
  - split; [auto | intros [H | (_ & ? & ? & ? & H & _)]; [done | inversion H]].
  - destruct (is_data_file n) eqn:Hn; rewrite IH; [rewrite collect_ids_spec|].
    + split.
      * intros [[H | (Hs & r & Hr & Hid)] | (Hs & name & f & r & Hin & H)].
        -- by left.
        -- right. split; [done|]. exists n, g, r. split_and!; [left | | |]; done.
        -- right. split; [done|]. exists name, f, r. split; [by right | done].
      * intros [H | (Hs & name & f & r & [E | Hin]%elem_of_cons & Hd & Hr & Hid)].
        -- left. by left.
        -- inversion E; subst. left. right. eauto.
        -- right. split; [done|]. exists name, f, r. done.
    + split.
      * intros [H | (Hs & name & f & r & Hin & H)]; [by left | right].
        split; [done|]. exists name, f, r. split; [by right | done].
      * intros [H | (Hs & name & f & r & [E | Hin]%elem_of_cons & Hd & Hr & Hid)].
        -- by left.
        -- inversion E; subst. congruence.
        -- right. split; [done|]. exists name, f, r. done.
Qed.

(** The identifiers the loader knows are the non-empty [hash_id] texts of the
    rows of the data files. *)
Lemma load_existing_ids_spec (d : option directory) (s : pystr) :
  s ∈ load_existing_ids d <->
  s <> [] /\
  exists entries name f r,
    d = Some entries /\ (name, f) ∈ entries /\ is_data_file name = true /\
    r ∈ dict_reader f /\ row_id r = Some s.
Proof.
  destruct d as [entries|]; simpl.
  - rewrite scan_directory_spec. split.
    + intros [H | (Hs & name & f & r & H)]; [by apply not_elem_of_empty in H|].
      split; [done|]. exists entries, name, f, r. done.
    + intros (Hs & e & name & f & r & [= <-] & H). right.
      split; [done|]. exists name, f, r. done.
  - split; [intros H; by apply not_elem_of_empty in H|].
    intros (_ & ? & ? & ? & ? & [=] & _).
Qed.

Lemma filter_or_length {A} (P Q : A -> Prop) `{!forall x, Decision (P x)}
    `{!forall x, Decision (Q x)} (l : list A) :
  (length (filter (fun x => P x \/ Q x) l)
   <= length (filter P l) + length (filter Q l))%nat.
Proof.
  induction l as [|a l IH]; [simpl; lia|].
  rewrite !filter_cons.
  destruct (decide (P a)), (decide (Q a)), (decide (P a \/ Q a));
    simpl; try lia; tauto.
Qed.

Lemma identifier_less_cases (r : row) :
  identifier_less r = true <-> row_id r = Some [] \/ row_id r = None.
Proof.
  unfold identifier_less. destruct (row_id r) as [[|c s]|]; split;
    try (intros [H | H]); try intros H; try discriminate; auto.
Qed.

(** The claim C10 as worded fails on a file whose last record was cut off:
    the cut-off row is read with [hash_id] [None], not [''], and survives
    the merge next to the row with the empty identifier. *)
Lemma cut_off_row_survives :
  let kept := (merge_files [(txt "sreality_1.csv", cut_off_file)] [] ∅ []).1.1 in
  row_id <$> kept = [Some (txt ""); None]
  /\ identifier_less <$> kept = [true; true]
  /\ ~ (length (filter (fun r => identifier_less r = true) kept) <= 1)%nat.
Proof. vm_compute. split_and!; [reflexivity | reflexivity | lia]. Qed.

(** C10, amended: a row whose [hash_id] column is absent or empty has the
    identifier [''], a row that ended before the column has [None]; the
    merge keeps at most one row for each of the two (so at most two rows
    without identifier), the first one read, which is the only one kept for
    its identifier.  The loader of known identifiers never adds an empty
    one: a candidate is filtered out only by a row that carries its
    identifier. *)
Theorem identifier_less_rows (files : list (pystr * csv_file))
    (d : option directory) :
  let all := rows_in_order files in
  let kept := (merge_files files [] ∅ []).1.1 in
  (forall r,
      (row_id r = Some [] <->
         dict_find (named r) (txt "hash_id") = None \/
         dict_find (named r) (txt "hash_id") = Some (Some []))
      /\ (row_id r = None <-> dict_find (named r) (txt "hash_id") = Some None)
      /\ (identifier_less r = true <-> row_id r = Some [] \/ row_id r = None))
  /\ (forall k, (length (filter (fun r => row_id r = k) kept) <= 1)%nat)
  /\ (length (filter (fun r => identifier_less r = true) kept) <= 2)%nat
  /\ (forall pre r post,
        all = pre ++ r :: post -> row_id r ∉ row_id <$> pre ->
        r ∈ kept /\ forall r', r' ∈ kept -> row_id r' = row_id r -> r' = r)
  /\ ([] ∉ load_existing_ids d)
  /\ (forall db (C : list (pyval * pydict)) h b,
        (h, b) ∈ C -> (h, b) ∉ filter_known db (load_existing_ids d) C ->
        exists entries name f r,
          d = Some entries /\ (name, f) ∈ entries /\
          is_data_file name = true /\ r ∈ dict_reader f /\
          row_id r = Some (py_str db h) /\ identifier_less r = false).
Proof.
  intros all kept. unfold kept. rewrite merge_files_kept. fold all.
  split_and!.
  - intros r. destruct (row_id_cases r). split_and!; [done | done |].
    apply identifier_less_cases.
  - intros k. apply NoDup_fmap_count, first_per_id_NoDup.
  - rewrite (list_filter_iff _ (fun r => row_id r = Some [] \/ row_id r = None))
      by apply identifier_less_cases.
    etransitivity; [apply filter_or_length|].
    change 2%nat with (1 + 1)%nat.
    apply Nat.add_le_mono; apply NoDup_fmap_count, first_per_id_NoDup.
  - intros pre r post -> Hfirst. by apply first_row_kept.
  - rewrite load_existing_ids_spec. intros [H _]. by apply H.
  - intros db C h b HC Hout.
    assert (Hin : py_str db h ∈ load_existing_ids d).
    { destruct (decide (py_str db h ∈ load_existing_ids d)); [done|].
      destruct Hout. rewrite filter_known_filter, list_elem_of_filter. done. }
    apply load_existing_ids_spec in Hin
      as (Hne & entries & name & f & r & Hd & He & Hf & Hr & Hid).
    exists entries, name, f, r. split_and!; try done.
    unfold identifier_less. rewrite Hid.
    by destruct (py_str db h).
Qed.

(** ** One record *)

(** The record, field by field. *)
Lemma make_listing_shape (db : unicode_db) (date : pystr) (hash_id : pyval)
    (basic_info : pydict) (detail : list (pystr * pystr)) :
  let name := dict_get basic_info (txt "name") (PStr []) in
  let locality := dict_get basic_info (txt "locality") (PStr []) in
  make_listing db date hash_id basic_info detail =
    [ (txt "scrape_date", PStr date);
      (txt "hash_id", hash_id);
      (txt "name", name);
      (txt "locality", locality);
      (txt "district", PStr (parse_district db locality));
      (txt "neighborhood", PStr (parse_neighborhood db locality));
      (txt "price_czk",
       py_or (dict_get basic_info (txt "price") PNone)
             (dict_get basic_info (txt "price_czk") PNone));
      (txt "rooms", PStr (extract_rooms_from_name db name));
      (txt "size_m2",
       PStr (match dict_get detail (txt "size_m2") [] with
             | _ :: _ => dict_get detail (txt "size_m2") []
             | [] => extract_size_from_name db name
             end)) ]
    ++ map (fun c => (c.1, PStr (dict_get detail c.1 []))) (tail ATTRIBUTE_MAP).
Proof.
  intros name locality. unfold make_listing. fold name locality.
  generalize (parse_district db locality), (parse_neighborhood db locality),
    (extract_rooms_from_name db name), (extract_size_from_name db name),
    (py_or (dict_get basic_info (txt "price") PNone)
           (dict_get basic_info (txt "price_czk") PNone)).
  generalize name, locality. intros. vm_compute. reflexivity.
Qed.

Lemma make_listing_price (db : unicode_db) (date : pystr) (hash_id : pyval)
    (basic_info : pydict) (detail : list (pystr * pystr)) :
  dict_find (make_listing db date hash_id basic_info detail) (txt "price_czk")
  = Some (py_or (dict_get basic_info (txt "price") PNone)
                (dict_get basic_info (txt "price_czk") PNone)).
Proof.
  pose proof (make_listing_shape db date hash_id basic_info detail) as H.
  simpl in H. rewrite H. clear H.
  generalize (py_or (dict_get basic_info (txt "price") PNone)
                    (dict_get basic_info (txt "price_czk") PNone)).
  intros v. reflexivity.
Qed.

(** A page that is read without an exception holds objects only, and the
    pairs appended are those of its identified estates, one for each, in
    the order of the page. *)
Lemma collect_listings_pairs (estates : list pyval)
    (acc out : list (pyval * pydict)) :
  collect_listings estates acc = Ok out ->
  exists page made,
    estates = map PDict page /\ out = acc ++ made /\
    Forall2 from_estate
      (filter (fun estate =>
                 truthy (dict_get estate (txt "hash_id") PNone) = true) page)
      made.
Proof.
  revert acc. induction estates as [|e estates IH]; intros acc; simpl.
  - intros [= <-]. exists [], []. rewrite app_nil_r. split_and!; [done..|].
    constructor.
  - destruct e as [| | | | | |estate]; try discriminate. simpl.
    destruct (truthy (dict_get estate (txt "hash_id") PNone)) eqn:Ht.
    + destruct (dict_get estate (txt "price_czk") (PDict [])) eqn:Hp;
        try discriminate. simpl.
      intros (page & made & -> & -> & Hall)%IH.
      eexists (estate :: page), (_ :: made). rewrite <- app_assoc.
      split_and!; [done | reflexivity |].
      rewrite filter_cons_True by done. constructor; [| done].
      exists d. done.
    + intros (page & made & -> & -> & Hall)%IH.
      exists (estate :: page), made. split_and!; [done | done |].
      rewrite filter_cons_False; [done|]. by rewrite Ht.
Qed.

(** C9: the records are built of the pairs of the identified estates of a
    page, one pair for each estate in the order of the page, and the
    [price_czk] field of the record of an estate is that estate's [price]
    when it is truthy and that estate's [price_czk.value_raw] otherwise; a
    price of 0 counts as absent, and with both absent the field is [None],
    not the empty string. *)
Theorem price_field_of_record (db : unicode_db) (estates : list pyval)
    (listings : list (pyval * pydict)) :
  collect_listings estates [] = Ok listings ->
  exists page : list pydict,
    estates = map PDict page /\
    Forall2
      (fun estate entry =>
         from_estate estate entry /\
         forall date detail,
           let record := make_listing db date entry.1 entry.2 detail in
           let price := dict_get estate (txt "price") PNone in
           dict_find record (txt "hash_id")
             = Some (dict_get estate (txt "hash_id") PNone) /\
           dict_find record (txt "price_czk")
             = Some (if truthy price then price else value_raw_of estate) /\
           (price = PInt 0 ->
            dict_find record (txt "price_czk") = Some (value_raw_of estate)) /\
           (price = PNone -> value_raw_of estate = PNone ->
            dict_find record (txt "price_czk") = Some PNone /\
            dict_find record (txt "price_czk") <> Some (PStr (txt ""))))
      (filter (fun estate =>
                 truthy (dict_get estate (txt "hash_id") PNone) = true) page)
      listings.
Proof.
  intros (page & made & -> & -> & Hall)%collect_listings_pairs.
  exists page. split; [done|]. simpl app.
  eapply Forall2_impl; [exact Hall|].
  intros estate entry Hfrom. split; [exact Hfrom|].
  destruct Hfrom as (p & Hp & Ht & ->). intros date detail. cbv zeta.
  assert (Hprice :
    dict_find
      (make_listing db date (dict_get estate (txt "hash_id") PNone)
         [ (txt "name", dict_get estate (txt "name") (PStr []));
           (txt "locality", dict_get estate (txt "locality") (PStr []));
           (txt "price", dict_get estate (txt "price") PNone);
           (txt "price_czk", dict_get p (txt "value_raw") PNone) ] detail)
      (txt "price_czk")
    = Some (if truthy (dict_get estate (txt "price") PNone)
            then dict_get estate (txt "price") PNone
            else value_raw_of estate)).
  { rewrite make_listing_price. unfold value_raw_of. rewrite Hp. reflexivity. }
  cbn [fst snd]. split_and!.
  - pose proof (make_listing_shape db date
                  (dict_get estate (txt "hash_id") PNone)
                  [ (txt "name", dict_get estate (txt "name") (PStr []));
                    (txt "locality",
                     dict_get estate (txt "locality") (PStr []));
                    (txt "price", dict_get estate (txt "price") PNone);
                    (txt "price_czk", dict_get p (txt "value_raw") PNone) ]
                  detail) as Hshape.
    cbv zeta in Hshape. rewrite Hshape. reflexivity.
  - exact Hprice.
  - intros H0. rewrite Hprice, H0. reflexivity.
  - intros Hnone Hraw. rewrite Hprice, Hnone, Hraw. split; [reflexivity|].
    discriminate.
Qed.

Lemma price_field_of_record_witness :
  collect_listings [PDict estate_zero_price; PDict estate_without_price] []
  = Ok [ (PInt 3141592,
          [ (txt "name", PStr (txt "Pronájem bytu 1+1 38 m²"));
            (txt "locality", PStr (txt "Praha 10 - Vršovice"));
            (txt "price", PInt 0);
            (txt "price_czk", PInt 18500) ]);
         (PInt 2847161,
          [ (txt "name", PStr (txt "Pronájem bytu 2+kk 55 m²"));
            (txt "locality", PStr (txt "Praha 5 - Smíchov"));
            (txt "price", PNone);
            (txt "price_czk", PNone) ]) ]
  /\ exists page : list pydict,
       [PDict estate_zero_price; PDict estate_without_price]
       = map PDict page /\
       length
         (filter (fun estate =>
                    truthy (dict_get estate (txt "hash_id") PNone) = true)
            page) = 2%nat.
Proof.
  split; [reflexivity|].
  destruct (price_field_of_record latin1_db
              [PDict estate_zero_price; PDict estate_without_price]
              _ eq_refl) as (page & Hpage & Hall).
  exists page. split; [exact Hpage|].
  exact (Forall2_length _ _ _ Hall).
Defined.

(** ** Columns of records and rows *)


Lemma write_rows_total {R} (fields_of : R -> res (list pystr))
    (g : R -> list pystr) (ls : list R) (out : csv_file) :
  (forall l, l ∈ ls -> fields_of l = Ok (g l)) ->
  write_rows fields_of ls out = (out ++ map g ls, Ok tt).
Proof.
  revert out. induction ls as [|l ls IH]; intros out Hall; simpl.
  - by rewrite app_nil_r.
  - rewrite (Hall l) by left. rewrite IH, <- app_assoc; [done|].
    intros l' Hl'. apply Hall. by right.
Qed.


Lemma listing_fields_made (db : unicode_db) (date : pystr) (hash_id : pyval)
    (basic_info : pydict) (detail : list (pystr * pystr)) :
  listing_fields db (make_listing db date hash_id basic_info detail)
  = encode_fields
      (written_fields db (make_listing db date hash_id basic_info detail)).
Proof.
  unfold listing_fields, written_fields.
  replace (forallb (fun k => bool_decide (k ∈ CSV_COLUMNS)) _) with true;
    [done|].
  pose proof (make_listing_shape db date hash_id basic_info detail) as H.
  simpl in H. rewrite H. clear H.
  generalize (py_or (dict_get basic_info (txt "price") PNone)
                    (dict_get basic_info (txt "price_czk") PNone)).
  intros v. symmetry. vm_compute. reflexivity.
Qed.


(** ** Failed requests *)



Lemma page_loop_step (w : world) (st : state) (count page : nat)
    (all_ids : list (pyval * pydict)) :
  page_loop w (S count) page all_ids st =
    match get_listing_ids w page st with
    | (st', Ok []) => (st', Ok all_ids)
    | (st', Ok (l :: ls)) => page_loop w count (S page) (all_ids ++ l :: ls) st'
    | (st', Raise e) => (st', Raise e)
    end.
Proof.
  simpl. unfold io_bind.
  destruct (get_listing_ids w page st) as [st' [[|l ls]|e]]; reflexivity.
Qed.


Lemma detail_loop_step (db : unicode_db) (w : world) (st : state)
    (hash_id : pyval) (basic_info : pydict) (rest : list (pyval * pydict))
    (all_listings : list pydict) :
  detail_loop db w ((hash_id, basic_info) :: rest) all_listings st =
    match get_listing_detail db w hash_id st with
    | (st', Ok []) => detail_loop db w rest all_listings st'
    | (st', Ok (c :: cs)) =>
        detail_loop db w rest
          (all_listings
           ++ [make_listing db (date_at w (length (sent st'))) hash_id
                 basic_info (c :: cs)]) st'
    | (st', Raise e) => (st', Raise e)
    end.
Proof.
  simpl. unfold io_bind.
  destruct (get_listing_detail db w hash_id st) as [st' [[|c cs]|e]];
    reflexivity.
Qed.



(** Without network a whole run ends in the message that nothing was found:
    one request, no exception, no file. *)
Example offline_run :
  scrape_sreality latin1_db offline 30 None fresh_state
  = ({| sent := [ListPage 1]; disk := Some [] |}, Ok NoListingsFound).
Proof. reflexivity. Qed.

(** ** Whole runs *)

Lemma save_to_csv_overwrite {R} (fields_of : R -> res (list pystr))
    (listings : list R) (filename : pystr) (st : state) (d : directory) :
  disk st = Some d ->
  save_to_csv fields_of listings filename false st
  = ({| sent := sent st;
        disk := Some (dir_put d filename
                        (write_rows fields_of listings [CSV_COLUMNS]).1) |},
     (write_rows fields_of listings [CSV_COLUMNS]).2).
Proof.
  intros Hd. unfold save_to_csv. rewrite Hd. simpl.
  by destruct (write_rows fields_of listings [CSV_COLUMNS]).
Qed.


Lemma page_loop_disk (w : world) (count page : nat)
    (all_ids : list (pyval * pydict)) (st : state) :
  disk (page_loop w count page all_ids st).1 = disk st.
Proof.
  revert page all_ids st. induction count as [|count IH];
    intros page all_ids st; [reflexivity|].
  rewrite page_loop_step. unfold get_listing_ids, io_bind, http_get.
  destruct (respond w (length (sent st)) (ListPage page)) as [|data]; simpl.
  - reflexivity.
  - unfold lift. destruct (parse_listings data) as [[|l ls]|e]; simpl;
      [reflexivity | | reflexivity].
    by rewrite IH.
Qed.

Lemma detail_loop_disk (db : unicode_db) (w : world)
    (todo : list (pyval * pydict)) (all_listings : list pydict) (st : state) :
  disk (detail_loop db w todo all_listings st).1 = disk st.
Proof.
  revert all_listings st. induction todo as [|[h b] todo IH];
    intros all_listings st; [reflexivity|].
  rewrite detail_loop_step. unfold get_listing_detail, io_bind, http_get.
  destruct (respond w (length (sent st)) (Detail (py_str db h))) as [|data];
    simpl.
  - by rewrite IH.
  - unfold lift. destruct (parse_detail db data) as [[|c cs]|e]; simpl;
      [by rewrite IH | by rewrite IH | reflexivity].
Qed.


Lemma write_rows_ext {R} (f g : R -> res (list pystr)) (ls : list R)
    (out : csv_file) :
  (forall l, l ∈ ls -> f l = g l) ->
  write_rows f ls out = write_rows g ls out.
Proof.
  revert out. induction ls as [|l ls IH]; intros out Hall; [done|].
  simpl. rewrite (Hall l) by left.
  destruct (g l); [| done]. apply IH. intros l' Hl'. apply Hall. by right.
Qed.

(** Writing encoded rows: all of them, or those before the first one that
    cannot be encoded. *)
Lemma write_encoded_cases {R} (g : R -> list pystr) (ls : list R)
    (out : csv_file) :
  (Forall (fun l => forallb encodable (g l) = true) ls /\
   write_rows (fun l => encode_fields (g l)) ls out
   = (out ++ map g ls, Ok tt))
  \/ (exists good bad rest,
        ls = good ++ bad :: rest /\
        Forall (fun l => forallb encodable (g l) = true) good /\
        forallb encodable (g bad) = false /\
        write_rows (fun l => encode_fields (g l)) ls out
        = (out ++ map g good, Raise UnicodeEncodeError)).
Proof.
  revert out. induction ls as [|l ls IH]; intros out.
  - left. split; [constructor | by rewrite app_nil_r].
  - simpl. unfold encode_fields at 1 3.
    destruct (forallb encodable (g l)) eqn:Hl.
    + destruct (IH (out ++ [g l]))
        as [[Hall ->] | (good & bad & rest & -> & Hgood & Hbad & ->)].
      * left. split; [by constructor | by rewrite <- app_assoc].
      * right. exists (l :: good), bad, rest.
        split_and!; [done | by constructor | done | by rewrite <- app_assoc].
    + right. exists [], l, ls.
      split_and!; [done | constructor | done | by rewrite app_nil_r].
Qed.

Lemma write_rows_made (db : unicode_db) (records : list pydict)
    (out : csv_file) :
  Forall (made_record db) records ->
  write_rows (listing_fields db) records out
  = write_rows (fun l => encode_fields (written_fields db l)) records out.
Proof.
  intros Hmade. apply write_rows_ext. intros l Hl.
  rewrite Forall_forall in Hmade.
  destruct (Hmade l Hl) as (date & h & b & det & _ & ->).
  apply listing_fields_made.
Qed.

(** A whole run, step by step. *)
Lemma scrape_sreality_run (db : unicode_db) (w : world) (max_pages : Z)
    (output_file : option pystr) (st : state) :
  let st1 := {| sent := sent st; disk := Some (default [] (disk st)) |} in
  let name :=
    match output_file with
    | None => txt "sreality_prague_rent_" ++ stamp w ++ txt ".csv"
    | Some f => f
    end in
  scrape_sreality db w max_pages output_file st
  = match page_loop w (Z.to_nat max_pages) 1 [] st1 with
    | (st2, Raise e) => (st2, Raise e)
    | (st2, Ok []) => (st2, Ok NoListingsFound)
    | (st2, Ok (p :: ps)) =>
        match filter_known db (load_existing_ids (disk st)) (p :: ps) with
        | [] => (st2, Ok NoNewListings)
        | t :: ts =>
            match detail_loop db w (t :: ts) [] st2 with
            | (st3, Raise e) => (st3, Raise e)
            | (st3, Ok records) =>
                if entry_name name
                then
                  ({| sent := sent st3;
                      disk :=
                        Some (dir_put (default [] (disk st)) name
                                (write_rows (listing_fields db) records
                                   [CSV_COLUMNS]).1) |},
                   match (write_rows (listing_fields db) records
                            [CSV_COLUMNS]).2 with
                   | Ok _ => Ok (Saved name (length records))
                   | Raise e => Raise e
                   end)
                else
                  (st3, Ok (SaveOutside (path_join OUTPUT_DIR name)
                              (length records)))
            end
        end
    end.
Proof.
  intros st1 name.
  unfold scrape_sreality, io_bind at 1. unfold makedirs. fold st1 name.
  unfold io_bind at 1.
  pose proof (page_loop_disk w (Z.to_nat max_pages) 1 [] st1) as Hd2.
  destruct (page_loop w (Z.to_nat max_pages) 1 [] st1) as [st2 [[|p ps]|e]];
    try reflexivity.
  unfold io_bind at 1, read_existing_ids. simpl in Hd2. rewrite Hd2.
  replace (load_existing_ids (Some (default [] (disk st))))
    with (load_existing_ids (disk st)) by (by destruct (disk st)).
  destruct (filter_known _ _ _) as [|t ts]; [reflexivity|].
  unfold io_bind at 1.
  pose proof (detail_loop_disk db w (t :: ts) [] st2) as Hd3.
  destruct (detail_loop db w (t :: ts) [] st2) as [st3 [records|e]];
    [| reflexivity].
  simpl in Hd3. rewrite Hd2 in Hd3.
  destruct (entry_name name); [| reflexivity].
  unfold io_bind.
  rewrite (save_to_csv_overwrite _ _ _ st3 (default [] (disk st))) by done.
  by destruct (write_rows (listing_fields db) records [CSV_COLUMNS]).2.
Qed.



(** One page of three estates: the known one is filtered out, the one whose
    detail request fails leaves no record, the third is written. *)
Example sample_run :
  scrape_sreality latin1_db sample_world 30 None sample_state
  = ({| sent := [ ListPage 1; ListPage 2;
                  Detail (txt "3141592"); Detail (txt "2847161") ];
        disk :=
          Some [ (txt "sreality_prague_rent_20240430_120000.csv",
                  [ [txt "hash_id"; txt "name"];
                    [txt "777"; txt "Pronájem bytu 3+1 80 m²"] ]);
                 (txt "sreality_prague_rent_20240501_120000.csv",
                  [ CSV_COLUMNS;
                    map txt
                      [ "2024-05-01"; "3141592"; "Pronájem bytu 1+1 38 m²";
                        "Praha 10 - Vršovice"; "Praha 10"; "Vršovice"; "18500";
                        "38"; "1+1"; ""; ""; ""; "Lednice, Pračka, 3"; "True";
                        ""; ""; ""; ""; ""; ""; ""; ""; ""; "" ]%string ]) ] |},
     Ok (Saved (txt "sreality_prague_rent_20240501_120000.csv") 1)).
Proof. vm_compute. reflexivity. Qed.

(** A record that cannot be encoded ends the run while the file is written:
    the rows before it stay, the exception leaves the program. *)
Example surrogate_run :
  scrape_sreality latin1_db surrogate_world 30 (Some (txt "out.csv"))
    fresh_state
  = ({| sent := [ ListPage 1; ListPage 2;
                  Detail (txt "6"); Detail (txt "5") ];
        disk :=
          Some [ (txt "out.csv",
                  [ CSV_COLUMNS;
                    map txt
                      [ "2024-05-01"; "6"; "good"; ""; ""; ""; ""; ""; "";
                        ""; ""; ""; "Lednice, Pračka, 3"; "True";
                        ""; ""; ""; ""; ""; ""; ""; ""; ""; "" ]%string ]) ] |},
     Raise UnicodeEncodeError).
Proof. vm_compute. reflexivity. Qed.

(** An output name with a separator leads out of the entries of the
    directory. *)
Example outside_run :
  scrape_sreality latin1_db sample_world 30 (Some (txt "sub/out.csv"))
    sample_state
  = ({| sent := [ ListPage 1; ListPage 2;
                  Detail (txt "3141592"); Detail (txt "2847161") ];
        disk := disk sample_state |},
     Ok (SaveOutside (txt "data/sub/out.csv") 1)).
Proof. vm_compute. reflexivity. Qed.

(** ** Columns of every record and row *)





(** * Further properties of the code *)

(** ** The matcher against the language of a pattern *)

Lemma match_here_sound {A} (r : regex) (s : pystr) (g : option pystr)
    (k : pystr -> option pystr -> option A) (m : A) :
  match_here r s g k = Some m ->
  exists s1 s2 g', s = s1 ++ s2 /\ matches r s1 g g' /\ k s2 g' = Some m.
Proof.
  revert s g k m. induction r as [|p|r1 IH1 r2 IH2|r1 IH1 r2 IH2|p|r1 IH1];
    intros s g k m; simpl.
  - intros H. exists [], s, g. split_and!; [done | constructor | done].
  - destruct s as [|c s']; [discriminate|].
    destruct (p c) eqn:Hp; [| discriminate].
    intros H. exists [c], s', g. split_and!; [done | by constructor | done].
  - intros (s1 & t & g1 & -> & H1 & Hk)%IH1.
    apply IH2 in Hk as (s2 & s3 & g2 & -> & H2 & Hk).
    exists (s1 ++ s2), s3, g2. rewrite <- app_assoc.
    split_and!; [done | by econstructor | done].
  - destruct (match_here r1 s g k) as [m1|] eqn:E1.
    + intros [= <-]. apply IH1 in E1 as (s1 & s2 & g' & -> & H1 & Hk).
      exists s1, s2, g'. split_and!; [done | by apply matches_alt_l | done].
    + intros (s1 & s2 & g' & -> & H2 & Hk)%IH2.
      exists s1, s2, g'. split_and!; [done | by apply matches_alt_r | done].
  - induction s as [|c s' IHs].
    + intros H. exists [], [], g.
      split_and!; [done | by constructor | done].
    + destruct (p c) eqn:Hp.
      * destruct ((fix many (s : pystr) : option A := _) s') as [m1|] eqn:E.
        -- intros [= <-].
           destruct (IHs eq_refl) as (s1 & s2 & g' & -> & H1 & Hk).
           inversion H1; subst.
           exists (c :: s1), s2, g'.
           split_and!; [done | constructor; by constructor | done].
        -- intros H. exists [], (c :: s'), g.
           split_and!; [done | by constructor | done].
      * intros H. exists [], (c :: s'), g.
        split_and!; [done | by constructor | done].
  - intros (s1 & s2 & g1 & -> & H1 & Hk)%IH1.
    rewrite length_app, Nat.add_sub, take_app_length in Hk.
    exists s1, s2, (Some s1). split_and!; [done | by econstructor | done].
Qed.

Lemma match_here_complete {A} (r : regex) (s1 : pystr) (g g' : option pystr) :
  matches r s1 g g' ->
  forall (s2 : pystr) (k : pystr -> option pystr -> option A),
    is_Some (k s2 g') -> is_Some (match_here r (s1 ++ s2) g k).
Proof.
  induction 1 as [g|p c g Hp|r1 r2 s1 s2 g g1 g2 _ IH1 _ IH2
                  |r1 r2 s g g' _ IH|r1 r2 s g g' _ IH|p s g Hall
                  |r s g g' _ IH]; intros t k Hk; simpl.
  - done.
  - by rewrite Hp.
  - rewrite <- app_assoc. apply IH1, IH2, Hk.
  - destruct (IH t k Hk) as [m Hm]. rewrite Hm. by eexists.
  - destruct (match_here r1 (s ++ t) g k); [by eexists | by apply IH].
  - induction Hall as [|c s Hc _ IHs]; simpl.
    + destruct t as [|c t]; [done|].
      destruct (p c); [| done].
      by destruct ((fix many (s : pystr) : option A := _) t).
    + rewrite Hc. destruct IHs as [m Hm]. rewrite Hm. by eexists.
  - apply IH. by rewrite length_app, Nat.add_sub, take_app_length.
Qed.

Lemma re_search_sound (r : regex) (text : pystr) (g : option pystr) :
  re_search r text = Some g ->
  exists pre mid post, text = pre ++ mid ++ post /\ matches r mid None g.
Proof.
  induction text as [|c text IH]; simpl.
  - destruct (match_here r [] None _) as [g0|] eqn:E; [| discriminate].
    intros [= <-].
    apply match_here_sound in E as (s1 & s2 & g' & Hs & Hm & [= <-]).
    exists [], s1, s2. done.
  - destruct (match_here r (c :: text) None _) as [g0|] eqn:E.
    + intros [= <-].
      apply match_here_sound in E as (s1 & s2 & g' & Hs & Hm & [= <-]).
      exists [], s1, s2. done.
    + intros (pre & mid & post & -> & Hm)%IH.
      exists (c :: pre), mid, post. done.
Qed.

Lemma re_search_complete (r : regex) (text : pystr) :
  occurs r text -> is_Some (re_search r text).
Proof.
  intros (pre & mid & post & g & -> & Hm).
  induction pre as [|c pre IH]; simpl.
  - pose proof (match_here_complete (A := option pystr) r mid None g Hm post
                  (fun _ g => Some g)) as [m Hk]; [by eexists|].
    simpl in Hk. destruct (mid ++ post); simpl; rewrite Hk; by eexists.
  - destruct (match_here r (c :: pre ++ mid ++ post) None _); [by eexists|].
    exact IH.
Qed.

(** The search finds nothing exactly when no part of the text matches. *)
Lemma re_search_none (r : regex) (text : pystr) :
  re_search r text = None <-> ~ occurs r text.
Proof.
  split.
  - intros Hn Ho. apply re_search_complete in Ho as [g Hg]. congruence.
  - intros Hno. destruct (re_search r text) as [g|] eqn:E; [| done].
    destruct Hno. apply re_search_sound in E as (pre & mid & post & ? & ?).
    by exists pre, mid, post, g.
Qed.

Lemma re_search_at (r : regex) (text : pystr) (g : option pystr) :
  re_search r text = Some g ->
  exists pre rest,
    text = pre ++ rest /\
    match_here r rest None (fun _ g => Some g) = Some g.
Proof.
  induction text as [|c text IH]; simpl.
  - destruct (match_here r [] None _) as [g0|] eqn:E; [| discriminate].
    intros [= <-]. by exists [], [].
  - destruct (match_here r (c :: text) None _) as [g0|] eqn:E.
    + intros [= <-]. by exists [], (c :: text).
    + intros (pre & rest & -> & H)%IH. by exists (c :: pre), rest.
Qed.

Lemma lit_matches (w s : pystr) (g g' : option pystr) :
  matches (lit w) s g g' <-> s = w /\ g' = g.
Proof.
  revert s g g'. induction w as [|c w IH]; intros s g g'; simpl.
  - split; [by inversion 1 | intros [-> ->]; constructor].
  - split.
    + inversion 1 as [| |r1 r2 s1 s2 g0 g1 g2 H1 H2| | | |]; subst.
      inversion H1; subst. apply IH in H2 as [-> ->].
      match goal with H : (_ =? _) = true |- _ => apply N.eqb_eq in H as -> end.
      done.
    + intros [-> ->]. apply (matches_cat _ _ [c] w g g g).
      * constructor. apply N.eqb_refl.
      * by apply IH.
Qed.

Lemma one_or_more_matches (p : N -> bool) (s : pystr) (g g' : option pystr) :
  matches (one_or_more p) s g g' <->
  s <> [] /\ Forall (fun c => p c = true) s /\ g' = g.
Proof.
  unfold one_or_more. split.
  - inversion 1 as [| |r1 r2 s1 s2 g0 g1 g2 H1 H2| | | |]; subst.
    inversion H1; subst. inversion H2; subst.
    split_and!; [done | by constructor | done].
  - intros (Hne & Hall & ->). destruct s as [|c s]; [done|].
    inversion Hall; subst.
    apply (matches_cat _ _ [c] s g g g); by constructor.
Qed.

Lemma chr_matches (c : N) (s : pystr) (g g' : option pystr) :
  matches (chr c) s g g' <-> s = [c] /\ g' = g.
Proof.
  unfold chr. split.
  - inversion 1; subst.
    match goal with H : (_ =? _) = true |- _ => apply N.eqb_eq in H as -> end.
    done.
  - intros [-> ->]. constructor. apply N.eqb_refl.
Qed.

Lemma many_matches (p : N -> bool) (s : pystr) (g g' : option pystr) :
  matches (Many p) s g g' <-> Forall (fun c => p c = true) s /\ g' = g.
Proof.
  split; [by inversion 1 | intros [H ->]; by constructor].
Qed.

Lemma cat_matches (r1 r2 : regex) (s : pystr) (g g' : option pystr) :
  matches (Cat r1 r2) s g g' <->
  exists s1 s2 g1, s = s1 ++ s2 /\ matches r1 s1 g g1 /\ matches r2 s2 g1 g'.
Proof.
  split.
  - inversion 1; subst. by eexists _, _, _.
  - intros (s1 & s2 & g1 & -> & Ha & Hb). by econstructor.
Qed.

Lemma grp_matches (r : regex) (s : pystr) (g g' : option pystr) :
  matches (Grp r) s g g' <-> g' = Some s /\ exists g1, matches r s g g1.
Proof.
  split.
  - inversion 1; subst. split; [done | by eexists].
  - intros [-> [g1 Hr]]. by econstructor.
Qed.

(** ** Room count *)

Lemma rooms_matches (db : unicode_db) (s : pystr) (g g' : option pystr) :
  matches (rooms_re db) s g g' <-> room_token db s /\ g' = Some s.
Proof.
  unfold rooms_re, room_token, ichr. split.
  - inversion 1 as [| | | | | |r s0 g0 g1 Hin]; subst. split; [| done].
    inversion Hin as [| |r1 r2 s1 s2 ? ? ? Hd Hrest| | | |]; subst.
    inversion Hd; subst.
    inversion Hrest as [| |r1 r2 s1 s3 ? ? ? Hplus Htail| | | |]; subst.
    apply chr_matches in Hplus as [-> _].
    eexists _, s3. split_and!; [done | done |].
    inversion Htail as [| | |? ? ? ? ? Hkk|? ? ? ? ? Hn| |]; subst.
    + left.
      inversion Hkk as [| |? ? ? ? ? ? ? Ha Hb| | | |]; subst.
      inversion Ha; subst. inversion Hb; subst.
      eexists _, _. split_and!; [done | |];
        match goal with H : (_ =? _) = true |- _ => by apply N.eqb_eq in H end.
    + right.
      inversion Hn as [| | |? ? ? ? ? Hone|? ? ? ? ? Hmore| |]; subst.
      * apply chr_matches in Hone as [-> _]. by left.
      * inversion Hmore as [| | |? ? ? ? ? Htwo|? ? ? ? ? Hthree| |]; subst.
        -- apply chr_matches in Htwo as [-> _]. right. by left.
        -- apply chr_matches in Hthree as [-> _]. right. by right.
  - intros [(d & tail & -> & Hd & Htail) ->]. apply (matches_grp _ _ g g).
    apply (matches_cat _ _ [d] (0x2B :: tail) g g g); [by constructor|].
    apply (matches_cat _ _ [0x2B] tail g g g); [by apply chr_matches|].
    destruct Htail as [(a & b & -> & Ha & Hb) | [-> | [-> | ->]]].
    + apply matches_alt_l.
      apply (matches_cat _ _ [a] [b] g g g); constructor;
        apply N.eqb_eq; by rewrite ?Ha, ?Hb.
    + apply matches_alt_r, matches_alt_l. by apply chr_matches.
    + apply matches_alt_r, matches_alt_r, matches_alt_l. by apply chr_matches.
    + apply matches_alt_r, matches_alt_r, matches_alt_r. by apply chr_matches.
Qed.

(** X1: the room extractor returns a room token exactly as it is written in
    the name when the name holds one; only when it holds none does it look
    for "atypick" in the lower-cased name, and returns the fixed token or
    the empty string. *)
Theorem extract_rooms_cases (db : unicode_db) (name : pyval) :
  let text := py_str db name in
  let rooms := extract_rooms_from_name db name in
  (room_token db rooms /\ exists pre post, text = pre ++ rooms ++ post)
  \/ (~ has_room_token db text /\
      contains (txt "atypick") (py_lower db text) = true /\
      rooms = txt "atypicky")
  \/ (~ has_room_token db text /\
      contains (txt "atypick") (py_lower db text) = false /\
      rooms = txt "").
Proof.
  intros text rooms. unfold rooms, extract_rooms_from_name. fold text.
  destruct (re_search (rooms_re db) text) as [g|] eqn:E.
  - left. apply re_search_sound in E as (pre & mid & post & -> & Hm).
    apply rooms_matches in Hm as [Htok ->]. simpl. split; [done|].
    by exists pre, post.
  - right. apply re_search_none in E.
    assert (Hno : ~ has_room_token db text).
    { intros (pre & t & post & Heq & Htok). apply E.
      exists pre, t, post, (Some t). split; [done|]. by apply rooms_matches. }
    destruct (contains _ _); [left | right]; done.
Qed.

(** ** Size, district and neighborhood *)

Lemma match_here_cat {A} (r1 r2 : regex) (s : pystr) (g : option pystr)
    (k : pystr -> option pystr -> option A) :
  match_here (Cat r1 r2) s g k
  = match_here r1 s g (fun s' g' => match_here r2 s' g' k).
Proof. reflexivity. Qed.

Lemma take_consumed (a b : pystr) :
  take (length (a ++ b) - length b) (a ++ b) = a.
Proof. by rewrite length_app, Nat.add_sub, take_app_length. Qed.

Lemma match_here_grp {A} (r : regex) (s : pystr) (g : option pystr)
    (k : pystr -> option pystr -> option A) :
  match_here (Grp r) s g k
  = match_here r s g
      (fun s' _ => k s' (Some (take (length s - length s') s))).
Proof. reflexivity. Qed.

Lemma match_here_cls {A} (p : N -> bool) (s : pystr) (g : option pystr)
    (k : pystr -> option pystr -> option A) :
  match_here (Cls p) s g k
  = match s with
    | c :: s' => if p c then k s' g else None
    | [] => None
    end.
Proof. reflexivity. Qed.

(** A repetition whose continuation never fails takes the whole run. *)
Lemma many_longest {A} (p : N -> bool) (g : option pystr)
    (k : pystr -> option pystr -> option A) :
  (forall s, is_Some (k s g)) ->
  forall s, exists taken rest,
    s = taken ++ rest /\ Forall (fun c => p c = true) taken /\
    match rest with c :: _ => p c = false | [] => True end /\
    match_here (Many p) s g k = k rest g.
Proof.
  intros Hk. induction s as [|c s IH]; simpl.
  - exists [], []. split_and!; [done | constructor | done | done].
  - destruct (p c) eqn:Hp.
    + destruct IH as (taken & rest & -> & Htk & Hrest & Hm).
      exists (c :: taken), rest. simpl in Hm.
      split_and!; [done | by constructor | done |].
      rewrite Hm. by destruct (Hk rest) as [m ->].
    + exists [], (c :: s). split_and!; [done | constructor | done | done].
Qed.

(** The last group of a pattern, when it is a taken of one class: it takes
    every character of the class that follows. *)
Lemma final_group_run (p : N -> bool) (s : pystr) (g gm : option pystr) :
  match_here (Grp (one_or_more p)) s g (fun _ g' => Some g') = Some gm ->
  exists ds rest,
    s = ds ++ rest /\ ds <> [] /\ Forall (fun c => p c = true) ds /\
    match rest with c :: _ => p c = false | [] => True end /\
    gm = Some ds.
Proof.
  unfold one_or_more. rewrite match_here_grp, match_here_cat, match_here_cls.
  destruct s as [|c s]; [discriminate|].
  destruct (p c) eqn:Hp; [| discriminate].
  set (k := fun (s' : pystr) (_ : option pystr) =>
              Some (Some (take (length (c :: s) - length s') (c :: s)))).
  destruct (many_longest p g k (fun s0 => ltac:(by eexists)) s)
    as (taken & rest & -> & Htk & Hrest & Hm).
  match goal with |- _ -> ?G =>
    change (match_here (Many p) (taken ++ rest) g k = Some gm -> G) end.
  rewrite Hm. unfold k. intros [= <-].
  exists (c :: taken), rest.
  split_and!; [done | done | by constructor | done |].
  f_equal. apply (take_consumed (c :: taken) rest).
Qed.

Lemma size_matches (db : unicode_db) (s : pystr) (g g' : option pystr) :
  matches (size_re db) s g g' <->
  exists ds ws u,
    s = ds ++ ws ++ [0x6D; u] /\
    ds <> [] /\ Forall (fun c => is_digit db c = true) ds /\
    Forall (fun c => is_space c = true) ws /\ (u = 0xB2 \/ u = 0x32) /\
    g' = Some ds.
Proof.
  unfold size_re. split.
  - inversion 1 as [| |? ? ds s2 ? ? ? Hg Hrest| | | |]; subst.
    inversion Hg as [| | | | | |? ? ? ? Hds]; subst.
    apply one_or_more_matches in Hds as (Hne & Hds & _).
    inversion Hrest as [| |? ? ws s3 ? ? ? Hws Hunit| | | |]; subst.
    apply many_matches in Hws as [Hws Hg1].
    inversion Hunit as [| |? ? sm su ? ? ? Hm Hu| | | |]; subst.
    apply chr_matches in Hm as [-> Hg2].
    inversion Hu as [|? u ? Hu'| | | | |]; subst.
    exists ds, ws, u. split_and!; try done.
    apply orb_true_iff in Hu' as [Hu' | Hu']; apply N.eqb_eq in Hu'; auto.
  - intros (ds & ws & u & -> & Hne & Hds & Hws & Hu & ->).
    apply (matches_cat _ _ ds _ g (Some ds) (Some ds)).
    + apply (matches_grp _ _ g g). by apply one_or_more_matches.
    + apply (matches_cat _ _ ws _ _ (Some ds)); [by constructor|].
      apply (matches_cat _ _ [0x6D] [u] _ (Some ds)); [by apply chr_matches|].
      constructor. destruct Hu as [-> | ->]; reflexivity.
Qed.

(** X2: the size extractor returns a non-empty run of digits of the name
    that is followed, after optional whitespace, by m² or m2; it returns the
    empty string only when the name holds no such run. *)
Theorem extract_size_cases (db : unicode_db) (name : pyval) :
  let text := py_str db name in
  let size := extract_size_from_name db name in
  size_mark db text size
  \/ (size = txt "" /\ forall ds, ~ size_mark db text ds).
Proof.
  intros text size. unfold size, extract_size_from_name. fold text.
  destruct (re_search (size_re db) text) as [g|] eqn:E.
  - left. apply re_search_sound in E as (pre & mid & post & -> & Hm).
    apply size_matches in Hm as (ds & ws & u & -> & Hne & Hds & Hws & Hu & ->).
    exists pre, ws, u, post. simpl. rewrite <- !app_assoc. done.
  - right. split; [done|]. apply re_search_none in E.
    intros ds (pre & ws & u & post & Heq & Hne & Hds & Hws & Hu). apply E.
    exists pre, (ds ++ ws ++ [0x6D; u]), post, (Some ds).
    split; [by rewrite Heq, <- !app_assoc|].
    apply size_matches. by exists ds, ws, u.
Qed.

Lemma district_matches (db : unicode_db) (s : pystr) (g g' : option pystr) :
  matches (district_re db) s g g' <->
  exists ws ds,
    s = txt "Praha" ++ ws ++ ds /\
    ws <> [] /\ Forall (fun c => is_space c = true) ws /\
    ds <> [] /\ Forall (fun c => is_digit db c = true) ds /\ g' = Some ds.
Proof.
  unfold district_re. split.
  - intros (s1 & s2 & g1 & -> & Hp & Hrest)%cat_matches.
    apply lit_matches in Hp as [-> ->].
    apply cat_matches in Hrest as (ws & s3 & g2 & -> & Hws & Hg).
    apply one_or_more_matches in Hws as (Hwne & Hws & ->).
    apply grp_matches in Hg as [-> [g3 Hds]].
    apply one_or_more_matches in Hds as (Hne & Hds & _).
    by exists ws, s3.
  - intros (ws & ds & -> & Hwne & Hws & Hne & Hds & ->).
    apply (matches_cat _ _ _ _ g g); [by apply lit_matches|].
    apply (matches_cat _ _ ws ds g g); [by apply one_or_more_matches|].
    apply (matches_grp _ _ g g). by apply one_or_more_matches.
Qed.

(** X3: the district parser finds "Praha", whitespace and digits in the
    locality text and returns "Praha", one space and the whole run of
    digits, however the text spaces them; it returns the empty string only
    when the text names no district. *)
Theorem parse_district_cases (db : unicode_db) (locality_text : pyval) :
  let text := py_str db locality_text in
  let district := parse_district db locality_text in
  (exists ds rest,
      district_mark db text ds rest /\ no_digit_ahead db rest /\
      district = txt "Praha " ++ ds)
  \/ (district = txt "" /\ forall ds rest, ~ district_mark db text ds rest).
Proof.
  intros text district. unfold district, parse_district. fold text.
  destruct (re_search (district_re db) text) as [g|] eqn:E.
  - left. apply re_search_at in E as (pre & t & -> & Hm).
    unfold district_re in Hm. rewrite match_here_cat in Hm.
    apply match_here_sound in Hm as (s1 & t1 & g1 & -> & Hp & Hm).
    apply lit_matches in Hp as [-> ->]. rewrite match_here_cat in Hm.
    apply match_here_sound in Hm as (ws & t2 & g2 & -> & Hws & Hm).
    apply one_or_more_matches in Hws as (Hwne & Hws & ->).
    apply final_group_run in Hm as (ds & rest & -> & Hne & Hds & Hrest & ->).
    exists ds, rest. split_and!; [| exact Hrest | done].
    by exists pre, ws.
  - right. split; [done|]. apply re_search_none in E.
    intros ds rest (pre & ws & Heq & Hwne & Hws & Hne & Hds). apply E.
    exists pre, (txt "Praha" ++ ws ++ ds), rest, (Some ds).
    split; [by rewrite Heq, <- !app_assoc|].
    apply district_matches. by exists ws, ds.
Qed.

Lemma lstrip_split (s : pystr) :
  exists sp, s = sp ++ lstrip s /\ Forall (fun c => is_space c = true) sp.
Proof.
  induction s as [|c s (sp & Hs & Hsp)]; simpl.
  - by exists [].
  - destruct (is_space c) eqn:Hc.
    + exists (c :: sp). split; [by rewrite Hs at 1 | by constructor].
    + by exists [].
Qed.

Lemma lstrip_head (s : pystr) (c : N) :
  head (lstrip s) = Some c -> is_space c = false.
Proof.
  induction s as [|a s IH]; simpl; [discriminate|].
  destruct (is_space a) eqn:Ha; [exact IH|]. by intros [= <-].
Qed.

Lemma last_rev {A} (l : list A) : last (rev l) = head l.
Proof. destruct l as [|a l]; [done|]. simpl. apply last_snoc. Qed.

(** What [strip] cuts off, on both sides. *)
Lemma strip_split (s : pystr) :
  exists before after, s = before ++ strip s ++ after.
Proof.
  destruct (lstrip_split s) as (sp1 & Hs & _).
  destruct (lstrip_split (rev (lstrip s))) as (sp2 & Ht & _).
  exists sp1, (rev sp2). unfold strip.
  rewrite <- rev_app_distr, <- Ht, rev_involutive. exact Hs.
Qed.

Lemma strip_trimmed (s : pystr) : trimmed (strip s).
Proof.
  split; intros c Hc.
  - destruct (lstrip_split (rev (lstrip s))) as (sp2 & Ht & _).
    apply (f_equal (@rev N)) in Ht.
    rewrite rev_involutive, rev_app_distr in Ht. fold (strip s) in Ht.
    apply (lstrip_head s). rewrite Ht.
    destruct (strip s); [discriminate | exact Hc].
  - unfold strip in Hc. rewrite last_rev in Hc. by apply lstrip_head in Hc.
Qed.

Lemma neighborhood_matches (db : unicode_db) (s : pystr) (g g' : option pystr) :
  matches (neighborhood_re db) s g g' ->
  exists ws ds between tail,
    s = txt "Praha" ++ ws ++ ds ++ between ++ tail /\
    ws <> [] /\ Forall (fun c => is_space c = true) ws /\
    ds <> [] /\ Forall (fun c => is_digit db c = true) ds /\
    tail <> [] /\ Forall (fun c => c <> 10) tail /\ g' = Some tail.
Proof.
  unfold neighborhood_re.
  intros (s1 & r1 & g1 & -> & Hp & H)%cat_matches.
  apply lit_matches in Hp as [-> ->].
  apply cat_matches in H as (ws & r2 & g2 & -> & Hws & H).
  apply one_or_more_matches in Hws as (Hwne & Hws & ->).
  apply cat_matches in H as (ds & r3 & g3 & -> & Hds & H).
  apply one_or_more_matches in Hds as (Hne & Hds & ->).
  apply cat_matches in H as (w2 & r4 & g4 & -> & _ & H).
  apply cat_matches in H as (dash & r5 & g5 & -> & _ & H).
  apply cat_matches in H as (w3 & tail & g6 & -> & _ & H).
  apply grp_matches in H as [-> [g7 Htail]].
  apply one_or_more_matches in Htail as (Htne & Htail & _).
  exists ws, ds, (w2 ++ dash ++ w3), tail. rewrite <- !app_assoc.
  split_and!; try done.
  eapply Forall_impl; [exact Htail|]. simpl.
  intros c Hc ->. discriminate.
Qed.

(** X4: the neighborhood parser returns text without whitespace at either
    end and without a line feed, taken from the locality text; and whenever
    it returns a neighborhood, the district parser returns a district for
    the same text. *)
Theorem parse_neighborhood_trimmed (db : unicode_db) (locality_text : pyval) :
  let text := py_str db locality_text in
  let hood := parse_neighborhood db locality_text in
  trimmed hood
  /\ Forall (fun c => c <> 10) hood
  /\ (exists before after, text = before ++ hood ++ after)
  /\ (hood <> txt "" -> parse_district db locality_text <> txt "").
Proof.
  intros text hood. unfold hood, parse_neighborhood. fold text.
  destruct (re_search (neighborhood_re db) text) as [g|] eqn:E.
  - apply re_search_sound in E as (pre & mid & post & Htext & Hm).
    apply neighborhood_matches in Hm
      as (ws & ds & between & tail & -> & Hwne & Hws & Hne & Hds
          & Htne & Htail & ->).
    simpl group1. destruct (strip_split tail) as (sp1 & sp2 & Hsplit).
    split_and!.
    + apply strip_trimmed.
    + rewrite Hsplit in Htail.
      by apply Forall_app in Htail as [_ [H _]%Forall_app].
    + exists (pre ++ txt "Praha" ++ ws ++ ds ++ between ++ sp1), (sp2 ++ post).
      rewrite Htext. rewrite Hsplit at 1. by rewrite <- !app_assoc.
    + intros _. unfold parse_district. fold text.
      destruct (re_search (district_re db) text) as [gd|] eqn:Ed.
      * change (txt "Praha ") with (0x50 :: txt "raha "). discriminate.
      * apply re_search_none in Ed. destruct Ed.
        exists pre, (txt "Praha" ++ ws ++ ds), (between ++ tail ++ post),
          (Some ds).
        split; [by rewrite Htext, <- !app_assoc|].
        apply district_matches. by exists ws, ds.
  - split_and!; [split; discriminate | constructor | | done].
    by exists [], text.
Qed.

(** ** Attribute normalizer: errors and empty values *)

(** X5: what [extract_attribute] does outside its contract.  With no
    candidate it returns the empty string whatever the items are; with a
    candidate, items that cannot be iterated raise [TypeError]; an item
    that is not a dict raises [AttributeError] once the scan reaches it,
    also when a later candidate would have matched an earlier item; an
    item after the first match is never looked at. *)
Theorem extract_attribute_outside_contract (db : unicode_db)
    (name : pystr) (more : list pystr) :
  (forall items, extract_attribute db items [] = Ok (txt ""))
  /\ (forall items,
        match items with
        | PList _ | PDict _ | PStr _ => True
        | _ => extract_attribute db items (name :: more) = Raise TypeError
        end)
  /\ (forall (good : list pydict) bad rest,
        (forall it, it ∈ good -> ~ has_label name it) ->
        (forall d, bad <> PDict d) ->
        extract_attribute db (PList (map PDict good ++ bad :: rest))
          (name :: more) = Raise AttributeError)
  /\ (forall (good : list pydict) item rest,
        (forall it, it ∈ good -> ~ has_label name it) ->
        has_label name item ->
        extract_attribute db (PList (map PDict good ++ PDict item :: rest))
          (name :: more) = Ok (normalize db (value_of item)))
  /\ (forall c s k v d,
        extract_attribute db (PStr (c :: s)) (name :: more)
          = Raise AttributeError /\
        extract_attribute db (PDict ((k, v) :: d)) (name :: more)
          = Raise AttributeError).
Proof.
  assert (Hscan : forall (good : list pydict) tail,
            (forall it, it ∈ good -> ~ has_label name it) ->
            scan_items db (map PDict good ++ tail) name
            = scan_items db tail name).
  { intros good tail. induction good as [|a good IH]; intros Hno; [done|].
    simpl app. rewrite scan_items_dict.
    destruct (eq_str _ name) eqn:E.
    - apply eq_str_label in E. destruct (Hno a); [left | done].
    - apply IH. intros it Hit. apply Hno. by right. }
  split_and!.
  - reflexivity.
  - by intros [].
  - intros good bad rest Hno Hbad. simpl. rewrite Hscan by done.
    destruct bad; try reflexivity. by destruct (Hbad d).
  - intros good item rest Hno Hl. simpl. rewrite Hscan by done.
    rewrite scan_items_dict. apply eq_str_label in Hl. by rewrite Hl.
  - intros c s k v d. split; reflexivity.
Qed.

(** X6: the first match decides the result even when its value is empty: a
    [null] value, a missing value or an empty list gives the empty string,
    and no later candidate or item is consulted. *)
Theorem empty_value_is_final (db : unicode_db) (items : list pydict)
    (names : list pystr) (item : pydict) :
  first_match items names item ->
  value_of item = PNone \/ value_of item = PList [] ->
  extract_attribute db (PList (map PDict items)) names = Ok (txt "").
Proof.
  intros Hfm Hv. rewrite (extract_attribute_at_first_match db _ _ item Hfm).
  by destruct Hv as [-> | ->].
Qed.

Lemma empty_value_is_final_witness :
  first_match [condition_null_item; condition_item]
    [txt "Stav objektu"; txt "Stav"] condition_null_item
  /\ (value_of condition_null_item = PNone \/
      value_of condition_null_item = PList [])
  /\ extract_attribute latin1_db
       (PList (map PDict [condition_null_item; condition_item]))
       [txt "Stav objektu"; txt "Stav"] = Ok (txt "").
Proof.
  assert (Hfm : first_match [condition_null_item; condition_item]
                  [txt "Stav objektu"; txt "Stav"] condition_null_item).
  { exists [], (txt "Stav objektu"), [txt "Stav"], [], [condition_item].
    split_and!; try reflexivity.
    - intros c' it Hc. by apply elem_of_nil in Hc.
    - intros it Hit. by apply elem_of_nil in Hit. }
  split; [exact Hfm|]. split; [by left|].
  apply (empty_value_is_final latin1_db _ _ condition_null_item Hfm).
  by left.
Defined.

(** ** Reading a result page *)

Lemma collect_listings_step (estate : pydict) (rest : list pyval)
    (acc : list (pyval * pydict)) :
  collect_listings (PDict estate :: rest) acc =
    if has_id estate
    then match dict_get estate (txt "price_czk") (PDict []) with
         | PDict _ => collect_listings rest (acc ++ [entry_of estate])
         | _ => Raise AttributeError
         end
    else collect_listings rest acc.
Proof.
  unfold has_id, entry_of, value_raw_of. simpl.
  destruct (truthy _); [| done].
  by destruct (dict_get estate (txt "price_czk") (PDict [])).
Qed.

(** X7: a page whose estates can all be read yields one pair per estate
    with a true identifier, in page order, each with the four basic fields
    read with their defaults; estates without identifier are passed over,
    and a page without ["_embedded"] or ["estates"] yields the empty
    list. *)
Theorem readable_page_listings (estates : list pydict)
    (acc : list (pyval * pydict)) :
  (forall e, e ∈ estates -> readable e) ->
  collect_listings (map PDict estates) acc
    = Ok (acc ++ map entry_of (filter (fun e => has_id e = true) estates))
  /\ (forall page embedded,
        dict_get page (txt "_embedded") (PDict []) = PDict embedded ->
        dict_get embedded (txt "estates") (PList [])
          = PList (map PDict estates) ->
        parse_listings (PDict page)
          = Ok (map entry_of (filter (fun e => has_id e = true) estates))).
Proof.
  intros Hall.
  assert (Hloop : forall acc0,
            collect_listings (map PDict estates) acc0
            = Ok (acc0 ++ map entry_of
                    (filter (fun e => has_id e = true) estates))).
  { clear acc. induction estates as [|e estates IH]; intros acc0.
    - simpl. by rewrite app_nil_r.
    - rewrite map_cons, collect_listings_step, filter_cons.
      assert (Hrest : forall x, x ∈ estates -> readable x).
      { intros x Hx. apply Hall. by right. }
      destruct (has_id e) eqn:Hid.
      + destruct (Hall e) as [p Hp]; [left | done |]. rewrite Hp.
        rewrite decide_True by done.
        rewrite IH by done. by rewrite <- app_assoc.
      + rewrite decide_False by done. by apply IH. }
  split; [apply Hloop|].
  intros page embedded He Hes. unfold parse_listings. simpl.
  rewrite He. simpl. rewrite Hes. simpl. apply (Hloop []).
Qed.

Lemma readable_page_listings_witness :
  (forall e,
      e ∈ [estate_zero_price; estate_without_id; estate_without_price] ->
      readable e)
  /\ collect_listings
       (map PDict [estate_zero_price; estate_without_id; estate_without_price])
       []
     = Ok [entry_of estate_zero_price; entry_of estate_without_price].
Proof.
  assert (H : forall e,
             e ∈ [estate_zero_price; estate_without_id; estate_without_price] ->
             readable e).
  { intros e He Hid.
    repeat (apply elem_of_cons in He as [-> | He]);
      [by eexists | discriminate Hid | by eexists | by apply elem_of_nil in He]. }
  split; [exact H|].
  exact (proj1 (readable_page_listings _ [] H)).
Defined.

(** X8: one estate that cannot be read (a value that is no object, or an
    identified estate whose [price_czk] is [null] or any other non-object)
    makes the whole page raise [AttributeError]: the pairs of the estates
    before it are lost with it. *)
Theorem unreadable_estate_raises (good : list pydict) (bad : pyval)
    (rest : list pyval) (acc : list (pyval * pydict)) :
  (forall e, e ∈ good -> readable e) ->
  unreadable bad ->
  collect_listings (map PDict good ++ bad :: rest) acc = Raise AttributeError
  /\ parse_listings (page_of (map PDict good ++ bad :: rest))
     = Raise AttributeError.
Proof.
  intros Hgood Hbad.
  assert (Hloop : forall acc0,
            collect_listings (map PDict good ++ bad :: rest) acc0
            = Raise AttributeError).
  { clear acc. induction good as [|e good IH]; intros acc0.
    - simpl app. destruct bad as [| | | | | |estate]; try reflexivity.
      rewrite collect_listings_step. destruct Hbad as [-> Hp].
      destruct (dict_get estate (txt "price_czk") (PDict [])) eqn:E;
        try reflexivity.
      by destruct (Hp d).
    - cbn [map app]. rewrite collect_listings_step.
      assert (Hrest : forall x, x ∈ good -> readable x).
      { intros x Hx. apply Hgood. by right. }
      destruct (has_id e) eqn:Hid; [| by apply IH].
      destruct (Hgood e) as [p Hp]; [left | done |]. rewrite Hp.
      by apply IH. }
  split; [apply Hloop | apply (Hloop [])].
Qed.

Lemma unreadable_estate_raises_witness :
  (forall e, e ∈ [estate_zero_price] -> readable e)
  /\ unreadable (PDict estate_null_price)
  /\ parse_listings
       (page_of [PDict estate_zero_price; PDict estate_null_price])
     = Raise AttributeError.
Proof.
  assert (Hgood : forall e, e ∈ [estate_zero_price] -> readable e).
  { intros e ->%list_elem_of_singleton _. by eexists. }
  assert (Hbad : unreadable (PDict estate_null_price)).
  { split; [reflexivity | intros p; discriminate]. }
  split; [exact Hgood|]. split; [exact Hbad|].
  exact (proj2 (unreadable_estate_raises [estate_zero_price]
                  (PDict estate_null_price) [] [] Hgood Hbad)).
Defined.

(** ** Requests of a run *)

Lemma get_listing_ids_state (w : world) (page : nat) (st : state) :
  (get_listing_ids w page st).1 = after_request st (ListPage page).
Proof.
  unfold get_listing_ids, io_bind, http_get. simpl.
  destruct (respond w (length (sent st)) (ListPage page)); [done|].
  unfold lift. by destruct (parse_listings data).
Qed.

Lemma get_listing_detail_state (db : unicode_db) (w : world) (h : pyval)
    (st : state) :
  (get_listing_detail db w h st).1 = after_request st (Detail (py_str db h)).
Proof.
  unfold get_listing_detail, io_bind, http_get. simpl.
  destruct (respond w (length (sent st)) (Detail (py_str db h))); [done|].
  unfold lift. by destruct (parse_detail db data).
Qed.

(** The requests of the paging loop. *)
Lemma page_loop_trace (w : world) (count page : nat)
    (all_ids : list (pyval * pydict)) (st : state) :
  let r := page_loop w count page all_ids st in
  exists k,
    (k <= count)%nat /\
    sent r.1 = sent st ++ map ListPage (seq page k) /\
    disk r.1 = disk st /\
    forall out, r.2 = Ok out ->
      exists more, out = all_ids ++ more /\ (k = 0%nat -> more = []).
Proof.
  revert page all_ids st. induction count as [|count IH];
    intros page all_ids st; simpl.
  - exists 0%nat. split_and!; [lia | by rewrite app_nil_r | done |].
    intros out [= <-]. exists []. by rewrite app_nil_r.
  - fold (page_loop w count). unfold io_bind.
    pose proof (get_listing_ids_state w page st) as Hst.
    destruct (get_listing_ids w page st) as [st1 [[|l ls]|e]];
      simpl in Hst; subst st1.
    + exists 1%nat. split_and!; [lia | done | done |].
      intros out [= <-]. exists []. by rewrite app_nil_r.
    + destruct (IH (S page) (all_ids ++ l :: ls)
                  (after_request st (ListPage page)))
        as (k & Hk & Hsent & Hdisk & Hout).
      exists (S k). split_and!; [lia | | done |].
      * rewrite Hsent. simpl. by rewrite <- app_assoc.
      * intros out Ho. destruct (Hout out Ho) as (more & -> & _).
        exists ((l :: ls) ++ more). by rewrite app_assoc.
    + exists 1%nat. split_and!; [lia | done | done | discriminate].
Qed.

(** The requests of the detail loop. *)
Lemma detail_loop_trace (db : unicode_db) (w : world)
    (todo : list (pyval * pydict)) (all_listings : list pydict) (st : state) :
  let r := detail_loop db w todo all_listings st in
  exists k,
    (k <= length todo)%nat /\
    sent r.1
      = sent st ++ map (fun p => Detail (py_str db p.1)) (take k todo) /\
    disk r.1 = disk st /\
    forall out, r.2 = Ok out ->
      k = length todo /\
      exists made, out = all_listings ++ made /\
                   (length made <= length todo)%nat.
Proof.
  revert all_listings st. induction todo as [|[h b] todo IH];
    intros all_listings st.
  - exists 0%nat. simpl. split_and!; [lia | by rewrite app_nil_r | done |].
    intros out [= <-]. split; [done|]. exists []. by rewrite app_nil_r.
  - cbv zeta. rewrite detail_loop_step.
    pose proof (get_listing_detail_state db w h st) as Hst.
    destruct (get_listing_detail db w h st) as [st1 [[|c cs]|e]];
      simpl in Hst; subst st1.
    + destruct (IH all_listings (after_request st (Detail (py_str db h))))
        as (k & Hk & Hsent & Hdisk & Hout).
      exists (S k). split_and!; [simpl; lia | | done |].
      * rewrite Hsent. simpl. by rewrite <- app_assoc.
      * intros out Ho. destruct (Hout out Ho) as (-> & made & -> & Hlen).
        split; [done|]. exists made. split; [done | simpl; lia].
    + match goal with |- context [detail_loop db w todo ?acc ?s] =>
        destruct (IH acc s) as (k & Hk & Hsent & Hdisk & Hout) end.
      exists (S k). split_and!; [simpl; lia | | done |].
      * rewrite Hsent. simpl. by rewrite <- app_assoc.
      * intros out Ho. destruct (Hout out Ho) as (-> & made & -> & Hlen).
        split; [done|]. eexists (_ :: made).
        rewrite <- app_assoc. split; [done | simpl; lia].
    + exists 1%nat.
      split_and!; [simpl; lia | simpl; by rewrite ?take_0 | done | discriminate].
Qed.

(** X9: the paging loop asks for consecutive pages starting at its first
    page and never for more than [count] of them; it leaves the directory
    alone, and what it returns starts with the pairs it was given, to which
    it adds nothing without a request. *)
Theorem page_loop_requests (w : world) (count page : nat)
    (all_ids : list (pyval * pydict)) (st : state) :
  let r := page_loop w count page all_ids st in
  exists k,
    (k <= count)%nat /\
    sent r.1 = sent st ++ map ListPage (seq page k) /\
    disk r.1 = disk st /\
    forall out, r.2 = Ok out ->
      exists more, out = all_ids ++ more /\ (k = 0%nat -> more = []).
Proof. apply page_loop_trace. Qed.

(** X10: the detail loop sends one detail request per pair of its work
    list, in order, as far as it gets; when it ends without an exception it
    has sent one for every pair, and returns the records it was given
    followed by at most one new record per pair. *)
Theorem detail_loop_requests (db : unicode_db) (w : world)
    (todo : list (pyval * pydict)) (all_listings : list pydict) (st : state) :
  let r := detail_loop db w todo all_listings st in
  exists k,
    (k <= length todo)%nat /\
    sent r.1
      = sent st ++ map (fun p => Detail (py_str db p.1)) (take k todo) /\
    disk r.1 = disk st /\
    forall out, r.2 = Ok out ->
      k = length todo /\
      exists made, out = all_listings ++ made /\
                   (length made <= length todo)%nat.
Proof. apply detail_loop_trace. Qed.

(** ** The account of a run *)

Lemma dir_put_other (d : directory) (name other : pystr) (f : csv_file) :
  other <> name -> dict_find (dir_put d name f) other = dict_find d other.
Proof.
  intros Hne. induction d as [|[n g] d IH]; simpl.
  - by rewrite decide_False.
  - destruct (decide (n = name)) as [-> | Hn]; simpl.
    + by rewrite !decide_False.
    + by rewrite IH.
Qed.

Lemma get_listing_ids_answer (w : world) (page : nat) (st : state) :
  get_listing_ids w page st
  = (after_request st (ListPage page),
     page_answer w (length (sent st)) page).
Proof.
  unfold get_listing_ids, io_bind, http_get, page_answer. simpl.
  by destruct (respond w (length (sent st)) (ListPage page)).
Qed.

Lemma get_listing_detail_answer (db : unicode_db) (w : world) (h : pyval)
    (st : state) :
  get_listing_detail db w h st
  = (after_request st (Detail (py_str db h)),
     detail_answer db w (length (sent st)) h).
Proof.
  unfold get_listing_detail, io_bind, http_get, detail_answer. simpl.
  by destruct (respond w (length (sent st)) (Detail (py_str db h))).
Qed.

Lemma after_requests_none (st : state) :
  {| sent := sent st ++ []; disk := disk st |} = st.
Proof. destruct st. simpl. by rewrite app_nil_r. Qed.

(** Pages that bring listings are read one after the other. *)
Lemma page_loop_reads (w : world) (good : list (list (pyval * pydict)))
    (count page : nat) (all_ids : list (pyval * pydict)) (st : state) :
  pages_read w (length (sent st)) page good ->
  (length good <= count)%nat ->
  page_loop w count page all_ids st
  = page_loop w (count - length good) (page + length good)
      (all_ids ++ concat good)
      {| sent := sent st ++ map ListPage (seq page (length good));
         disk := disk st |}.
Proof.
  revert count page all_ids st.
  induction good as [|l good IH]; intros count page all_ids st Hread Hlen.
  - simpl. by rewrite after_requests_none, Nat.sub_0_r, Nat.add_0_r, app_nil_r.
  - destruct Hread as (Hl & Hans & Hrest).
    destruct count as [|count]; [simpl in Hlen; lia|].
    rewrite page_loop_step, get_listing_ids_answer, Hans.
    destruct l as [|e l]; [done|].
    rewrite (IH count (S page) (all_ids ++ e :: l)
               (after_request st (ListPage page))).
    + simpl. rewrite <- !app_assoc. simpl.
      by replace (page + S (length good))%nat
        with (S (page + length good)) by lia.
    + simpl. by rewrite length_app, Nat.add_1_r.
    + simpl in Hlen. lia.
Qed.

(** How the paging loop goes, whatever the answers. *)
Lemma page_loop_account (w : world) (count page : nat)
    (all_ids : list (pyval * pydict)) (st : state) :
  exists good asked,
    pages_read w (length (sent st)) page good /\
    (page_loop w count page all_ids st).1
    = {| sent := sent st ++ map ListPage (seq page asked);
         disk := disk st |} /\
    ((asked = length good /\ asked = count /\
      (page_loop w count page all_ids st).2 = Ok (all_ids ++ concat good))
     \/ (asked = S (length good) /\ (asked <= count)%nat /\
         ((page_answer w (length (sent st) + length good)
             (page + length good) = Ok [] /\
           (page_loop w count page all_ids st).2
           = Ok (all_ids ++ concat good))
          \/ exists e,
               page_answer w (length (sent st) + length good)
                 (page + length good) = Raise e /\
               (page_loop w count page all_ids st).2 = Raise e))).
Proof.
  revert page all_ids st. induction count as [|count IH];
    intros page all_ids st.
  - exists [], 0%nat. simpl. rewrite after_requests_none.
    split_and!; [done | done |]. left. by rewrite app_nil_r.
  - rewrite page_loop_step, get_listing_ids_answer.
    destruct (page_answer w (length (sent st)) page) as [[|e l]|err] eqn:Hans.
    + exists [], 1%nat. simpl. rewrite !Nat.add_0_r, app_nil_r.
      split_and!; [done | done |]. right.
      split_and!; [done | lia |]. by left.
    + destruct (IH (S page) (all_ids ++ e :: l)
                  (after_request st (ListPage page)))
        as (good & asked & Hread & Hst & Hend).
      exists ((e :: l) :: good), (S asked).
      simpl in Hread. rewrite length_app, Nat.add_1_r in Hread.
      split_and!; [done | | ].
      * rewrite Hst. simpl. by rewrite <- app_assoc.
      * simpl in Hend. rewrite length_app, Nat.add_1_r in Hend.
        simpl length. simpl concat.
        replace (length (sent st) + S (length good))%nat
          with (S (length (sent st)) + length good)%nat by lia.
        replace (page + S (length good))%nat
          with (S page + length good)%nat by lia.
        rewrite <- !app_assoc in Hend. simpl in Hend.
        destruct Hend as [(-> & <- & Hok) | (-> & Hle & Hlast)].
        -- left. done.
        -- right. split_and!; [done | lia | done].
    + exists [], 1%nat. simpl. rewrite !Nat.add_0_r.
      split_and!; [done | done |]. right.
      split_and!; [done | lia |]. right. by exists err.
Qed.

(** How the detail loop goes when it ends without an exception. *)
Lemma detail_loop_account (db : unicode_db) (w : world)
    (todo : list (pyval * pydict)) (all_listings out : list pydict)
    (st st' : state) :
  detail_loop db w todo all_listings st = (st', Ok out) ->
  exists records,
    out = all_listings ++ records /\
    details_read db w (length (sent st)) todo records /\
    st' = {| sent := sent st ++ map (fun p => Detail (py_str db p.1)) todo;
             disk := disk st |}.
Proof.
  revert all_listings st. induction todo as [|[h b] todo IH];
    intros all_listings st.
  - intros [= <- <-]. exists []. simpl.
    rewrite after_requests_none, app_nil_r.
    split_and!; [done | constructor | done].
  - rewrite detail_loop_step, get_listing_detail_answer.
    destruct (detail_answer db w (length (sent st)) h) as [[|c cs]|e] eqn:Hans;
      [| | discriminate].
    + intros (records & -> & Hread & ->)%IH. exists records.
      simpl in Hread. rewrite length_app, Nat.add_1_r in Hread.
      split_and!; [done | by apply details_skip |].
      simpl. by rewrite <- app_assoc.
    + intros (records & -> & Hread & ->)%IH.
      simpl in Hread. rewrite length_app, Nat.add_1_r in Hread.
      eexists (_ :: records). rewrite <- app_assoc.
      split_and!; [reflexivity | | simpl; by rewrite <- app_assoc].
      simpl. rewrite length_app, Nat.add_1_r.
      by apply details_keep.
Qed.

Lemma details_read_made (db : unicode_db) (w : world) (n : nat)
    (todo : list (pyval * pydict)) (records : list pydict) :
  details_read db w n todo records ->
  exists kept, sublist kept todo /\ Forall2 (made_of db) kept records.
Proof.
  induction 1 as [n|n h b rest records Hans _ (kept & Hsub & Hmade)
                  |n h b rest records detail Hans Hne _ (kept & Hsub & Hmade)].
  - exists []. split; [done | constructor].
  - exists kept. split; [by apply sublist_cons | done].
  - exists ((h, b) :: kept). split; [by apply sublist_skip|].
    constructor; [| done]. by exists (date_at w (S n)), detail.
Qed.

Lemma made_of_record (db : unicode_db) (kept : list (pyval * pydict))
    (records : list pydict) :
  Forall2 (made_of db) kept records -> Forall (made_record db) records.
Proof.
  induction 1 as [|[h b] l kept records (date & detail & Hne & ->) _ IH];
    constructor; [| done].
  by exists date, h, b, detail.
Qed.

(** A run that reports a saved file, in full: the pages read, the work
    list, the records and the file. *)
Lemma scrape_saved (db : unicode_db) (w : world) (max_pages : Z)
    (output_file : option pystr) (st st' : state) (filename : pystr)
    (n : nat) :
  scrape_sreality db w max_pages output_file st
    = (st', Ok (Saved filename n)) ->
  exists good asked records,
    let todo :=
      filter_known db (load_existing_ids (disk st)) (concat good) in
    filename = output_name w output_file /\
    entry_name filename = true /\
    pages_read w (length (sent st)) 1 good /\
    paging_ended w (length (sent st)) (Z.to_nat max_pages) good asked /\
    good <> [] /\ todo <> [] /\
    details_read db w (length (sent st) + asked) todo records /\
    Forall (storable db) records /\
    length records = n /\
    sent st' = sent st ++ map ListPage (seq 1 asked)
                 ++ map (fun p => Detail (py_str db p.1)) todo /\
    disk st' = directory_after db st filename records.
Proof.
  rewrite scrape_sreality_run. cbv zeta. fold (output_name w output_file).
  set (st1 := {| sent := sent st; disk := Some (default [] (disk st)) |}).
  destruct (page_loop_account w (Z.to_nat max_pages) 1 [] st1)
    as (good & asked & Hread & Hst2 & Hend).
  destruct (page_loop w (Z.to_nat max_pages) 1 [] st1) as [st2 [[|p ps]|e]];
    try discriminate.
  simpl in Hst2, Hend. subst st2.
  assert (Hpairs : p :: ps = concat good /\
                   paging_ended w (length (sent st)) (Z.to_nat max_pages)
                     good asked).
  { destruct Hend as [(-> & Hc & [= ->]) | (-> & Hle & [[Hans [= ->]] | (e & _ & [=])])].
    - split; [done | by left].
    - split; [done | right; done]. }
  destruct Hpairs as [Hpairs Hended]. rewrite Hpairs.
  destruct (filter_known _ _ _) as [|t ts] eqn:Hfilter; [discriminate|].
  destruct (detail_loop db w (t :: ts) [] _) as [st3 [records|e]] eqn:Hloop;
    [| discriminate].
  apply detail_loop_account in Hloop as (made & -> & Hdetails & ->).
  simpl app in *. simpl sent in *. simpl disk in *.
  rewrite length_app, length_map, length_seq in Hdetails.
  destruct (details_read_made db w _ _ _ Hdetails) as (kept & Hsub & Hmade).
  apply made_of_record in Hmade.
  destruct (entry_name (output_name w output_file)) eqn:Hname;
    [| discriminate].
  rewrite (write_rows_made db made _ Hmade).
  destruct (write_encoded_cases (written_fields db) made [CSV_COLUMNS])
    as [[Hall ->] | (ok & bad & rest & _ & _ & _ & ->)]; [| discriminate].
  intros [= <- <- <-]. exists good, asked, made. cbv zeta. rewrite Hfilter.
  split_and!; try done.
  - intros ->. discriminate.
  - simpl. by rewrite <- app_assoc.
Qed.


(** X12: an exception raised while a result page is read is not caught.
    When the pages before it brought listings and the next page raises, the
    paging loop, from whatever page and with whatever pairs it started,
    ends with that exception right after the request of that page, and the
    pairs of the pages before are dropped with it; a run ends with the same
    exception after these page requests, with no detail asked and nothing
    written. *)
Theorem page_exception_ends_run (db : unicode_db) (w : world)
    (max_pages : Z) (output_file : option pystr) (st : state)
    (good : list (list (pyval * pydict))) (e : exn) :
  pages_read w (length (sent st)) 1 good ->
  (length good < Z.to_nat max_pages)%nat ->
  page_answer w (length (sent st) + length good) (1 + length good)
    = Raise e ->
  scrape_sreality db w max_pages output_file st
    = ({| sent := sent st ++ map ListPage (seq 1 (S (length good)));
          disk := Some (default [] (disk st)) |}, Raise e)
  /\ forall (count page : nat) (all_ids : list (pyval * pydict))
       (st0 : state) (good0 : list (list (pyval * pydict))) (e0 : exn),
       pages_read w (length (sent st0)) page good0 ->
       (length good0 < count)%nat ->
       page_answer w (length (sent st0) + length good0)
         (page + length good0) = Raise e0 ->
       page_loop w count page all_ids st0
       = ({| sent := sent st0 ++ map ListPage (seq page (S (length good0)));
             disk := disk st0 |}, Raise e0).
Proof.
  intros Hread Hlen Hraise.
  assert (Hloop : forall (count page : nat) (all_ids : list (pyval * pydict))
            (st0 : state) (good0 : list (list (pyval * pydict))) (e0 : exn),
            pages_read w (length (sent st0)) page good0 ->
            (length good0 < count)%nat ->
            page_answer w (length (sent st0) + length good0)
              (page + length good0) = Raise e0 ->
            page_loop w count page all_ids st0
            = ({| sent := sent st0
                          ++ map ListPage (seq page (S (length good0)));
                  disk := disk st0 |}, Raise e0)).
  { intros count page all_ids st0 good0 e0 Hr Hl Hx.
    rewrite (page_loop_reads w good0) by (done || lia).
    destruct (count - length good0)%nat as [|c] eqn:Hc; [lia|].
    rewrite page_loop_step, get_listing_ids_answer. simpl sent.
    rewrite length_app, length_map, length_seq, Hx.
    unfold after_request. cbn [sent disk].
    by rewrite seq_S, map_app, app_assoc. }
  split; [| exact Hloop].
  rewrite scrape_sreality_run. cbv zeta.
  by rewrite (Hloop _ _ _ _ good e).
Qed.

Lemma page_exception_ends_run_witness :
  pages_read late_broken_world (length (sent fresh_state)) 1
    [[ (PInt 3141592,
        [ (txt "name", PStr (txt "Pronájem bytu 1+1 38 m²"));
          (txt "locality", PStr (txt "Praha 10 - Vršovice"));
          (txt "price", PInt 0);
          (txt "price_czk", PInt 18500) ]);
       (PInt 777,
        [ (txt "name", PStr (txt "Pronájem bytu 3+1 80 m²"));
          (txt "locality", PStr (txt "Praha 2 - Vinohrady"));
          (txt "price", PInt 32000);
          (txt "price_czk", PNone) ]);
       (PInt 2847161, basic_info_without_price) ]]
  /\ page_answer late_broken_world 1 2 = Raise AttributeError
  /\ scrape_sreality latin1_db late_broken_world 30 None fresh_state
     = ({| sent := [ListPage 1; ListPage 2]; disk := Some [] |},
        Raise AttributeError).
Proof.
  assert (Hread :
    pages_read late_broken_world (length (sent fresh_state)) 1
      [[ (PInt 3141592,
          [ (txt "name", PStr (txt "Pronájem bytu 1+1 38 m²"));
            (txt "locality", PStr (txt "Praha 10 - Vršovice"));
            (txt "price", PInt 0);
            (txt "price_czk", PInt 18500) ]);
         (PInt 777,
          [ (txt "name", PStr (txt "Pronájem bytu 3+1 80 m²"));
            (txt "locality", PStr (txt "Praha 2 - Vinohrady"));
            (txt "price", PInt 32000);
            (txt "price_czk", PNone) ]);
         (PInt 2847161, basic_info_without_price) ]]).
  { split; [discriminate|]. split; [reflexivity | exact I]. }
  split; [exact Hread|]. split; [reflexivity|].
  exact (proj1 (page_exception_ends_run latin1_db late_broken_world 30 None
                  fresh_state _ AttributeError Hread ltac:(simpl; lia)
                  eq_refl)).
Defined.

(** X13: the account of a run that saves a file.  It asked for the pages 1,
    2, ... as long as they brought listings, up to the page limit or to the
    first page that brought nothing; its work list is the pairs of these
    pages, in page order, without those whose identifier was already in a
    data file; it sent one detail request for each pair of the work list,
    in order, after the page requests; and its file holds, in that order,
    the record of each pair whose detail came back non-empty, at most one
    per request, under the header. *)
Theorem saved_run_requests (db : unicode_db) (w : world) (max_pages : Z)
    (output_file : option pystr) (st st' : state) (filename : pystr)
    (n : nat) :
  scrape_sreality db w max_pages output_file st
    = (st', Ok (Saved filename n)) ->
  exists (good : list (list (pyval * pydict))) (asked : nat)
         (kept : list (pyval * pydict)) (records : list pydict),
    let start := length (sent st) in
    let todo :=
      filter_known db (load_existing_ids (disk st)) (concat good) in
    pages_read w start 1 good /\
    paging_ended w start (Z.to_nat max_pages) good asked /\
    (1 <= asked <= Z.to_nat max_pages)%nat /\
    todo <> [] /\
    sent st' = sent st ++ map ListPage (seq 1 asked)
                 ++ map (fun p => Detail (py_str db p.1)) todo /\
    details_read db w (start + asked) todo records /\
    sublist kept todo /\ Forall2 (made_of db) kept records /\
    length records = n /\ (n <= length todo)%nat /\
    disk st' = directory_after db st filename records.
Proof.
  intros (good & asked & records & Hname & Hentry & Hread & Hend & Hgood
          & Htodo & Hdetails & Hstore & Hlen & Hsent & Hdisk)%scrape_saved.
  destruct (details_read_made db w _ _ _ Hdetails) as (kept & Hsub & Hmade).
  exists good, asked, kept, records. cbv zeta.
  split_and!; try done.
  - destruct Hend as [[-> _] | (-> & _)]; [| lia].
    destruct good; [done | simpl; lia].
  - destruct Hend as [[_ ->] | (_ & Hle & _)]; lia.
  - rewrite <- Hlen, <- (Forall2_length _ _ _ Hmade).
    by apply sublist_length.
Qed.

Lemma saved_run_requests_witness :
  scrape_sreality latin1_db sample_world 30 None sample_state
  = ((scrape_sreality latin1_db sample_world 30 None sample_state).1,
     Ok (Saved (txt "sreality_prague_rent_20240501_120000.csv") 1))
  /\ exists (asked : nat),
       (1 <= asked <= Z.to_nat 30)%nat /\
       exists todo : list (pyval * pydict),
         sent (scrape_sreality latin1_db sample_world 30 None sample_state).1
         = sent sample_state ++ map ListPage (seq 1 asked)
             ++ map (fun p => Detail (py_str latin1_db p.1)) todo.
Proof.
  assert (H : scrape_sreality latin1_db sample_world 30 None sample_state
              = ((scrape_sreality latin1_db sample_world 30 None
                    sample_state).1,
                 Ok (Saved (txt "sreality_prague_rent_20240501_120000.csv")
                       1))).
  { vm_compute. reflexivity. }
  split; [exact H|].
  destruct (saved_run_requests latin1_db sample_world 30 None sample_state
              _ _ _ H)
    as (good & asked & kept & records & _ & _ & Hasked & _ & Hsent & _).
  exists asked. split; [exact Hasked|]. eexists. exact Hsent.
Defined.

(** ** Reading a detail answer *)

Lemma extract_attribute_ok (db : unicode_db) (items : list pydict)
    (names : list pystr) :
  extract_attribute db (PList (map PDict items)) names
  = Ok (attribute_text db (PList (map PDict items)) names).
Proof.
  unfold attribute_text.
  induction names as [|name names IH]; [reflexivity|]. simpl.
  destruct (scan_items_spec db items name)
    as [(i1 & it & i2 & _ & _ & _ & Hr) | [_ Hr]]; rewrite Hr; simpl.
  - reflexivity.
  - destruct (extract_attribute db (PList (map PDict items)) names);
      [done | discriminate].
Qed.

Lemma fill_detail_ok (db : unicode_db) (items : list pydict)
    (columns : list (pystr * list pystr)) (detail : list (pystr * pystr)) :
  fill_detail db (PList (map PDict items)) columns detail
  = Ok (fold_left
          (fun d c =>
             dict_set d c.1 (attribute_text db (PList (map PDict items)) c.2))
          columns detail).
Proof.
  revert detail. induction columns as [|[col names] columns IH];
    intros detail; [reflexivity|].
  simpl. rewrite extract_attribute_ok. simpl. apply IH.
Qed.

(** X14: a detail answer whose items are objects (or that has no items at
    all) always yields a detail with exactly the sixteen attribute columns,
    each holding what the normalizer returns for its labels; it is never
    empty, so an answered detail request always leads to a record. *)
Theorem detail_of_items (db : unicode_db) (data : pydict)
    (items : list pydict) :
  dict_get data (txt "items") (PList []) = PList (map PDict items) ->
  exists detail,
    parse_detail db (PDict data) = Ok detail /\
    map fst detail = map fst ATTRIBUTE_MAP /\
    detail <> [] /\
    forall col names, (col, names) ∈ ATTRIBUTE_MAP ->
      extract_attribute db (PList (map PDict items)) names
      = Ok (dict_get detail col []).
Proof.
  intros Hitems. unfold parse_detail. cbn [py_get bind].
  rewrite Hitems, fill_detail_ok.
  eexists. split; [reflexivity|].
  assert (Hex : forall names,
            extract_attribute db (PList (map PDict items)) names
            = Ok (attribute_text db (PList (map PDict items)) names))
    by apply extract_attribute_ok.
  revert Hex. generalize (attribute_text db (PList (map PDict items))).
  intros v Hex. split_and!.
  - vm_compute. reflexivity.
  - vm_compute. discriminate.
  - intros col names Hin. rewrite Hex. f_equal.
    vm_compute in Hin.
    repeat (apply elem_of_cons in Hin as [[= -> ->] | Hin]; [reflexivity |]).
    by apply elem_of_nil in Hin.
Qed.

Lemma detail_of_items_witness :
  dict_get [ (txt "items", PList (map PDict [lift_item; furnishing_item])) ]
    (txt "items") (PList [])
  = PList (map PDict [lift_item; furnishing_item])
  /\ exists detail,
       parse_detail latin1_db sample_detail_body = Ok detail /\
       map fst detail = map fst ATTRIBUTE_MAP /\
       detail <> [] /\
       forall col names, (col, names) ∈ ATTRIBUTE_MAP ->
         extract_attribute latin1_db
           (PList (map PDict [lift_item; furnishing_item])) names
         = Ok (dict_get detail col []).
Proof.
  split; [reflexivity|].
  exact (detail_of_items latin1_db
           [ (txt "items", PList (map PDict [lift_item; furnishing_item])) ]
           [lift_item; furnishing_item] eq_refl).
Defined.

(** ** Writing a file *)

Lemma save_to_csv_run {R} (fields_of : R -> res (list pystr))
    (listings : list R) (filename : pystr) (append : bool) (st : state)
    (d : directory) :
  disk st = Some d ->
  save_to_csv fields_of listings filename append st
  = let out := write_rows fields_of listings
                 (file_start append (dict_find d filename)) in
    ({| sent := sent st; disk := Some (dir_put d filename out.1) |}, out.2).
Proof.
  intros Hd. unfold save_to_csv. rewrite Hd.
  destruct append, (dict_find d filename) as [old|]; simpl;
    by destruct (write_rows _ _ _).
Qed.

Lemma write_rows_raises {R} (fields_of : R -> res (list pystr))
    (g : R -> list pystr) (good rest : list R) (bad : R) (e : exn)
    (out : csv_file) :
  (forall l, l ∈ good -> fields_of l = Ok (g l)) ->
  fields_of bad = Raise e ->
  write_rows fields_of (good ++ bad :: rest) out
  = (out ++ map g good, Raise e).
Proof.
  revert out. induction good as [|l good IH]; intros out Hgood Hbad; simpl.
  - by rewrite Hbad, app_nil_r.
  - rewrite (Hgood l) by left. rewrite IH, <- app_assoc; [done | | done].
    intros l' Hl'. apply Hgood. by right.
Qed.

Lemma listing_fields_encodable (db : unicode_db) (l : pydict)
    (fs : list pystr) :
  listing_fields db l = Ok fs -> forallb encodable fs = true.
Proof.
  unfold listing_fields, encode_fields.
  destruct (forallb _ (map fst l)); [| discriminate].
  destruct (forallb encodable _) eqn:He; [| discriminate].
  by intros [= <-].
Qed.

(** X15: when every row can be written ([DictWriter] takes its keys and the
    file can encode its line), [save_to_csv] leaves in the file the header
    followed by the rows, in order; in append mode on a file that exists it
    leaves the old records (a file being the list of its records, the last
    one ended like the others) followed by the rows and writes no second
    header, and on a file that does not exist it writes the header first.
    The row of a record can be written only when none of its fields holds
    a lone surrogate. *)
Theorem save_to_csv_content {R} (fields_of : R -> res (list pystr))
    (g : R -> list pystr) (listings : list R) (filename : pystr)
    (append : bool) (st : state) (d : directory) :
  disk st = Some d ->
  (forall l, l ∈ listings -> fields_of l = Ok (g l)) ->
  save_to_csv fields_of listings filename append st
  = ({| sent := sent st;
        disk := Some (dir_put d filename
                        (file_start append (dict_find d filename)
                         ++ map g listings)) |}, Ok tt)
  /\ file_start false (dict_find d filename) = [CSV_COLUMNS]
  /\ (forall old, dict_find d filename = Some old ->
        file_start true (dict_find d filename) = old)
  /\ (dict_find d filename = None ->
        file_start true (dict_find d filename) = [CSV_COLUMNS])
  /\ (forall db (l : pydict) fs,
        listing_fields db l = Ok fs -> forallb encodable fs = true)
  /\ encodable [0xD800] = false.
Proof.
  intros Hd Hall. rewrite (save_to_csv_run _ _ _ _ st d Hd).
  rewrite (write_rows_total _ g) by done.
  split_and!; [done | done | by intros old -> | by intros -> | | done].
  intros db l fs Hfs. by eapply listing_fields_encodable.
Qed.

Lemma save_to_csv_content_witness :
  disk two_file_state
  = Some [ (txt "sreality_1.csv", file_ab); (txt "sreality_2.csv", file_bc) ]
  /\ (forall l, l ∈ dict_reader file_bc ->
        row_fields l = Ok (map (fun c => default [] (row_get l c [])) CSV_COLUMNS))
  /\ file_at
       (save_to_csv row_fields (dict_reader file_bc) (txt "sreality_1.csv")
          true two_file_state).1.(disk) (txt "sreality_1.csv")
     = Some (file_ab
             ++ map (fun l => map (fun c => default [] (row_get l c []))
                                CSV_COLUMNS)
                  (dict_reader file_bc)).
Proof.
  assert (H : forall l, l ∈ dict_reader file_bc ->
            row_fields l
            = Ok (map (fun c => default [] (row_get l c [])) CSV_COLUMNS)).
  { intros l Hl. vm_compute in Hl.
    repeat (apply elem_of_cons in Hl as [-> | Hl]; [reflexivity |]).
    by apply elem_of_nil in Hl. }
  split; [reflexivity|]. split; [exact H|].
  rewrite (proj1 (save_to_csv_content row_fields _ (dict_reader file_bc)
                    (txt "sreality_1.csv") true two_file_state _ eq_refl H)).
  reflexivity.
Defined.

(** X16: when a row cannot be written the exception leaves the function,
    and the file keeps what was written before it: the start of the file and
    the rows that came before the offending one; no later row is written. *)
Theorem save_to_csv_partial {R} (fields_of : R -> res (list pystr))
    (g : R -> list pystr) (good rest : list R) (bad : R) (e : exn)
    (filename : pystr) (append : bool) (st : state) (d : directory) :
  disk st = Some d ->
  (forall l, l ∈ good -> fields_of l = Ok (g l)) ->
  fields_of bad = Raise e ->
  save_to_csv fields_of (good ++ bad :: rest) filename append st
  = ({| sent := sent st;
        disk := Some (dir_put d filename
                        (file_start append (dict_find d filename)
                         ++ map g good)) |}, Raise e).
Proof.
  intros Hd Hgood Hbad. rewrite (save_to_csv_run _ _ _ _ st d Hd).
  by rewrite (write_rows_raises _ g good rest bad e).
Qed.

Lemma save_to_csv_partial_witness :
  disk two_file_state
  = Some [ (txt "sreality_1.csv", file_ab); (txt "sreality_2.csv", file_bc) ]
  /\ (forall l, l ∈ dict_reader file_ab ->
        row_fields l
        = Ok (map (fun c => default [] (row_get l c [])) CSV_COLUMNS))
  /\ row_fields (dict_reader_row [txt "hash_id"; txt "rent"]
                   [txt "Z"; txt "21000"]) = Raise ValueError
  /\ (save_to_csv row_fields
        (dict_reader file_ab ++ dict_reader old_layout_file)
        COMBINED false two_file_state).2 = Raise ValueError.
Proof.
  assert (H : forall l, l ∈ dict_reader file_ab ->
            row_fields l
            = Ok (map (fun c => default [] (row_get l c [])) CSV_COLUMNS)).
  { intros l Hl. vm_compute in Hl.
    repeat (apply elem_of_cons in Hl as [-> | Hl]; [reflexivity |]).
    by apply elem_of_nil in Hl. }
  split; [reflexivity|]. split; [exact H|]. split; [reflexivity|].
  change (dict_reader old_layout_file)
    with (dict_reader_row [txt "hash_id"; txt "rent"] [txt "Z"; txt "21000"]
          :: []).
  by rewrite (save_to_csv_partial row_fields _ (dict_reader file_ab) []
                (dict_reader_row [txt "hash_id"; txt "rent"]
                   [txt "Z"; txt "21000"])
                ValueError COMBINED false two_file_state _ eq_refl H eq_refl).
Defined.

(** X17: [save_to_csv] sends no request and touches no file but its target,
    whatever the rows and the mode and also when it raises; without the
    directory it raises [FileNotFoundError] and changes nothing. *)
Theorem save_to_csv_frame {R} (fields_of : R -> res (list pystr))
    (listings : list R) (filename other : pystr) (append : bool)
    (st : state) :
  other <> filename ->
  let r := save_to_csv fields_of listings filename append st in
  sent r.1 = sent st
  /\ file_at (disk r.1) other = file_at (disk st) other
  /\ (disk st = None -> r = (st, Raise FileNotFoundError)).
Proof.
  intros Hne. destruct (disk st) as [d|] eqn:Hd.
  - cbv zeta. rewrite (save_to_csv_run _ _ _ _ st d Hd). simpl.
    split_and!; [done | by apply dir_put_other | discriminate].
  - unfold save_to_csv. rewrite Hd. simpl. by rewrite ?Hd.
Qed.

Lemma save_to_csv_frame_witness :
  txt "sreality_2.csv" <> COMBINED
  /\ file_at
       (disk (save_to_csv row_fields (dict_reader file_ab) COMBINED false
                two_file_state).1) (txt "sreality_2.csv")
     = Some file_bc.
Proof.
  assert (Hne : txt "sreality_2.csv" <> COMBINED) by (vm_compute; discriminate).
  split; [exact Hne|].
  rewrite (proj1 (proj2 (save_to_csv_frame row_fields (dict_reader file_ab)
                           COMBINED (txt "sreality_2.csv") false
                           two_file_state Hne))).
  reflexivity.
Defined.

(** ** Merging: order, counts, refusals *)

Lemma rows_in_order_perm (files files' : list (pystr * csv_file)) :
  files ≡ₚ files' -> rows_in_order files ≡ₚ rows_in_order files'.
Proof.
  unfold rows_in_order. induction 1; simpl.
  - done.
  - by apply Permutation_app_head.
  - rewrite !app_assoc. apply Permutation_app_tail, Permutation_app_comm.
  - by etransitivity.
Qed.

(** X18: the order in which the directory lists the files changes neither
    the number of rows a merge keeps nor the identifiers it keeps; only
    which of the rows with one identifier survives depends on it. *)
Theorem merge_order_free (files files' : list (pystr * csv_file)) :
  files ≡ₚ files' ->
  let kept := (merge_files files [] ∅ []).1.1 in
  let kept' := (merge_files files' [] ∅ []).1.1 in
  length kept = length kept'
  /\ forall k, k ∈ row_id <$> kept <-> k ∈ row_id <$> kept'.
Proof.
  intros Hp kept kept'. unfold kept, kept'. split.
  - by apply merged_count_any_order.
  - intros k. rewrite !merge_files_kept, !first_per_id_same_ids.
    by rewrite (rows_in_order_perm files files' Hp).
Qed.

Lemma merge_order_free_witness :
  [ (txt "sreality_1.csv", file_ab); (txt "sreality_2.csv", file_bc) ]
  ≡ₚ [ (txt "sreality_2.csv", file_bc); (txt "sreality_1.csv", file_ab) ]
  /\ length (merge_files [ (txt "sreality_2.csv", file_bc);
                           (txt "sreality_1.csv", file_ab) ] [] ∅ []).1.1
     = 3%nat
  /\ map (fun r => row_get r (txt "name") [])
       (merge_files [ (txt "sreality_2.csv", file_bc);
                      (txt "sreality_1.csv", file_ab) ] [] ∅ []).1.1
     = [ Some (txt "Byt B, second file"); Some (txt "Byt C");
         Some (txt "Byt A") ].
Proof.
  assert (Hp : [ (txt "sreality_1.csv", file_ab);
                 (txt "sreality_2.csv", file_bc) ]
               ≡ₚ [ (txt "sreality_2.csv", file_bc);
                    (txt "sreality_1.csv", file_ab) ]) by apply perm_swap.
  split; [exact Hp|]. split; [| vm_compute; reflexivity].
  rewrite <- (proj1 (merge_order_free _ _ Hp)). vm_compute. reflexivity.
Defined.

Lemma row_fields_writable (r : row) :
  (writable r -> row_fields r = Ok (row_text r))
  /\ (~ writable r -> row_fields r = Raise ValueError).
Proof.
  unfold row_fields, writable, row_text.
  destruct (bool_decide (extras r = None)) eqn:He; simpl.
  - apply bool_decide_eq_true in He.
    destruct (forallb _ (map fst (named r))) eqn:Hk.
    + split; [done|]. intros Hn. destruct Hn. split; [done|].
      rewrite forallb_forall in Hk. intros k Hin.
      apply list_elem_of_In in Hin. apply Hk in Hin.
      by apply bool_decide_eq_true in Hin.
    + split; [| done]. intros [_ Hall].
      assert (forallb (fun k => bool_decide (k ∈ CSV_COLUMNS))
                (map fst (named r)) = true); [| congruence].
      apply forallb_forall. intros k Hin. apply bool_decide_eq_true.
      apply Hall. by apply list_elem_of_In.
  - apply bool_decide_eq_false in He. split; [| done]. by intros [? _].
Qed.

Lemma rows_total (files : list (pystr * csv_file)) :
  length (rows_in_order files)
  = sum_list ((map (fun e => (e.1, length (dict_reader e.2))) files).*2).
Proof.
  unfold rows_in_order. induction files as [|x l IH]; [done|]. simpl.
  by rewrite length_app, IH.
Qed.

(** X19: a merge reports, for each data file in listing order, the number
    of rows read from it, and as unique count the number of rows it keeps,
    which is never more than the rows read. *)
Theorem merge_report_counts (st st' : state) (counts : list (pystr * nat))
    (n : nat) :
  merge_data_files st = (st', Ok (Merged counts n)) ->
  exists d,
    disk st = Some d /\
    counts = map (fun e => (e.1, length (dict_reader e.2))) (merge_inputs d) /\
    n = length (kept_rows d) /\
    (n <= length (rows_in_order (merge_inputs d)))%nat /\
    length (rows_in_order (merge_inputs d)) = sum_list (counts.*2).
Proof.
  destruct (disk st) as [d|] eqn:Hd.
  - rewrite (merge_data_files_run st d Hd). unfold kept_rows.
    destruct (merge_inputs d) as [|e files] eqn:Hin; [discriminate|].
    cbv zeta. rewrite (merge_files_spec (e :: files) [] [] ∅ []) by done.
    simpl fst. simpl snd.
    destruct (write_rows row_fields _ [CSV_COLUMNS]).2; [| discriminate].
    intros [= <- <- <-]. exists d. rewrite ?Hin.
    split_and!; [done | done | by rewrite merge_files_kept | |].
    + apply sublist_length, first_per_id_sublist.
    + apply (rows_total (e :: files)).
  - unfold merge_data_files. rewrite Hd. discriminate.
Qed.

Lemma merge_report_counts_witness :
  merge_data_files two_file_state
  = ((merge_data_files two_file_state).1,
     Ok (Merged [ (txt "sreality_1.csv", 2%nat); (txt "sreality_2.csv", 2%nat) ]
           3))
  /\ exists d,
       disk two_file_state = Some d /\
       [ (txt "sreality_1.csv", 2%nat); (txt "sreality_2.csv", 2%nat) ]
       = map (fun e => (e.1, length (dict_reader e.2))) (merge_inputs d) /\
       3%nat = length (kept_rows d) /\
       (3 <= length (rows_in_order (merge_inputs d)))%nat /\
       length (rows_in_order (merge_inputs d))
       = sum_list ([ (txt "sreality_1.csv", 2%nat);
                     (txt "sreality_2.csv", 2%nat) ].*2).
Proof.
  assert (H : merge_data_files two_file_state
              = ((merge_data_files two_file_state).1,
                 Ok (Merged [ (txt "sreality_1.csv", 2%nat);
                              (txt "sreality_2.csv", 2%nat) ] 3))).
  { vm_compute. reflexivity. }
  split; [exact H|].
  exact (merge_report_counts two_file_state _ _ _ H).
Defined.

(** X20: a merge fails on the first kept row that [DictWriter] refuses, one
    with a column outside the fixed set or with more fields than its
    header: it raises [ValueError], reports no count, and leaves a combined
    file that ends with the rows kept before that one. *)
Theorem merge_refuses_row (st : state) (d : directory)
    (good rest : list row) (bad : row) :
  disk st = Some d ->
  kept_rows d = good ++ bad :: rest ->
  (forall r, r ∈ good -> writable r) ->
  ~ writable bad ->
  merge_data_files st
  = ({| sent := sent st;
        disk := Some (dir_put d COMBINED (CSV_COLUMNS :: map row_text good)) |},
     Raise ValueError).
Proof.
  intros Hd Hkept Hgood Hbad. rewrite (merge_data_files_run st d Hd).
  unfold kept_rows in Hkept.
  destruct (merge_inputs d) as [|e files] eqn:Hin.
  - simpl in Hkept. by destruct good.
  - cbv zeta. rewrite Hkept.
    rewrite (write_rows_raises row_fields row_text good rest bad ValueError).
    + reflexivity.
    + intros r Hr. by apply row_fields_writable, Hgood.
    + by apply row_fields_writable.
Qed.

Lemma merge_refuses_row_witness :
  disk old_layout_state
  = Some [ (txt "sreality_1.csv", file_ab);
           (txt "sreality_0.csv", old_layout_file) ]
  /\ (merge_data_files old_layout_state).2 = Raise ValueError
  /\ file_at (disk (merge_data_files old_layout_state).1) COMBINED
     = Some (CSV_COLUMNS :: map row_text (dict_reader file_ab)).
Proof.
  split; [reflexivity|].
  assert (Hgood : forall r, r ∈ dict_reader file_ab -> writable r).
  { intros r Hr. vm_compute in Hr.
    repeat (apply elem_of_cons in Hr as [-> | Hr];
            [split; [reflexivity|]; intros k Hk; vm_compute in Hk |-*;
             repeat (apply elem_of_cons in Hk as [-> | Hk];
                     [repeat first [apply list_elem_of_here
                                   | apply list_elem_of_further] |]);
             by apply elem_of_nil in Hk |]).
    by apply elem_of_nil in Hr. }
  assert (Hbad : ~ writable (dict_reader_row [txt "hash_id"; txt "rent"]
                               [txt "Z"; txt "21000"])).
  { intros [_ Hall]. specialize (Hall (txt "rent")).
    assert (Hno : txt "rent" ∉ CSV_COLUMNS).
    { vm_compute. intros H. repeat (apply elem_of_cons in H as [[=] | H]).
      by apply elem_of_nil in H. }
    apply Hno, Hall. vm_compute. right. left. }
  rewrite (merge_refuses_row old_layout_state _ (dict_reader file_ab) []
             (dict_reader_row [txt "hash_id"; txt "rent"]
                [txt "Z"; txt "21000"]) eq_refl); [| | done | done].
  - split; reflexivity.
  - vm_compute. reflexivity.
Defined.

(** X21: a merge sends no request and leaves every file but the combined
    one as it was, whatever happens. *)
Theorem merge_frame (st : state) (other : pystr) :
  other <> COMBINED ->
  let r := merge_data_files st in
  sent r.1 = sent st /\ file_at (disk r.1) other = file_at (disk st) other.
Proof.
  intros Hne. destruct (disk st) as [d|] eqn:Hd.
  - cbv zeta. rewrite (merge_data_files_run st d Hd).
    destruct (merge_inputs d) as [|e files]; simpl.
    + by rewrite Hd.
    + split; [done|]. by apply dir_put_other.
  - assert (Hrun : merge_data_files st = (st, Raise FileNotFoundError)).
    { unfold merge_data_files. by rewrite Hd. }
    cbv zeta. rewrite Hrun. simpl. by rewrite Hd.
Qed.

Lemma merge_frame_witness :
  txt "sreality_1.csv" <> COMBINED
  /\ file_at (disk (merge_data_files two_file_state).1) (txt "sreality_1.csv")
     = Some file_ab.
Proof.
  assert (Hne : txt "sreality_1.csv" <> COMBINED) by (vm_compute; discriminate).
  split; [exact Hne|].
  rewrite (proj2 (merge_frame two_file_state _ Hne)). reflexivity.
Defined.

(** ** Reading back what was written *)

Lemma universal_newlines_cons (c : N) (rest : pystr) :
  universal_newlines (c :: rest)
  = if c =? 13
    then 10 :: universal_newlines
                 (match rest with
                  | c' :: rest' => if c' =? 10 then rest' else rest
                  | [] => []
                  end)
    else c :: universal_newlines rest.
Proof.
  simpl. destruct (c =? 13); [| done].
  destruct rest as [|c' rest']; [done|]. by destruct (c' =? 10).
Qed.

Lemma universal_newlines_bounded (P : pystr -> Prop) :
  P [] ->
  (forall c rest, c <> 13 -> P rest -> P (c :: rest)) ->
  (forall rest, head rest <> Some 10 -> P rest -> P (13 :: rest)) ->
  (forall rest, P rest -> P (13 :: 10 :: rest)) ->
  forall s, P s.
Proof.
  intros Hnil Hother Hcr Hcrlf s.
  assert (H : forall n s, (length s <= n)%nat -> P s).
  { clear s. induction n as [|n IH]; intros [|c s] Hlen; simpl in Hlen;
      try done; try lia.
    destruct (decide (c = 13)) as [-> | Hc].
    - destruct s as [|c' s]; [by apply Hcr|].
      destruct (decide (c' = 10)) as [-> | Hc'].
      + apply Hcrlf, IH. simpl in Hlen. lia.
      + apply Hcr; [simpl; congruence|]. apply IH. lia.
    - apply Hother; [done|]. apply IH. lia. }
  by apply (H (length s)).
Qed.

Lemma universal_newlines_other (c : N) (rest : pystr) :
  c <> 13 -> universal_newlines (c :: rest) = c :: universal_newlines rest.
Proof.
  intros Hc. rewrite universal_newlines_cons.
  by destruct (N.eqb_spec c 13).
Qed.

Lemma universal_newlines_cr (rest : pystr) :
  head rest <> Some 10 ->
  universal_newlines (13 :: rest) = 10 :: universal_newlines rest.
Proof.
  destruct rest as [|c rest]; [done|]. intros Hc. simpl.
  destruct (N.eqb_spec c 10) as [-> | _]; done.
Qed.

Lemma universal_newlines_free (s : pystr) : cr_free (universal_newlines s).
Proof.
  unfold cr_free.
  induction s as [|c rest Hc IH|rest Hlf IH|rest IH]
    using universal_newlines_bounded.
  - by intros ?%elem_of_nil.
  - rewrite universal_newlines_other by done.
    intros [? | ?]%elem_of_cons; done.
  - rewrite universal_newlines_cr by done.
    intros [? | ?]%elem_of_cons; done.
  - change (universal_newlines (13 :: 10 :: rest))
      with (10 :: universal_newlines rest).
    intros [? | ?]%elem_of_cons; done.
Qed.

Lemma universal_newlines_id (s : pystr) :
  cr_free s -> universal_newlines s = s.
Proof.
  unfold cr_free. induction s as [|c s IH]; [done|].
  intros Hfree. rewrite universal_newlines_other.
  - f_equal. apply IH. intros Hin. apply Hfree. by right.
  - intros ->. apply Hfree. by left.
Qed.

Lemma universal_newlines_nil (s : pystr) :
  universal_newlines s = [] -> s = [].
Proof.
  destruct s as [|c s]; [done|]. rewrite universal_newlines_cons.
  by destruct (c =? 13).
Qed.

Lemma universal_newlines_encodable (s : pystr) :
  encodable s = true -> encodable (universal_newlines s) = true.
Proof.
  unfold encodable.
  induction s as [|c rest Hc IH|rest Hlf IH|rest IH]
    using universal_newlines_bounded.
  - done.
  - rewrite universal_newlines_other by done. simpl.
    intros [-> H]%andb_prop. by rewrite IH.
  - rewrite universal_newlines_cr by done. simpl. exact IH.
  - change (universal_newlines (13 :: 10 :: rest))
      with (10 :: universal_newlines rest). simpl. exact IH.
Qed.

(** Text that was read back is storable as it is. *)
Lemma storable_text_read (s : pystr) :
  storable_text s -> storable_text (universal_newlines s).
Proof.
  intros [He Hl]. split; [by apply universal_newlines_encodable|].
  by rewrite (universal_newlines_id (universal_newlines s))
    by apply universal_newlines_free.
Qed.

Lemma as_read_columns (texts : list (list pystr)) :
  as_read (CSV_COLUMNS :: texts)
  = if forallb (forallb within_limit) (map (map universal_newlines) texts)
    then Ok (CSV_COLUMNS :: map (map universal_newlines) texts)
    else Raise CsvError.
Proof.
  unfold as_read. cbv zeta. rewrite map_cons.
  change (map universal_newlines CSV_COLUMNS) with CSV_COLUMNS.
  cbn [forallb].
  replace (forallb within_limit CSV_COLUMNS) with true by (by vm_compute).
  done.
Qed.

Lemma within_limit_all (texts : list (list pystr)) :
  Forall (Forall storable_text) texts ->
  forallb (forallb within_limit) (map (map universal_newlines) texts) = true.
Proof.
  intros Hall. apply forallb_forall. intros t Ht.
  apply in_map_iff in Ht as (t0 & <- & Ht0).
  apply forallb_forall. intros s Hs.
  apply in_map_iff in Hs as (s0 & <- & Hs0).
  rewrite Forall_forall in Hall.
  apply list_elem_of_In in Ht0. apply Hall in Ht0.
  rewrite Forall_forall in Ht0.
  apply list_elem_of_In in Hs0. by apply Ht0 in Hs0 as [_ ?].
Qed.

Lemma as_read_storable (texts : list (list pystr)) :
  Forall (Forall storable_text) texts ->
  as_read (CSV_COLUMNS :: texts)
  = Ok (CSV_COLUMNS :: map (map universal_newlines) texts).
Proof.
  intros Hall. by rewrite as_read_columns, within_limit_all.
Qed.

Lemma dict_reader_rows (texts : list (list pystr)) :
  Forall (fun t => t <> []) texts ->
  dict_reader (CSV_COLUMNS :: texts)
  = map (dict_reader_row CSV_COLUMNS) texts.
Proof.
  intros Hall. unfold dict_reader. f_equal.
  induction Hall as [|t texts Ht _ IH]; [done|].
  by rewrite filter_cons_True, IH.
Qed.

Lemma columns_read_back (v : pystr -> pystr) :
  let r' := dict_reader_row CSV_COLUMNS (map v CSV_COLUMNS) in
  writable r' /\ map fst (named r') = CSV_COLUMNS /\
  row_text r' = map v CSV_COLUMNS /\
  (forall c, c ∈ CSV_COLUMNS -> row_get r' c [] = Some (v c)) /\
  row_id r' = Some (v (txt "hash_id")).
Proof.
  unfold row_text, row_id, writable. cbv zeta. split_and!.
  - reflexivity.
  - intros k Hk. vm_compute in Hk |- *. exact Hk.
  - vm_compute. reflexivity.
  - vm_compute. reflexivity.
  - intros c Hc. each_member Hc ltac:(vm_compute; reflexivity).
  - vm_compute. reflexivity.
Qed.

(** X22: rows that [DictWriter] accepts and whose text the file can take
    (no lone surrogate, no field beyond the reader's limit) are written
    whole by [save_to_csv], and the file reads back row for row, with all
    the fixed columns.  Each column holds the text written, with every
    carriage return (and a line feed after it) read as one line feed, so
    text without carriage return comes back unchanged.  A [hash_id] that
    was [None] comes back as the empty string, so rows cut off before their
    identifier and rows with an empty identifier look alike afterwards.
    The rows read back can be written again, and that file reads back as
    it is. *)
Theorem combined_file_reads_back (rows : list row) (name : pystr)
    (st : state) (d : directory) :
  disk st = Some d ->
  Forall writable rows ->
  Forall (fun r => Forall storable_text (row_text r)) rows ->
  exists back : csv_file,
    save_to_csv row_fields rows name false st
    = ({| sent := sent st;
          disk := Some (dir_put d name (CSV_COLUMNS :: map row_text rows)) |},
       Ok tt)
    /\ as_read (CSV_COLUMNS :: map row_text rows) = Ok back
    /\ length (dict_reader back) = length rows
    /\ Forall2
         (fun r r' =>
            map fst (named r') = CSV_COLUMNS /\
            (forall c, c ∈ CSV_COLUMNS ->
               row_get r' c []
               = Some (universal_newlines (default [] (row_get r c [])))) /\
            row_id r' = Some (universal_newlines (default [] (row_id r))) /\
            (Forall cr_free (row_text r) -> row_text r' = row_text r) /\
            writable r' /\
            Forall storable_text (row_text r') /\
            Forall cr_free (row_text r'))
         rows (dict_reader back)
    /\ back = CSV_COLUMNS :: map row_text (dict_reader back)
    /\ as_read back = Ok back.
Proof.
  intros Hd Hwritable Hstorable.
  set (texts := map (fun r => map universal_newlines (row_text r)) rows).
  assert (Hread : as_read (CSV_COLUMNS :: map row_text rows)
                  = Ok (CSV_COLUMNS :: texts)).
  { rewrite as_read_storable; [by rewrite map_map|].
    apply Forall_fmap. eapply Forall_impl; [exact Hstorable | done]. }
  assert (Hback : dict_reader (CSV_COLUMNS :: texts)
                  = map (fun r => dict_reader_row CSV_COLUMNS
                                    (map universal_newlines (row_text r)))
                      rows).
  { unfold texts. rewrite dict_reader_rows, map_map; [done|].
    apply Forall_forall. intros t (r & -> & _)%list_elem_of_fmap.
    discriminate. }
  assert (Hrow : forall r,
    Forall storable_text (row_text r) ->
    let r' := dict_reader_row CSV_COLUMNS
                (map universal_newlines (row_text r)) in
    row_text r' = map universal_newlines (row_text r) /\
    map fst (named r') = CSV_COLUMNS /\
    (forall c, c ∈ CSV_COLUMNS ->
       row_get r' c []
       = Some (universal_newlines (default [] (row_get r c [])))) /\
    row_id r' = Some (universal_newlines (default [] (row_id r))) /\
    (Forall cr_free (row_text r) -> row_text r' = row_text r) /\
    writable r' /\
    Forall storable_text (row_text r') /\
    Forall cr_free (row_text r')).
  { intros r Hr.
    assert (Hmap : map universal_newlines (row_text r)
                   = map (fun c => universal_newlines
                                     (default [] (row_get r c [])))
                       CSV_COLUMNS)
      by (unfold row_text; by rewrite map_map).
    cbv zeta. rewrite Hmap.
    destruct (columns_read_back
                (fun c => universal_newlines (default [] (row_get r c []))))
      as (Hw & Hkeys & Htext & Hget & Hid).
    cbv zeta in Hw, Hkeys, Htext, Hget, Hid.
    set (r' := dict_reader_row CSV_COLUMNS _) in *.
    split_and!; [done | done | done | done | | done | |].
    - intros Hfree. rewrite Htext, <- Hmap.
      rewrite <- (map_id (row_text r)) at 2. apply map_ext_in.
      intros t Ht. apply universal_newlines_id.
      rewrite Forall_forall in Hfree. by apply Hfree, list_elem_of_In.
    - rewrite Htext, <- Hmap. apply Forall_fmap.
      eapply Forall_impl; [exact Hr|]. intros t. apply storable_text_read.
    - rewrite Htext. apply Forall_fmap, Forall_forall. intros c _.
      apply universal_newlines_free. }
  exists (CSV_COLUMNS :: texts).
  split_and!.
  - rewrite (save_to_csv_overwrite _ _ _ st d Hd).
    rewrite (write_rows_total _ row_text); [done|].
    intros r Hr. rewrite Forall_forall in Hwritable.
    by apply row_fields_writable, Hwritable.
  - exact Hread.
  - by rewrite Hback, length_map.
  - rewrite Hback.
    apply Forall2_fmap_r, Forall_Forall2_diag, Forall_forall.
    intros r Hr. rewrite Forall_forall in Hstorable.
    destruct (Hrow r (Hstorable r Hr)) as (_ & H). exact H.
  - rewrite Hback, map_map. unfold texts. f_equal.
  - rewrite as_read_storable.
    + f_equal. f_equal. unfold texts. rewrite map_map.
      apply map_ext. intros r. rewrite map_map. apply map_ext. intros t.
      apply universal_newlines_id, universal_newlines_free.
    + unfold texts. apply Forall_fmap, Forall_forall. intros r Hr.
      apply Forall_fmap. rewrite Forall_forall in Hstorable.
      eapply Forall_impl; [exact (Hstorable r Hr)|].
      intros t. apply storable_text_read.
Qed.

Lemma combined_file_reads_back_witness :
  disk two_file_state
  = Some [ (txt "sreality_1.csv", file_ab); (txt "sreality_2.csv", file_bc) ]
  /\ Forall writable (dict_reader file_bc)
  /\ Forall (fun r => Forall storable_text (row_text r)) (dict_reader file_bc)
  /\ exists back : csv_file,
       as_read (CSV_COLUMNS :: map row_text (dict_reader file_bc)) = Ok back
       /\ length (dict_reader back) = 2%nat.
Proof.
  assert (Hw : Forall writable (dict_reader file_bc)).
  { apply Forall_forall. intros r Hr. vm_compute in Hr.
    repeat (apply elem_of_cons in Hr as [-> | Hr];
            [split; [reflexivity|]; intros k Hk;
             each_member Hk ltac:(vm_compute; repeat (first [by left | right])) |]).
    by apply elem_of_nil in Hr. }
  assert (Hs : Forall (fun r => Forall storable_text (row_text r))
                 (dict_reader file_bc)).
  { apply Forall_forall. intros r Hr. apply Forall_forall. intros t Ht.
    vm_compute in Hr.
    repeat (apply elem_of_cons in Hr as [-> | Hr];
            [vm_compute in Ht;
             repeat (apply elem_of_cons in Ht as [-> | Ht];
                     [split; reflexivity |]);
             by apply elem_of_nil in Ht |]).
    by apply elem_of_nil in Hr. }
  split; [reflexivity|]. split; [exact Hw|]. split; [exact Hs|].
  destruct (combined_file_reads_back (dict_reader file_bc)
              (txt "sreality_combined.csv") two_file_state _ eq_refl Hw Hs)
    as (back & _ & Hread & Hlen & _).
  exists back. split; [exact Hread | exact Hlen].
Defined.

(** ** A run and the identifiers on disk *)

Lemma id_text_made (db : unicode_db) (p : pyval * pydict) (l : pydict) :
  made_of db p l -> id_text db l = cell_text db p.1.
Proof.
  intros (date & detail & _ & ->). unfold id_text.
  rewrite make_listing_shape. cbv zeta. reflexivity.
Qed.

(** X23: a run never saves a listing whose identifier is already in a data
    file.  The records of the saved file are made, in order, of pairs that
    passed the filter, so the identifier text of each (the empty string for
    a [None] identifier) is not among the identifiers loaded from the
    directory the run started with. *)
Theorem saved_records_are_new (db : unicode_db) (w : world) (max_pages : Z)
    (output_file : option pystr) (st st' : state) (filename : pystr)
    (n : nat) :
  scrape_sreality db w max_pages output_file st
    = (st', Ok (Saved filename n)) ->
  exists records d,
    disk st' = Some d /\ length records = n /\
    dict_find d filename
      = Some (CSV_COLUMNS :: map (written_fields db) records) /\
    forall l, l ∈ records -> id_text db l ∉ load_existing_ids (disk st).
Proof.
  intros (good & asked & records & _ & _ & _ & _ & _ & _ & Hdetails & _
          & Hlen & _ & Hdisk)%scrape_saved.
  destruct (details_read_made db w _ _ _ Hdetails) as (kept & Hsub & Hmade).
  exists records. eexists.
  split_and!; [exact Hdisk | done | apply dir_put_find |].
  intros l Hl.
  destruct (proj1 (list_elem_of_lookup _ _) Hl) as [i Hi].
  destruct (Forall2_lookup_r _ _ _ _ _ Hmade Hi) as (p & Hp & Hof).
  rewrite (id_text_made db p l Hof).
  assert (Hin : p ∈ filter_known db (load_existing_ids (disk st))
                      (concat good)).
  { eapply elem_of_sublist; [| exact Hsub]. by eapply list_elem_of_lookup_2. }
  rewrite filter_known_filter in Hin.
  apply list_elem_of_filter in Hin as [Hnew _].
  destruct p as [h b]. simpl in *. destruct h; try exact Hnew.
  intros (Hne & _)%load_existing_ids_spec. done.
Qed.

Lemma saved_records_are_new_witness :
  scrape_sreality latin1_db sample_world 30 None sample_state
  = ((scrape_sreality latin1_db sample_world 30 None sample_state).1,
     Ok (Saved (txt "sreality_prague_rent_20240501_120000.csv") 1))
  /\ exists records d,
       disk (scrape_sreality latin1_db sample_world 30 None sample_state).1
       = Some d /\ length records = 1%nat /\
       dict_find d (txt "sreality_prague_rent_20240501_120000.csv")
         = Some (CSV_COLUMNS :: map (written_fields latin1_db) records) /\
       forall l, l ∈ records ->
         id_text latin1_db l ∉ load_existing_ids (disk sample_state).
Proof.
  assert (H : scrape_sreality latin1_db sample_world 30 None sample_state
              = ((scrape_sreality latin1_db sample_world 30 None
                    sample_state).1,
                 Ok (Saved (txt "sreality_prague_rent_20240501_120000.csv")
                       1))).
  { vm_compute. reflexivity. }
  split; [exact H|].
  exact (saved_records_are_new latin1_db sample_world 30 None sample_state
           _ _ _ H).
Defined.

Lemma dict_find_elem {V} (d : list (pystr * V)) (k : pystr) (v : V) :
  dict_find d k = Some v -> (k, v) ∈ d.
Proof.
  induction d as [|[k' v'] d IH]; simpl; [done|].
  destruct (decide (k' = k)) as [-> | Hne].
  - intros [= ->]. by left.
  - intros H. right. by apply IH.
Qed.

Lemma starts_with_app (p s : pystr) : starts_with p (p ++ s) = true.
Proof.
  induction p as [|c p IH]; simpl; [by destruct s|].
  by rewrite N.eqb_refl.
Qed.

Lemma written_fields_read_back (db : unicode_db) (l : pydict) :
  row_id (dict_reader_row CSV_COLUMNS
            (map universal_newlines (written_fields db l)))
  = Some (universal_newlines (id_text db l)).
Proof.
  unfold written_fields, id_text. rewrite map_map.
  apply (columns_read_back
           (fun c => universal_newlines
                       (cell_text db (dict_get l c (PStr []))))).
Qed.

Lemma affixes_found (p q mid : pystr) :
  starts_with p (p ++ mid ++ q) && ends_with q (p ++ mid ++ q) = true.
Proof.
  rewrite starts_with_app. unfold ends_with.
  by rewrite app_assoc, rev_app_distr, starts_with_app.
Qed.

Lemma default_name_is_data_file (w : world) :
  is_data_file (output_name w None) = true.
Proof.
  unfold is_data_file, output_name.
  change (txt "sreality_prague_rent_" ++ stamp w ++ txt ".csv")
    with (txt "sreality_" ++ (txt "prague_rent_" ++ stamp w) ++ txt ".csv").
  apply affixes_found.
Qed.

Lemma within_limit_read (texts : list (list pystr)) :
  Forall (Forall (fun t => within_limit (universal_newlines t) = true))
    texts ->
  forallb (forallb within_limit) (map (map universal_newlines) texts) = true.
Proof.
  intros Hall. apply forallb_forall. intros t Ht.
  apply in_map_iff in Ht as (t0 & <- & Ht0).
  apply forallb_forall. intros s Hs.
  apply in_map_iff in Hs as (s0 & <- & Hs0).
  rewrite Forall_forall in Hall.
  apply list_elem_of_In in Ht0. apply Hall in Ht0.
  rewrite Forall_forall in Ht0.
  apply list_elem_of_In in Hs0. by apply Ht0 in Hs0.
Qed.

Lemma beyond_limit_read (texts : list (list pystr)) (fields : list pystr)
    (t : pystr) :
  fields ∈ texts -> t ∈ fields ->
  within_limit (universal_newlines t) = false ->
  forallb (forallb within_limit) (map (map universal_newlines) texts) = false.
Proof.
  intros Hf Ht Hbad.
  destruct (forallb _ _) eqn:Hall; [| done].
  rewrite forallb_forall in Hall.
  specialize (Hall (map universal_newlines fields)).
  rewrite forallb_forall in Hall.
  rewrite <- Hbad. symmetry. apply Hall.
  - apply in_map, list_elem_of_In, Hf.
  - apply in_map, list_elem_of_In, Ht.
Qed.

(** X24: what a run saves is known to the next one.  The file is an entry
    of the directory, under the given name, or under
    [sreality_prague_rent_<stamp>.csv] when none is given, and that default
    name is always a data file name.  The records written could all be
    encoded.  When none of their fields is beyond the reader's limit, the
    file reads back; under a data file name, [load_existing_ids], reading
    the directory afterwards, then finds the identifier of every saved
    record that has one, as the reader sees it, and an identifier without
    carriage return is found as it is, so that a later run filters that
    listing out.  One field beyond the limit makes the file unreadable. *)
Theorem saved_ids_known (db : unicode_db) (w : world) (max_pages : Z)
    (output_file : option pystr) (st st' : state) (filename : pystr)
    (n : nat) :
  scrape_sreality db w max_pages output_file st
    = (st', Ok (Saved filename n)) ->
  filename = output_name w output_file /\
  entry_name filename = true /\
  (output_file = None -> is_data_file filename = true) /\
  exists records d,
    let written := CSV_COLUMNS :: map (written_fields db) records in
    disk st' = Some d /\ length records = n /\
    Forall (storable db) records /\
    dict_find d filename = Some written /\
    (Forall (fun l =>
               Forall (fun t => within_limit (universal_newlines t) = true)
                 (written_fields db l)) records ->
     exists back,
       as_read written = Ok back /\
       (is_data_file filename = true ->
        let known := load_existing_ids (Some (dir_put d filename back)) in
        forall l, l ∈ records -> id_text db l <> [] ->
          universal_newlines (id_text db l) ∈ known /\
          (cr_free (id_text db l) ->
           id_text db l ∈ known /\
           forall h b, py_str db h = id_text db l ->
             filter_known db known [(h, b)] = []))) /\
    (forall l t,
       l ∈ records -> t ∈ written_fields db l ->
       within_limit (universal_newlines t) = false ->
       as_read written = Raise CsvError).
Proof.
  intros (good & asked & records & Hname & Hentry & _ & _ & _ & _ & _
          & Hstore & Hlen & _ & Hdisk)%scrape_saved.
  split_and!; [done | done | |].
  { intros ->. rewrite Hname. apply default_name_is_data_file. }
  exists records. eexists. cbv zeta.
  split_and!; [exact Hdisk | done | done | apply dir_put_find | |].
  - intros Hlimit.
    exists (CSV_COLUMNS
            :: map (map universal_newlines) (map (written_fields db) records)).
    split.
    { rewrite as_read_columns, within_limit_read; [done|].
      by apply Forall_fmap. }
    intros Hdata l Hl Hid.
    match goal with |- ?x ∈ ?set /\ _ =>
      assert (Hknown : x ∈ set) end.
    { apply load_existing_ids_spec.
      split; [by intros ?%universal_newlines_nil|].
      eexists _, filename, _, _.
      split_and!;
        [reflexivity | | exact Hdata | | apply written_fields_read_back].
      - apply dict_find_elem, dir_put_find.
      - rewrite dict_reader_rows.
        + apply list_elem_of_fmap. eexists. split; [reflexivity|].
          apply list_elem_of_fmap. eexists. split; [reflexivity|].
          apply list_elem_of_fmap. by exists l.
        + apply Forall_forall.
          intros t (t' & -> & (l' & -> & _)%list_elem_of_fmap)%list_elem_of_fmap.
          discriminate. }
    split; [exact Hknown|]. intros Hfree.
    rewrite (universal_newlines_id _ Hfree) in Hknown.
    split; [exact Hknown|]. intros h b Hh.
    rewrite filter_known_filter, filter_cons_False, filter_nil; [done|].
    simpl. rewrite Hh. intros Hnot. apply Hnot. exact Hknown.
  - intros l t Hl Ht Hbad. rewrite as_read_columns.
    rewrite (beyond_limit_read _ (written_fields db l) t); [done | | done | done].
    apply list_elem_of_fmap. by exists l.
Qed.

Lemma saved_ids_known_witness :
  scrape_sreality latin1_db sample_world 30 None sample_state
  = ((scrape_sreality latin1_db sample_world 30 None sample_state).1,
     Ok (Saved (txt "sreality_prague_rent_20240501_120000.csv") 1))
  /\ txt "sreality_prague_rent_20240501_120000.csv"
     = output_name sample_world None
  /\ entry_name (txt "sreality_prague_rent_20240501_120000.csv") = true.
Proof.
  assert (H : scrape_sreality latin1_db sample_world 30 None sample_state
              = ((scrape_sreality latin1_db sample_world 30 None
                    sample_state).1,
                 Ok (Saved (txt "sreality_prague_rent_20240501_120000.csv")
                       1))).
  { vm_compute. reflexivity. }
  split; [exact H|].
  destruct (saved_ids_known latin1_db sample_world 30 None sample_state
              _ _ _ H) as (Hname & Hentry & _).
  split; [exact Hname | exact Hentry].
Defined.

(** ** The identifiers on disk *)

(** X25: the identifiers [load_existing_ids] finds do not depend on the
    order in which the directory lists its files; and, unlike the merge, it
    reads the combined file too, so an identifier that only the combined
    file holds is known. *)
Theorem load_existing_ids_order_free (d d' : directory) :
  d ≡ₚ d' ->
  load_existing_ids (Some d) = load_existing_ids (Some d')
  /\ forall f r s,
       (COMBINED, f) ∈ d -> r ∈ dict_reader f -> row_id r = Some s ->
       s <> [] -> s ∈ load_existing_ids (Some d').
Proof.
  intros Hperm. split.
  - apply set_eq. intros s. rewrite !load_existing_ids_spec.
    split; intros (Hs & e & name & f & r & [= <-] & Hin & H);
      (split; [done|]); eexists _, name, f, r;
      (split; [reflexivity|]); (split; [| exact H]).
    + by rewrite <- Hperm.
    + by rewrite Hperm.
  - intros f r s Hin Hr Hid Hs. apply load_existing_ids_spec.
    split; [done|]. exists d', COMBINED, f, r.
    split_and!; [done | by rewrite <- Hperm | by vm_compute | done | done].
Qed.

Lemma load_existing_ids_order_free_witness :
  [(txt "sreality_a.csv", file_ab); (COMBINED, file_bc)]
  ≡ₚ [(COMBINED, file_bc); (txt "sreality_a.csv", file_ab)]
  /\ load_existing_ids
       (Some [(txt "sreality_a.csv", file_ab); (COMBINED, file_bc)])
     = load_existing_ids
         (Some [(COMBINED, file_bc); (txt "sreality_a.csv", file_ab)]).
Proof.
  assert (H : [(txt "sreality_a.csv", file_ab); (COMBINED, file_bc)]
              ≡ₚ [(COMBINED, file_bc); (txt "sreality_a.csv", file_ab)])
    by apply Permutation_swap.
  split; [exact H|].
  exact (proj1 (load_existing_ids_order_free _ _ H)).
Defined.
